(** * aitask: dispatcher, Gemini fallback, message builder and schema compiler

    A shallow embedding of

      - [src/aiTask.js]                      ([aiTask], the dispatcher and its cache),
      - [utils/LLMAPI/gemini.js]             ([callGemini], [callGeminiModel],
                                              [rateLimitRetryDelay]),
      - [utils/LLMAPI/openai.js], [openrouter.js], [ollama.js]  (the other adapters),
      - [utils/LLMAPI/messages.js]           ([createOllamaMessages]),
      - [utils/createJSONSchema.js]          ([parseStringDescription], [convertToZod],
                                              [createJSONSchema]),
      - [utils/dataCompressor.js]            ([dataCompressor], [collapseArrayToObject],
                                              [omitAttributes]).

    Part I holds the definitions, translated function by function from the
    JavaScript; Part II the lemmas about them. *)

From Stdlib Require Import ZArith String Ascii List Bool Lia.
From stdpp Require Import base option list gmap strings pretty.

Local Open Scope string_scope.
Local Open Scope Z_scope.
#[local] Set Warnings "-register-all".

(* ===================================================================== *)
(** * Part I: definitions *)
(* ===================================================================== *)

(** ** JavaScript values

    Values as the code handles them.  Objects are association lists in
    own-property order with unique keys ([set_prop] overwrites in place and
    appends new keys, as an assignment does).  A number is an integer, [NaN],
    or a fraction [n/d] that is no integer (the default temperature, 7/10,
    is the only one in the code, and it is only passed on).  A function value is known
    by an identifier; the only functions a request carries are provider
    callbacks.  Strings are sequences of ASCII characters. *)
Module JS.

Inductive value : Type :=
| VUndefined
| VNull
| VBool (b : bool)
| VNum (n : Z)
| VFrac (n : Z) (d : positive)
| VNaN
| VStr (s : string)
| VArr (items : list value)
| VObj (fields : list (string * value))
| VFun (id : nat).

(** How an [await]ed or called computation ends: a value, or a thrown value. *)
Inductive completion (A : Type) : Type :=
| Normal (a : A)
| Throw (e : value).
Arguments Normal {A} a.
Arguments Throw {A} e.

Definition cmap {A C} (f : A -> C) (c : completion A) : completion C :=
  match c with
  | Normal a => Normal (f a)
  | Throw e => Throw e
  end.

(** The [TypeError] the runtime throws on a property access on [null] or
    [undefined], a call of a non-function, or an assignment to a property of a
    primitive in strict (module) code. *)
Definition TypeError : value := VObj [("name", VStr "TypeError")].
(** The [SyntaxError] of [JSON.parse]. *)
Definition SyntaxError : value := VObj [("name", VStr "SyntaxError")].

(** [if (v)], [v && ..], [!v]. *)
Definition truthy (v : value) : bool :=
  match v with
  | VUndefined | VNull | VNaN => false
  | VBool b => b
  | VNum n | VFrac n _ => negb (n =? 0)
  | VStr s => negb (String.eqb s "")
  | VArr _ | VObj _ | VFun _ => true
  end.

(** [typeof v]. *)
Definition typeof (v : value) : string :=
  match v with
  | VUndefined => "undefined"
  | VNull | VArr _ | VObj _ => "object"
  | VBool _ => "boolean"
  | VNum _ | VFrac _ _ | VNaN => "number"
  | VStr _ => "string"
  | VFun _ => "function"
  end.

(** [v === "s"], [v === null], [v === n] against a literal. *)
Definition is_str (v : value) (s : string) : bool :=
  match v with VStr t => String.eqb t s | _ => false end.
Definition is_null (v : value) : bool :=
  match v with VNull => true | _ => false end.
Definition is_num (v : value) (n : Z) : bool :=
  match v with VNum m => m =? n | _ => false end.
Definition isArray (v : value) : bool :=
  match v with VArr _ => true | _ => false end.

(** Own property lookup in an object literal. *)
Fixpoint assoc (k : string) (fs : list (string * value)) : option value :=
  match fs with
  | [] => None
  | (k', v) :: r => if String.eqb k' k then Some v else assoc k r
  end.

(** [o.k = v] on the fields of an object. *)
Fixpoint set_field (k : string) (v : value) (fs : list (string * value))
  : list (string * value) :=
  match fs with
  | [] => [(k, v)]
  | (k', v') :: r =>
      if String.eqb k' k then (k, v) :: r else (k', v') :: set_field k v r
  end.

(** [delete o.k]. *)
Fixpoint delete_field (k : string) (fs : list (string * value))
  : list (string * value) :=
  match fs with
  | [] => []
  | (k', v) :: r =>
      if String.eqb k' k then delete_field k r else (k', v) :: delete_field k r
  end.

(** [v.k] where no exception is possible ([v] known to be an object or a
    primitive other than [null]/[undefined]): a missing property is
    [undefined]; arrays and strings have [length]. *)
Definition field (v : value) (k : string) : value :=
  match v with
  | VObj fs => default VUndefined (assoc k fs)
  | VArr l => if String.eqb k "length" then VNum (Z.of_nat (length l)) else VUndefined
  | VStr s => if String.eqb k "length" then VNum (Z.of_nat (String.length s)) else VUndefined
  | _ => VUndefined
  end.

(** [v.k]: a [TypeError] on [null] and [undefined]. *)
Definition get_prop (v : value) (k : string) : completion value :=
  match v with
  | VUndefined | VNull => Throw TypeError
  | _ => Normal (field v k)
  end.

(** [v[i]] for an array index. *)
Definition get_index (v : value) (i : nat) : completion value :=
  match v with
  | VUndefined | VNull => Throw TypeError
  | VArr l => Normal (default VUndefined (l !! i))
  | _ => Normal VUndefined
  end.

(** [v.k = x] in strict code: objects take the property; so do arrays, whose
    extra named properties the model does not keep; [null], [undefined] and
    primitives throw. *)
Definition set_prop (v : value) (k : string) (x : value) : completion value :=
  match v with
  | VObj fs => Normal (VObj (set_field k x fs))
  | VArr l => Normal (VArr l)
  | VFun f => Normal (VFun f)
  | _ => Throw TypeError
  end.

(** A destructured parameter with a default: [{ k = d }]. *)
Definition param (o : value) (k : string) (d : value) : value :=
  match field o k with
  | VUndefined => d
  | v => v
  end.

(** *** Strings *)

Definition is_ws (a : ascii) : bool :=
  let n := nat_of_ascii a in
  ((9 <=? n) && (n <=? 13))%nat || (n =? 32)%nat.

Definition lower (a : ascii) : ascii :=
  let n := nat_of_ascii a in
  if ((65 <=? n) && (n <=? 90))%nat then ascii_of_nat (n + 32) else a.

(** [s.toLowerCase()]. *)
Fixpoint toLowerCase (s : string) : string :=
  match s with
  | EmptyString => EmptyString
  | String a r => String (lower a) (toLowerCase r)
  end.

(** [s.startsWith(p)]. *)
Fixpoint startsWith (p s : string) : bool :=
  match p, s with
  | EmptyString, _ => true
  | String a p', String b s' => Ascii.eqb a b && startsWith p' s'
  | String _ _, EmptyString => false
  end.

(** [s.includes(p)]. *)
Fixpoint includes (p s : string) : bool :=
  startsWith p s ||
  match s with
  | EmptyString => false
  | String _ r => includes p r
  end.

(** [s.replace(p, "")]: the first occurrence of the pattern string is removed. *)
Fixpoint remove_first (p s : string) : string :=
  if startsWith p s then
    String.substring (String.length p) (String.length s - String.length p) s
  else
    match s with
    | EmptyString => EmptyString
    | String a r => String a (remove_first p r)
    end.

(** [s.split(c)] for a one-character separator. *)
Fixpoint split (c : ascii) (s : string) : list string :=
  match s with
  | EmptyString => [EmptyString]
  | String a r =>
      if Ascii.eqb a c then EmptyString :: split c r
      else match split c r with
           | x :: xs => String a x :: xs
           | [] => [String a EmptyString]
           end
  end.

Fixpoint trimStart (s : string) : string :=
  match s with
  | EmptyString => EmptyString
  | String a r => if is_ws a then trimStart r else s
  end.

Fixpoint trimEnd (s : string) : string :=
  match s with
  | EmptyString => EmptyString
  | String a r =>
      match trimEnd r with
      | EmptyString => if is_ws a then EmptyString else String a EmptyString
      | r' => String a r'
      end
  end.

(** [s.trim()]. *)
Definition trim (s : string) : string := trimEnd (trimStart s).

Definition is_digit (a : ascii) : bool :=
  let n := nat_of_ascii a in ((48 <=? n) && (n <=? 57))%nat.

Fixpoint digits (s : string) (acc : option Z) : option Z :=
  match s with
  | String a r =>
      if is_digit a
      then digits r (Some (10 * default 0 acc + Z.of_nat (nat_of_ascii a - 48)))
      else acc
  | EmptyString => acc
  end.

(** [parseInt(s, 10)]: leading white space, an optional sign, then the longest
    run of decimal digits; [None] is [NaN]. *)
Definition parseInt (s : string) : option Z :=
  match trimStart s with
  | String "-" r => Z.opp <$> digits r None
  | String "+" r => digits r None
  | r => digits r None
  end.

Definition of_parsed (o : option Z) : value :=
  match o with Some n => VNum n | None => VNaN end.

(** *** The runtime's own functions

    Library functions the code calls and this development does not define:
    [JSON.parse] ([None] is its [SyntaxError]), [JSON.stringify], the
    [sha256] hex digest of [crypto], and the conversion of a value to a string
    that [+] and [JSON.parse] apply to a non-string operand. *)
Record Runtime : Type := {
  JSON_parse : string -> option value;
  JSON_stringify : value -> string;          (* JSON.stringify(v) *)
  JSON_stringify_2 : value -> string;        (* JSON.stringify(v, null, 2) *)
  sha256_hex : string -> string;
  ToString : value -> string;
  ToNumber : value -> value;
}.

(** The string a value stands for where the code needs one. *)
Definition to_string (rt : Runtime) (v : value) : string :=
  match v with VStr s => s | _ => ToString rt v end.

(** The number a value stands for in a comparison: an integer, a fraction or
    [NaN]. *)
Definition to_number (rt : Runtime) (v : value) : value :=
  match v with
  | VNum _ | VFrac _ _ | VNaN => v
  | VBool b => VNum (if b then 1 else 0)
  | VNull => VNum 0
  | VUndefined => VNaN
  | _ => ToNumber rt v
  end.

(** How many [i = 0, 1, ..] satisfy [i < n]. *)
Definition count_below (n : value) : nat :=
  match n with
  | VNum n => Z.to_nat n
  | VFrac n d => Z.to_nat ((n + Z.pos d - 1) / Z.pos d)
  | _ => 0%nat
  end.

(** [Object.keys(v)]. *)
Definition keys (v : value) : list string :=
  match v with
  | VObj fs => map fst fs
  | VArr l => imap (fun i _ => pretty i) l
  | VStr s => imap (fun i _ => pretty i) (list_ascii_of_string s)
  | _ => []
  end.

(** [Object.entries(v)] of a value other than [null] and [undefined]. *)
Definition entries (v : value) : list (string * value) :=
  match v with
  | VObj fs => fs
  | VArr l => imap (fun i x => (pretty i, x)) l
  | VStr s => imap (fun i a => (pretty i, VStr (String a EmptyString))) (list_ascii_of_string s)
  | _ => []
  end.

(** [JSON.stringify(v, null, 2)] as a value: it is [undefined], not a string,
    for [undefined] and for a function. *)
Definition stringify_2 (rt : Runtime) (v : value) : value :=
  match v with
  | VUndefined | VFun _ => VUndefined
  | _ => VStr (JSON_stringify_2 rt v)
  end.

(** [Object.assign(target, source)] on the target's fields. *)
Definition assign (target : list (string * value)) (source : value)
  : list (string * value) :=
  fold_left (fun t kv => set_field (fst kv) (snd kv) t) (entries source) target.

(** Arithmetic on the delays the code computes, [v * k + c]; a delay is an
    integer, or [NaN] when no integer could be read. *)
Definition scale (v : value) (k c : Z) : value :=
  match v with
  | VNum n => VNum (n * k + c)
  | _ => VNaN
  end.

End JS.

Import JS.

(** ** The schema compiler ([utils/createJSONSchema.js])

    [zod] is a dependency of the repository.  Its schema objects are modelled
    by the constructors the compiler calls, and [z.toJSONSchema] (option
    [io: "input"]) by the JSON documents that [utils/simpleTest.js] expects
    from it. *)
Module Schema.

Inductive zod : Type :=
| ZString (max : option Z)            (* z.string(), z.string().max(n) *)
| ZNumber
| ZBoolean
| ZAny
| ZNativeEnum (entries : list value)  (* z.nativeEnum(array) *)
| ZArray (item : zod)
| ZUnion (options : list zod)
| ZObject (shape : list (string * zod))
| ZRecord (key val : zod)
| ZOptional (inner : zod)
| ZNullable (inner : zod)
| ZDescribe (inner : zod) (description : string).

(** [new Error(`Malformed Enum: ${e.message}`)]; the text after the colon is
    the runtime's and is left out. *)
Definition MalformedEnum : value :=
  VObj [("name", VStr "Error"); ("message", VStr "Malformed Enum")].

(** [z.any().describe(`Type of ${typeof input}`)]. *)
Definition any_of_type (input : value) : zod :=
  ZDescribe ZAny ("Type of " ++ typeof input).

Section Compiler.
Context (rt : Runtime).

(** The [switch] of [parseStringDescription] on the lower-cased type keyword;
    [description] is updated by the [enum] case. *)
Definition type_schema (type description : string)
  : completion (zod * option string) :=
  if String.eqb type "number" then Normal (ZNumber, Some description)
  else if String.eqb type "boolean" then Normal (ZBoolean, Some description)
  else if String.eqb type "naming" then Normal (ZString (Some 80), Some description)
  else if String.eqb type "paragraph" then Normal (ZString None, Some description)
  else if String.eqb type "enum" then
    match JSON_parse rt description with
    | Some (VArr enumValues) => Normal (ZNativeEnum enumValues, None)
    | _ => Throw MalformedEnum
    end
  else Normal (ZString None, Some description).

(** [parts[1] || parts[0]]. *)
Definition second_or_first (parts : list string) : string :=
  match parts with
  | p0 :: p1 :: _ => if String.eqb p1 "" then p0 else p1
  | [p0] => p0
  | [] => ""
  end.

Definition describe (z : zod) (description : option string) : zod :=
  match description with
  | Some d => if String.eqb d "" then z else ZDescribe z d
  | None => z
  end.

Definition parseStringDescription (descriptionString : string) : completion zod :=
  if includes "|" descriptionString then
    let parts := map trim (split "|" descriptionString) in
    let type0 := toLowerCase (hd "" parts) in
    let type := if String.eqb type0 "" then "string" else type0 in
    let description := second_or_first parts in
    let isOptional := includes " optional" type in
    let type := if isOptional then trim (remove_first " optional" type) else type in
    match type_schema (toLowerCase type) description with
    | Throw e => Throw e
    | Normal (zType, description) =>
        let zType := if isOptional then ZNullable (ZOptional zType) else zType in
        Normal (describe zType description)
    end
  else
    Normal (describe (ZString None) (Some descriptionString)).

(** [convertToZod].  The local functions are its loops: [shape] is the
    [for (const key in input)] of the object case, [sample] the first key of a
    record other than the marker, [each] the [map(convertToZod)] of a union. *)
Fixpoint convertToZod (input : value) : completion zod :=
  let each := fix each (l : list value) : completion (list zod) :=
    match l with
    | [] => Normal []
    | x :: r =>
        match convertToZod x with
        | Throw e => Throw e
        | Normal z =>
            match each r with
            | Throw e => Throw e
            | Normal zs => Normal (z :: zs)
            end
        end
    end in
  let first := fun (l : list value) =>
    match l with
    | [] => Normal (any_of_type VUndefined)
    | x :: _ => convertToZod x
    end in
  match input with
  | VObj fs =>
      if truthy (field input "__is_record") then
        (* handleRecordConversion *)
        let sample := fix sample (fs : list (string * value)) : completion zod :=
          match fs with
          | [] => Normal (ZRecord (ZString None) ZAny)
          | (key, v) :: r =>
              if String.eqb key "__is_record" then sample r
              else
                match parseStringDescription key with
                | Throw e => Throw e
                | Normal zk =>
                    match convertToZod v with
                    | Throw e => Throw e
                    | Normal zv => Normal (ZRecord zk zv)
                    end
                end
          end in
        sample fs
      else
        let shape := fix shape (fs : list (string * value))
          : completion (list (string * zod)) :=
          match fs with
          | [] => Normal []
          | (key, v) :: r =>
              let member :=
                match v with
                | VStr s => parseStringDescription s
                | VArr l =>
                    match first l with
                    | Throw e => Throw e
                    | Normal z0 =>
                        let v1 := default VUndefined (l !! 1%nat) in
                        if truthy v1 && is_str v1 "optional"
                        then Normal (ZNullable (ZOptional (ZArray z0)))
                        else
                          match l with
                          | VArr alts :: _ =>
                              if is_str v1 "anyOf" then
                                match each alts with
                                | Throw e => Throw e
                                | Normal zs => Normal (ZArray (ZUnion zs))
                                end
                              else Normal (ZArray z0)
                          | _ => Normal (ZArray z0)
                          end
                    end
                | VObj _ => convertToZod v
                | _ => Normal (any_of_type v)
                end in
              match member with
              | Throw e => Throw e
              | Normal z =>
                  match shape r with
                  | Throw e => Throw e
                  | Normal zs => Normal ((key, z) :: zs)
                  end
              end
          end in
        match shape fs with
        | Throw e => Throw e
        | Normal zs => Normal (ZObject zs)
        end
  | VArr l =>
      match l with
      | [] => Normal (ZArray ZAny)
      | x :: _ =>
          let v1 := default VUndefined (l !! 1%nat) in
          match x with
          | VArr alts =>
              if is_str v1 "anyOf" then
                match each alts with
                | Throw e => Throw e
                | Normal zs => Normal (ZArray (ZUnion zs))
                end
              else
                match convertToZod x with
                | Throw e => Throw e
                | Normal z => Normal (ZArray z)
                end
          | _ =>
              match convertToZod x with
              | Throw e => Throw e
              | Normal z => Normal (ZArray z)
              end
          end
      end
  | VStr s => parseStringDescription s
  | _ => Normal (any_of_type input)
  end.

(** The object case of [convertToZod] once more, as functions of their own:
    the [map] over the options of a union, the schema of one member, and the
    loop over the members.  Lemma
    [convertToZod_object] shows that they are what [convertToZod] computes. *)
Fixpoint convert_each (l : list value) : completion (list zod) :=
  match l with
  | [] => Normal []
  | x :: r =>
      match convertToZod x with
      | Throw e => Throw e
      | Normal z =>
          match convert_each r with
          | Throw e => Throw e
          | Normal zs => Normal (z :: zs)
          end
      end
  end.

Definition member_schema (v : value) : completion zod :=
  match v with
  | VStr s => parseStringDescription s
  | VArr l =>
      match (match l with
             | [] => Normal (any_of_type VUndefined)
             | x :: _ => convertToZod x
             end) with
      | Throw e => Throw e
      | Normal z0 =>
          let v1 := default VUndefined (l !! 1%nat) in
          if truthy v1 && is_str v1 "optional"
          then Normal (ZNullable (ZOptional (ZArray z0)))
          else
            match l with
            | VArr alts :: _ =>
                if is_str v1 "anyOf" then
                  match convert_each alts with
                  | Throw e => Throw e
                  | Normal zs => Normal (ZArray (ZUnion zs))
                  end
                else Normal (ZArray z0)
            | _ => Normal (ZArray z0)
            end
      end
  | VObj _ => convertToZod v
  | _ => Normal (any_of_type v)
  end.

Fixpoint object_shape (fs : list (string * value)) : completion (list (string * zod)) :=
  match fs with
  | [] => Normal []
  | (key, v) :: r =>
      match member_schema v with
      | Throw e => Throw e
      | Normal z =>
          match object_shape r with
          | Throw e => Throw e
          | Normal zs => Normal ((key, z) :: zs)
          end
      end
  end.

(** [isZodSchema]. *)
Definition isZodSchema (input : value) : bool :=
  String.eqb (typeof input) "object" && negb (is_null input) &&
  String.eqb (typeof (field input "safeParse")) "function".

(** zod's [getEnumValues] on the entries of an array: an index that is also
    a numeric member is taken for a reverse mapping and dropped. *)
Definition getEnumValues (entries : list value) : list value :=
  let numeric := omap (fun v => match v with VNum n => Some n | _ => None end) entries in
  omap (fun iv : nat * value =>
          if existsb (Z.eqb (Z.of_nat (fst iv))) numeric then None else Some (snd iv))
       (imap pair entries).

Definition enum_type (values : list value) : list (string * value) :=
  if forallb (fun v => String.eqb (typeof v) "string") values then [("type", VStr "string")]
  else if forallb (fun v => String.eqb (typeof v) "number") values then [("type", VStr "number")]
  else [].

(** Whether an object key may be absent on input ([_zod.optin]). *)
Fixpoint optin (z : zod) : bool :=
  match z with
  | ZOptional _ => true
  | ZNullable i | ZDescribe i _ => optin i
  | ZUnion os => existsb optin os
  | _ => false
  end.

(** The JSON Schema of a zod schema, as the members of its object.  A
    description comes first; [required] is left out when it would be empty. *)
Fixpoint schema_of (z : zod) : list (string * value) :=
  match z with
  | ZString None => [("type", VStr "string")]
  | ZString (Some n) => [("type", VStr "string"); ("maxLength", VNum n)]
  | ZNumber => [("type", VStr "number")]
  | ZBoolean => [("type", VStr "boolean")]
  | ZAny => []
  | ZNativeEnum entries =>
      let values := getEnumValues entries in
      enum_type values ++ [("enum", VArr values)]
  | ZArray item => [("type", VStr "array"); ("items", VObj (schema_of item))]
  | ZUnion os => [("anyOf", VArr (map (fun o => VObj (schema_of o)) os))]
  | ZObject shape =>
      let properties := map (fun kz : string * zod => (fst kz, VObj (schema_of (snd kz)))) shape in
      let required := omap (fun kz : string * zod =>
                              if optin (snd kz) then None else Some (VStr (fst kz))) shape in
      [("type", VStr "object"); ("properties", VObj properties)]
        ++ match required with [] => [] | _ => [("required", VArr required)] end
  | ZRecord key val =>
      [("type", VStr "object");
       ("propertyNames", VObj (schema_of key));
       ("additionalProperties", VObj (schema_of val))]
  | ZOptional inner => schema_of inner
  | ZNullable inner => [("anyOf", VArr [VObj (schema_of inner); VObj [("type", VStr "null")]])]
  | ZDescribe inner d => ("description", VStr d) :: schema_of inner
  end.

(** [z.toJSONSchema(schema, { io: "input" })]. *)
Definition toJSONSchema (z : zod) : value :=
  VObj (("$schema", VStr "https://json-schema.org/draft/2020-12/schema") :: schema_of z).

(** What [createJSONSchema] is given: a descriptor, or a zod schema. *)
Inductive schema_input : Type :=
| Descriptor (input : value)
| ZodSchema (z : zod).

(** [createJSONSchema].  A descriptor that passes the [isZodSchema] heuristic
    without being a schema has no [_zod] member, which [toJSONSchema] reads:
    a [TypeError]. *)
Definition createJSONSchema (input : schema_input) : completion value :=
  let zodSchema :=
    match input with
    | ZodSchema z => Normal z
    | Descriptor v => if isZodSchema v then Throw TypeError else convertToZod v
    end in
  match zodSchema with
  | Throw e => Throw e
  | Normal z =>
      match toJSONSchema z with
      | VObj fs => Normal (VObj (delete_field "$schema" fs))
      | schema => Normal schema
      end
  end.

End Compiler.

(** Names for the statements: the member of a compiled object under a key,
    the schema of an optional string with a description, and the list
    [required] of a schema. *)
Fixpoint zassoc (k : string) (zs : list (string * zod)) : option zod :=
  match zs with
  | [] => None
  | (k', z) :: r => if String.eqb k' k then Some z else zassoc k r
  end.

Definition optional_string_schema (d : string) : value :=
  VObj [("description", VStr d);
        ("anyOf", VArr [VObj [("type", VStr "string")]; VObj [("type", VStr "null")]])].

Definition required_of (schema : value) : list value :=
  match field schema "required" with
  | VArr l => l
  | _ => []
  end.

End Schema.

(** ** The dispatcher and its adapters
    ([aiTask.js], [utils/LLMAPI/gemini.js], [openai.js], [openrouter.js],
    [ollama.js])

    Everything outside the process is one function of the history, [backend]:
    what a backend answers to a request, given all exchanges and sleeps so
    far.  An exchange of the adapters built on [createOllamaMessages]
    ([_callOpenAI], [callOllama]) stands for building the messages and
    awaiting the reply; a failure of either is a rejected exchange, and the
    request is recorded by the arguments the messages are built from.  Those
    adapters strip [inputs.images] in place (module [Builder]); the
    dispatcher's later attempts of the same call see the stripped object, which
    this module does not track: it keeps [modelInput] as it was. *)
Module Dispatch.

(** What an adapter asks of the outside.  For the adapters that build their
    messages with [createOllamaMessages] ([_callOpenAI], [callOllama]) the
    exchange is the building of the messages from the arguments and the
    request made with them, and its reply is an exception when either
    throws.  The builder is the subject of the module [Builder] below; what
    it writes to the caller's [inputs] is not seen here, where a request
    object is a value.  The adapters agree with the code for every [inputs]
    the builder leaves as it is, one with no [images] and no array of raw
    [messages]; and a function a request carries is taken to leave the
    object it is applied to as it is. *)
Inductive call : Type :=
| Generate (model : value) (systemInstruction : option value)
           (prompt : string) (generationConfig : value)
    (* google.getGenerativeModel({model, systemInstruction}).generateContent(..) *)
| Chat (baseURL : option string) (request : list (string * value))
    (* createOllamaMessages(..), then openai.chat.completions.create(..) of a
       client; None is OpenAI's own URL *)
| OllamaChat (request : list (string * value))
    (* createOllamaMessages(..), then ollama.chat(..) *)
| Apply (f : nat) (argument : value).
    (* a call of a function value the request carries *)

Inductive event : Type :=
| Exchange (c : call) (reply : completion value)
| Sleep (ms : value).

(** The process: the response cache, the rate-limit cursor of [gemini.js], and
    the history of exchanges and sleeps.  [cache.save()] writes the map to
    disk and leaves it as it is; it has no counterpart here. *)
Record world : Type := World {
  cache : gmap string value;
  lastRateLimitedGeminiModelIndex : nat;
  trace : list event;
}.

Definition log (ev : event) (w : world) : world :=
  World (cache w) (lastRateLimitedGeminiModelIndex w) (trace w ++ [ev]).

Definition store (k : string) (v : value) (w : world) : world :=
  World (<[k := v]> (cache w)) (lastRateLimitedGeminiModelIndex w) (trace w).

(** How an [async] function ends: a value, an exception, or not within the
    recursion depth the run was given. *)
Inductive outcome (A : Type) : Type :=
| Returns (a : A)
| Throws (e : value)
| Pending.
Arguments Returns {A} a.
Arguments Throws {A} e.
Arguments Pending {A}.

Definition M (A : Type) : Type := world -> outcome A * world.

Definition ret {A} (a : A) : M A := fun w => (Returns a, w).
Definition throw {A} (e : value) : M A := fun w => (Throws e, w).
Definition pending {A} : M A := fun w => (Pending, w).

Definition bind {A B} (m : M A) (k : A -> M B) : M B :=
  fun w =>
    match m w with
    | (Returns a, w') => k a w'
    | (Throws e, w') => (Throws e, w')
    | (Pending, w') => (Pending, w')
    end.

(** [try { m } catch (error) { handler }]. *)
Definition try_catch {A} (m : M A) (handler : value -> M A) : M A :=
  fun w =>
    match m w with
    | (Throws e, w') => handler e w'
    | r => r
    end.

Definition lift {A} (c : completion A) : M A :=
  match c with
  | Normal a => ret a
  | Throw e => throw e
  end.

Declare Scope M_scope.
Delimit Scope M_scope with M.
Bind Scope M_scope with M.
Notation "x <- m ;; k" := (bind m (fun x => k))
  (at level 100, m at next level, right associativity) : M_scope.
Notation "m ;; k" := (bind m (fun _ => k))
  (at level 100, right associativity) : M_scope.
Local Open Scope M_scope.

(** [cache.get(hash)]: the stored value, [undefined] for a key never set. *)
Definition cache_get (hash : string) : M value :=
  fun w => (Returns (default VUndefined (cache w !! hash)), w).

(** [cache.set(hash, v); cache.save()]. *)
Definition cache_set (hash : string) (v : value) : M unit :=
  fun w => (Returns tt, store hash v w).

(** [await new Promise(resolve => setTimeout(resolve, ms))]. *)
Definition sleep (ms : value) : M unit :=
  fun w => (Returns tt, log (Sleep ms) w).

Definition newline : string := String (ascii_of_nat 10) EmptyString.

Section Adapters.
Context (rt : Runtime).
Context (backend : list event -> call -> completion value).

(** One exchange with the outside. *)
Definition exchange (c : call) : M value :=
  fun w =>
    let reply := backend (trace w) c in
    (match reply with Normal v => Returns v | Throw e => Throws e end,
     log (Exchange c reply) w).

(** [hashQuery] of [aiTask.js]. *)
Definition hashQuery (params : value) : string :=
  sha256_hex rt (JSON_stringify rt params).

(** [buildPrompt] of [aiTask.js]. *)
Definition buildPrompt (task inputs outputs : value) (isJSON : bool) : string :=
  let hasTask := truthy task in
  let hasInput :=
    truthy inputs &&
    match inputs with
    | VArr l => negb (Nat.eqb (length l) 0)
    | _ => negb (Nat.eqb (length (keys inputs)) 0)
    end in
  let hasOutputs := truthy outputs in
  let delimiter := "```" in
  let prompt := "" in
  let prompt :=
    if hasTask then
      prompt ++ "TASK:" ++ newline ++ delimiter ++ newline ++ to_string rt task
             ++ newline ++ delimiter ++ newline ++ newline
    else prompt in
  let prompt :=
    if hasOutputs then
      let outputPrompt :=
        "OUTPUT WITH FOLLOWING " ++ (if isJSON then "JSON" else "") ++ " FORMAT:" in
      prompt ++ outputPrompt ++ newline ++ delimiter ++ newline ++ to_string rt outputs
             ++ newline ++ delimiter ++ newline
    else prompt in
  let prompt :=
    if hasInput then
      prompt ++ "INPUT:" ++ newline ++ delimiter ++ newline ++ JSON_stringify_2 rt inputs
             ++ newline ++ delimiter ++ newline ++ "    " ++ newline
    else prompt in
  trim prompt.

(** *** [gemini.js] *)

Definition geminiModels : list value :=
  [ VObj [("model", VStr "gemini-3-flash")];
    VObj [("model", VStr "gemini-2.5-flash")];
    VObj [("model", VStr "gemini-2.5-flash-lite")] ].

Definition RetryInfo : string := "type.googleapis.com/google.rpc.RetryInfo".

(** [errorDetails.find(detail => detail['@type'] === RetryInfo)]. *)
Fixpoint find_retry_info (details : list value) : completion value :=
  match details with
  | [] => Normal VUndefined
  | detail :: r =>
      match get_prop detail "@type" with
      | Throw e => Throw e
      | Normal t => if is_str t RetryInfo then Normal detail else find_retry_info r
      end
  end.

(** [retryInfo.retryDelay.replace('s', '')] then [parseInt(.., 10)]. *)
Definition parse_retry_delay (retryDelay : value) : completion value :=
  match retryDelay with
  | VStr s => Normal (of_parsed (parseInt (remove_first "s" s)))
  | _ => Throw TypeError
  end.

(** The first half of [rateLimitRetryDelay]: the seconds a [RetryInfo] detail
    of the error asks for, [null] when it has none. *)
Definition retryDelaySeconds (error : value) : completion value :=
  match get_prop error "errorDetails" with
  | Throw e => Throw e
  | Normal errorDetails =>
      if truthy errorDetails then
        match errorDetails with
        | VArr details =>
            match find_retry_info details with
            | Throw e => Throw e
            | Normal retryInfo =>
                if truthy retryInfo && truthy (field retryInfo "retryDelay")
                then parse_retry_delay (field retryInfo "retryDelay")
                else Normal VNull
            end
        | _ => Throw TypeError
        end
      else Normal VNull
  end.

Definition rateLimitRetryDelay (error : value) : completion value :=
  match retryDelaySeconds error with
  | Throw e => Throw e
  | Normal retryDelaySeconds =>
      let defaultDelaySeconds := VNum 30 in
      let delaySeconds :=
        if is_null retryDelaySeconds then defaultDelaySeconds else retryDelaySeconds in
      let delayMs := scale delaySeconds 1000 250 in
      Normal delayMs
  end.

Definition isRateLimitError (error : value) : completion bool :=
  match get_prop error "status" with
  | Throw e => Throw e
  | Normal status => Normal (is_num status 429)
  end.

(** [model.startsWith('gemma')]. *)
Definition starts_with_gemma (model : value) : completion bool :=
  match model with
  | VStr s => Normal (startsWith "gemma" s)
  | _ => Throw TypeError
  end.

(** [x++] on a truthy retry counter. *)
Definition increment (v : value) : value :=
  match v with
  | VNum n => VNum (n + 1)
  | VBool _ => VNum 2
  | _ => VNaN
  end.

(** The object literal [{ role, task, .. }] an adapter passes on. *)
Definition pass (names : list string) (arg : list (string * value))
  : list (string * value) :=
  map (fun k => (k, field (VObj arg) k)) names.

(** The first statements of [callGeminiModel]'s [try] block, up to the
    request it sends: [model] as reassigned when it is [null], then, unless
    [outputs.type] or [model.startsWith] throws, [task] as rewritten for a
    gemma model and the request. *)
Definition model_of (arg : list (string * value)) : value :=
  let model := param (VObj arg) "model" (VStr "gemini-2.0-flash") in
  if is_null model then VStr "gemini-2.5-flash" else model.

Definition prepare (arg : list (string * value)) : completion (value * call) :=
  let role := field (VObj arg) "role" in
  let task := field (VObj arg) "task" in
  let inputs := field (VObj arg) "inputs" in
  let outputs := field (VObj arg) "outputs" in
  let outputFormat := param (VObj arg) "outputFormat" (VStr "json_object") in
  let temperature := param (VObj arg) "temperature" (VFrac 7 10) in
  let model := model_of arg in
  match get_prop outputs "type" with
  | Throw e => Throw e
  | Normal type =>
      let isSchemaType := truthy type && (is_str type "array" || is_str type "object") in
      match starts_with_gemma model with
      | Throw e => Throw e
      | Normal gemma =>
          let supportsSystemInstruction := negb gemma in
          let task :=
            if gemma
            then VStr ("ROLE:" ++ to_string rt role ++ newline ++ newline ++ to_string rt task)
            else task in
          let isJSON := is_str outputFormat "json_object" in
          Normal
            (task,
             Generate model
               (if supportsSystemInstruction then Some role else None)
               (buildPrompt task inputs outputs isJSON)
               (VObj [("temperature", temperature);
                      ("responseMimeType",
                       VStr (if isJSON then "application/json" else "text/plain"));
                      ("responseSchema", if isSchemaType then outputs else VNull)]))
      end
  end.

(** [callGeminiModel].  [arg] is the destructured parameter object.  The
    handler of the outer [catch] sees [task] and [model] as they are when the
    exception is thrown.  The reply of the exchange stands for
    [result.response]: its member [text] is what [result.response.text()]
    returns. *)
Fixpoint callGeminiModel (fuel : nat) (arg : list (string * value)) : M value :=
  match fuel with
  | O => pending
  | S fuel =>
      let role := field (VObj arg) "role" in
      let task := field (VObj arg) "task" in
      let inputs := field (VObj arg) "inputs" in
      let outputs := field (VObj arg) "outputs" in
      let outputFormat := param (VObj arg) "outputFormat" (VStr "json_object") in
      let temperature := param (VObj arg) "temperature" (VFrac 7 10) in
      let JSONErrorRetry := param (VObj arg) "JSONErrorRetry" (VBool false) in
      let OverloadErrorRetry := param (VObj arg) "OverloadErrorRetry" (VBool false) in
      let includeMetadata := param (VObj arg) "includeMetadata" (VBool false) in
      let again (task model JSONErrorRetry OverloadErrorRetry : value) :=
        callGeminiModel fuel
          [("role", role); ("task", task); ("inputs", inputs); ("outputs", outputs);
           ("outputFormat", outputFormat); ("temperature", temperature);
           ("model", model); ("JSONErrorRetry", JSONErrorRetry);
           ("OverloadErrorRetry", OverloadErrorRetry);
           ("includeMetadata", includeMetadata)] in
      let handler (task model : value) (error : value) : M value :=
        status <- lift (get_prop error "status") ;;
        if is_num status 429 then throw error
        else if is_num status 499 || is_num status 503 then
          (* retry until get answer *)
          let OverloadErrorRetry :=
            if truthy OverloadErrorRetry then increment OverloadErrorRetry else VNum 1 in
          sleep (scale OverloadErrorRetry 10000 0) ;;
          again task model JSONErrorRetry OverloadErrorRetry
        else ret VNull in
      let model := model_of arg in
      match prepare arg with
      | Throw e => handler task model e
      | Normal (task, request) =>
          try_catch
            (let isJSON := is_str outputFormat "json_object" in
             result <- exchange request ;;
             responseContent <- lift (get_prop result "text") ;;
             usageMetadata <- lift (get_prop result "usageMetadata") ;;
             output <-
               (if isJSON then
                  match JSON_parse rt (to_string rt responseContent) with
                  | Some v => ret v
                  | None => throw SyntaxError
                  end
                else ret responseContent) ;;
             output <-
               (if truthy includeMetadata && isJSON
                then lift (set_prop output "usageMetadata" usageMetadata)
                else ret output) ;;
             try_catch (ret output)
               (fun JSONError =>
                  (* retry max 3 times *)
                  if truthy JSONErrorRetry then
                    let JSONErrorRetry := increment JSONErrorRetry in
                    match JSONErrorRetry with
                    | VNum n =>
                        if 3 <? n then throw JSONError
                        else again task model JSONErrorRetry OverloadErrorRetry
                    | _ => again task model JSONErrorRetry OverloadErrorRetry
                    end
                  else again task model (VNum 1) OverloadErrorRetry))
            (handler task model)
      end
  end.

(** The argument objects of [callGemini]: what it passes to
    [callGeminiModel] for a model, and to itself when it runs again. *)
Definition model_arguments (arg : list (string * value)) (model : value)
  : list (string * value) :=
  pass ["role"; "task"; "inputs"; "outputs"] arg
    ++ [("outputFormat", param (VObj arg) "outputFormat" (VStr "json_object"));
        ("temperature", param (VObj arg) "temperature" (VFrac 7 10));
        ("model", model);
        ("includeMetadata", param (VObj arg) "includeMetadata" (VBool false))].

Definition gemini_arguments (arg : list (string * value)) : list (string * value) :=
  pass ["role"; "task"; "inputs"; "outputs"] arg
    ++ [("outputFormat", param (VObj arg) "outputFormat" (VStr "json_object"));
        ("temperature", param (VObj arg) "temperature" (VFrac 7 10));
        ("model", param (VObj arg) "model" VNull);
        ("bestModel", param (VObj arg) "bestModel" (VBool false));
        ("includeMetadata", param (VObj arg) "includeMetadata" (VBool false))].

(** The [while] loop of [callGemini], over the models from [modelIndex] on:
    a rate-limited model is passed over ([modelIndex++]), any other error is
    thrown again, and falling out of the loop the function returns nothing. *)
Fixpoint walk (attempt : value -> M value) (models : list value) : M value :=
  match models with
  | [] => ret VUndefined
  | modelConfig :: rest =>
      try_catch (attempt (field modelConfig "model"))
        (fun error =>
           limited <- lift (isRateLimitError error) ;;
           if limited : bool then walk attempt rest
           else throw error)
  end.

(** [let modelIndex = lastRateLimitedGeminiModelIndex; while (..) {..}]. *)
Definition priority_list (attempt : value -> M value) : M value :=
  fun w => walk attempt (drop (lastRateLimitedGeminiModelIndex w) geminiModels) w.

Fixpoint callGemini (fuel : nat) (arg : list (string * value)) : M value :=
  match fuel with
  | O => pending
  | S fuel =>
      let model := param (VObj arg) "model" VNull in
      let bestModel := param (VObj arg) "bestModel" (VBool false) in
      let attempt (model : value) : M value :=
        callGeminiModel fuel (model_arguments arg model) in
      if negb (is_null model) || truthy bestModel then
        try_catch (attempt model)
          (fun error =>
             limited <- lift (isRateLimitError error) ;;
             if limited : bool then
               (* wait, rerun *)
               delayMs <- lift (rateLimitRetryDelay error) ;;
               sleep (scale delayMs 1 1000) ;;
               callGemini fuel (gemini_arguments arg)
             else priority_list attempt)
      else priority_list attempt
  end.

(** Names for the statements about [callGemini]: whether its first branch is
    taken, the model that branch asks, and the events that concern one
    model only. *)
Definition pinned (arg : list (string * value)) : bool :=
  negb (is_null (param (VObj arg) "model" VNull))
  || truthy (param (VObj arg) "bestModel" (VBool false)).

Definition candidate (arg : list (string * value)) : value :=
  model_of (model_arguments arg (param (VObj arg) "model" VNull)).

Definition on_model (model : value) (ev : event) : Prop :=
  match ev with
  | Exchange (Generate m _ _ _) _ => m = model
  | Exchange _ _ => False
  | Sleep _ => True
  end.

(** *** [openai.js], [openrouter.js], [ollama.js] *)

Fixpoint endsWith (p s : string) : bool :=
  String.eqb p s ||
  match s with
  | EmptyString => false
  | String _ r => endsWith p r
  end.

(** [s.replace(/^```json/, '').replace(/```$/, '')]. *)
Definition strip_fences (s : string) : string :=
  let s := if startsWith "```json" s then String.substring 7 (String.length s - 7) s else s in
  if endsWith "```" s then String.substring 0 (String.length s - 3) s else s.

(** What [_callOpenAI] asks of its backend: the model, and the arguments the
    messages and the response format are built from. *)
Definition chat_request (arg : list (string * value)) : list (string * value) :=
  ("model", param (VObj arg) "model" (VStr "gpt-4o-mini"))
    :: pass ["role"; "task"; "inputs"; "outputs"] arg
    ++ [("outputFormat", param (VObj arg) "outputFormat" (VStr "json_object"));
        ("temperature", param (VObj arg) "temperature" (VFrac 7 10));
        ("reasoning", param (VObj arg) "reasoning" VNull)].

(** [_callOpenAI] on the client with the given base URL. *)
Definition _callOpenAI (baseURL : option string) (arg : list (string * value)) : M value :=
  try_catch
    (response <- exchange (Chat baseURL (chat_request arg)) ;;
     choices <- lift (get_prop response "choices") ;;
     choice <- lift (get_index choices 0) ;;
     message <- lift (get_prop choice "message") ;;
     jsonResponse <- lift (get_prop message "content") ;;
     match JSON_parse rt (to_string rt jsonResponse) with
     | Some v => ret v
     | None =>
         (* handle bad model behavior *)
         match jsonResponse with
         | VStr s =>
             match JSON_parse rt (strip_fences s) with
             | Some v => ret v
             | None => ret VUndefined
             end
         | _ => ret VUndefined
         end
     end)
    (fun error => ret VNull).

Definition callOpenAI (arg : list (string * value)) : M value :=
  let outputFormat := param (VObj arg) "outputFormat" (VStr "json_object") in
  let temperature := param (VObj arg) "temperature" (VFrac 7 10) in
  _callOpenAI None
    (pass ["role"; "task"; "inputs"; "outputs"] arg
       ++ [("outputFormat", outputFormat); ("temperature", temperature)]).

Definition openrouter_url : string := "https://openrouter.ai/api/v1".

Definition callOpenRouter (arg : list (string * value)) : M value :=
  let outputFormat := param (VObj arg) "outputFormat" (VStr "json_object") in
  let temperature := param (VObj arg) "temperature" (VFrac 7 10) in
  let model := field (VObj arg) "model" in
  let reasoning :=
    param (VObj arg) "reasoning" (VObj [("effort", VStr "none"); ("enabled", VBool false)]) in
  _callOpenAI (Some openrouter_url)
    (("model", model) :: pass ["role"; "task"; "inputs"; "outputs"] arg
       ++ [("outputFormat", outputFormat); ("temperature", temperature);
           ("reasoning", reasoning)]).

(** What [callOllama] asks of its backend. *)
Definition ollama_request (arg : list (string * value)) : list (string * value) :=
  ("model", param (VObj arg) "model" (VStr "llama3.2"))
    :: pass ["role"; "task"] arg
    ++ [("inputs", param (VObj arg) "inputs" VNull);
        ("outputs", param (VObj arg) "outputs" VNull);
        ("outputFormat", param (VObj arg) "outputFormat" (VStr "json_object"));
        ("temperature", param (VObj arg) "temperature" (VFrac 7 10))].

Definition callOllama (arg : list (string * value)) : M value :=
  let inputs := param (VObj arg) "inputs" VNull in
  let outputFormat := param (VObj arg) "outputFormat" (VStr "json_object") in
  try_catch
    (response <- exchange (OllamaChat (ollama_request arg)) ;;
     lift (get_prop response "prompt_eval_count") ;;
     (* returnWholeMessage of createOllamaMessages *)
     let returnWholeMessage := isArray (field inputs "messages") in
     message <- lift (get_prop response "message") ;;
     if returnWholeMessage then ret message
     else
       content <- lift (get_prop message "content") ;;
       if is_str outputFormat "json_object" then
         match JSON_parse rt (to_string rt content) with
         | Some v => ret v
         | None => throw SyntaxError
         end
       else ret content)
    (fun error => ret VNull).

(** *** [aiTask.js] *)

(** [model.includes("/")] for a truthy [model]: a substring test on a string,
    a membership test on an array, a call of the member on an object that has
    one, and a [TypeError] on anything else. *)
Definition model_includes (model : value) (sep : string) : M bool :=
  match model with
  | VStr s => ret (includes sep s)
  | VArr l => ret (existsb (fun x => is_str x sep) l)
  | VObj fs =>
      match assoc "includes" fs with
      | Some (VFun f) => r <- exchange (Apply f (VStr sep)) ;; ret (truthy r)
      | _ => throw TypeError
      end
  | _ => throw TypeError
  end.

(** Lines 74-88: the request object, and the models left to try when
    [model] is an array ([null] otherwise). *)
Definition normalize (configOrRole task inputs outputs outputFormat : value)
  : list (string * value) * option (list value) :=
  let role := if String.eqb (typeof configOrRole) "string" then configOrRole else VNull in
  let modelInput :=
    [("role", role); ("task", task); ("inputs", inputs); ("outputs", outputs);
     ("outputFormat", outputFormat)] in
  if String.eqb (typeof configOrRole) "object" && negb (is_null configOrRole) then
    let modelInput := assign modelInput configOrRole in
    match field (VObj modelInput) "model" with
    | VArr models =>
        (* remainingModels = modelInput.model; modelInput.model = modelInput.model.shift() *)
        (set_field "model" (hd VUndefined models) modelInput, Some (tl models))
    | _ => (modelInput, None)
    end
  else (modelInput, None).

(** Lines 101-117: the adapter for the request, and the check of its result. *)
Definition route (fuel : nat) (localOnly : value) (modelInput : list (string * value))
  : M value :=
  if truthy localOnly then callOllama modelInput
  else
    let provider := field (VObj modelInput) "provider" in
    let model := field (VObj modelInput) "model" in
    responseContent <-
      match provider with
      | VFun f => exchange (Apply f (VObj modelInput))
      | _ =>
          namespaced <- (if truthy model then model_includes model "/" else ret false) ;;
          if namespaced : bool then callOpenRouter modelInput
          else if negb (truthy provider) || is_str provider "gemini"
          then callGemini fuel modelInput
          else if is_str provider "openai" then callOpenAI modelInput
          else ret VNull
      end ;;
    if is_null responseContent then throw (VStr "Could not generate answer")
    else ret responseContent.

(** A parameter with a default value. *)
Definition or_default (v d : value) : value :=
  match v with VUndefined => d | _ => v end.

Fixpoint aiTask (fuel : nat)
  (configOrRole task inputs outputs outputFormat localOnly : value) : M value :=
  match fuel with
  | O => pending
  | S fuel =>
      let outputFormat := or_default outputFormat (VStr "json_object") in
      let localOnly := or_default localOnly (VBool false) in
      let '(modelInput, remainingModels) :=
        normalize configOrRole task inputs outputs outputFormat in
      let hash := hashQuery (VObj modelInput) in
      cachedResponse <- cache_get hash ;;
      if truthy cachedResponse then ret cachedResponse
      else
        try_catch
          (responseContent <- route fuel localOnly modelInput ;;
           cache_set hash responseContent ;;
           ret responseContent)
          (fun error =>
             match remainingModels with
             | Some models =>
                 aiTask fuel (VObj (set_field "model" (VArr models) modelInput))
                   VUndefined VUndefined VUndefined VUndefined VUndefined
             | None => ret VNull
             end)
  end.

(** The exported wrappers. *)
Definition aiTaskJSONLocal (fuel : nat) (role task inputs outputs : value) : M value :=
  aiTask fuel role task inputs outputs (VStr "json_object") (VBool true).

Definition aiTaskJSON (fuel : nat) (configOrRole task inputs outputs localOnly : value)
  : M value :=
  aiTask fuel configOrRole task inputs
    (VStr ("Output should be a JSON object with the requested structure." ++ newline
           ++ JSON_stringify_2 rt outputs))
    (VStr "json_object") (or_default localOnly (VBool false)).

Definition aiTaskText (fuel : nat) (role task inputs outputs : value) : M value :=
  aiTask fuel role task inputs outputs (VStr "text") VUndefined.

End Adapters.

(** *** Statements about computations

    [sat R Q m]: from any world, [m] ends in a world related to it by [R],
    with an outcome that satisfies [Q].  [R] is a preorder on worlds: the
    cursor is unchanged, the cache is unchanged, the history grew by events
    of some kind. *)
Definition sat {A} (R : relation world) (Q : outcome A -> Prop) (m : M A) : Prop :=
  forall w, R w (snd (m w)) /\ Q (fst (m w)).

Definition any {A} : outcome A -> Prop := fun _ => True.

Definition same_cursor : relation world :=
  fun w w' => lastRateLimitedGeminiModelIndex w' = lastRateLimitedGeminiModelIndex w.
Definition same_cache : relation world := fun w w' => cache w' = cache w.
Definition grows (P : event -> Prop) : relation world :=
  fun w w' => exists new, (trace w' = trace w ++ new)%list /\ Forall P new.

(** A relation that every logged event respects, and one that every cache
    write respects. *)
Definition logs (R : relation world) (P : event -> Prop) : Prop :=
  forall ev w, P ev -> R w (log ev w).

Definition stores (R : relation world) : Prop := forall k v w, R w (store k v w).

(** An error value that has properties: anything but [null] and [undefined];
    and one of a rate-limited request. *)
Definition has_status (e : value) : Prop := exists s, get_prop e "status" = Normal s.

Definition rate_limited (e : value) : Prop := get_prop e "status" = Normal (VNum 429).

Definition throws_only {A} (P : value -> Prop) : outcome A -> Prop :=
  fun r => forall e, r = Throws e -> P e.

(** From [w], [m] begins with the exchange [c]: whatever follows, the history
    it leaves is the one it found, then that exchange, then more. *)
Definition begins {A} (backend : list event -> call -> completion value)
  (w : world) (c : call) (m : M A) : Prop :=
  grows (fun _ => True) (log (Exchange c (backend (trace w) c)) w) (snd (m w)).

(** An [inputs] the message builder does not write to: no [images], no
    array of raw [messages]. *)
Definition no_attachments (inputs : value) : bool :=
  negb (truthy (field inputs "images")) && negb (isArray (field inputs "messages")).

(** The shape of a request object: the five members [aiTask] starts from, in
    their order, then whatever the configuration added, no key twice. *)
Definition request_shaped (modelInput : list (string * value)) : Prop :=
  NoDup (map fst modelInput) /\
  exists r t i o f rest,
    modelInput =
    ([("role", r); ("task", t); ("inputs", i); ("outputs", o); ("outputFormat", f)] ++ rest)%list.

End Dispatch.

(** ** The message builder ([utils/LLMAPI/messages.js])

    [createOllamaMessages] writes to objects its caller holds, so the
    caller's objects live in a store and are known by reference.  A value is a
    reference, or data that cannot be written to: a primitive, or a frozen
    object or array (a write to one throws in module code).  What the
    function builds and hands back is a term over such values: nobody else
    holds it.  The array [images = []] that it creates is such a term too,
    until it is assigned to a member of a caller's object; it is given a
    place in the store then. *)
Module Builder.
Import Schema Dispatch.

Inductive hval : Type :=
| Prim (v : value)
| Ref (l : nat).

Inductive object : Type :=
| Obj (fields : list (string * hval))
| Arr (items : list hval) (named : list (string * hval)).

Abbreviation store := (gmap nat object).

(** A value the function builds. *)
Inductive built : Type :=
| Old (v : hval)
| NewObj (fields : list (string * built))
| NewArr (items : list built).

Record result : Type := Result {
  messages : list built;
  returnWholeMessage : bool;
  isSchemaType : bool;
  schema : hval;
}.

Definition B (A : Type) : Type := store -> completion A * store.

Definition bret {A} (a : A) : B A := fun h => (Normal a, h).
Definition bthrow {A} (e : value) : B A := fun h => (Throw e, h).
Definition bbind {A C} (m : B A) (k : A -> B C) : B C :=
  fun h =>
    match m h with
    | (Normal a, h') => k a h'
    | (Throw e, h') => (Throw e, h')
    end.
Definition blift {A} (c : completion A) : B A := fun h => (c, h).

Declare Scope B_scope.
Delimit Scope B_scope with B.
Bind Scope B_scope with B.
Notation "x <- m ;; k" := (bbind m (fun x => k))
  (at level 100, m at next level, right associativity) : B_scope.
Notation "m ;; k" := (bbind m (fun _ => k))
  (at level 100, right associativity) : B_scope.
Local Open Scope B_scope.

Fixpoint lookup_field (k : string) (fs : list (string * hval)) : option hval :=
  match fs with
  | [] => None
  | (k', v) :: r => if String.eqb k' k then Some v else lookup_field k r
  end.

Fixpoint update_field (k : string) (v : hval) (fs : list (string * hval))
  : list (string * hval) :=
  match fs with
  | [] => [(k, v)]
  | (k', v') :: r =>
      if String.eqb k' k then (k, v) :: r else (k', v') :: update_field k v r
  end.

Fixpoint remove_field (k : string) (fs : list (string * hval))
  : list (string * hval) :=
  match fs with
  | [] => []
  | (k', v) :: r =>
      if String.eqb k' k then remove_field k r else (k', v) :: remove_field k r
  end.

Definition truthy_h (v : hval) : bool :=
  match v with
  | Prim v => truthy v
  | Ref _ => true
  end.

Definition is_array (h : store) (v : hval) : bool :=
  match v with
  | Prim v => isArray v
  | Ref l => match h !! l with Some (Arr _ _) => true | _ => false end
  end.

(** [v.k]. *)
Definition read_prop (v : hval) (k : string) : B hval :=
  fun h =>
    match v with
    | Prim v => (cmap Prim (get_prop v k), h)
    | Ref l =>
        match h !! l with
        | Some (Obj fs) => (Normal (default (Prim VUndefined) (lookup_field k fs)), h)
        | Some (Arr items named) =>
            if String.eqb k "length"
            then (Normal (Prim (VNum (Z.of_nat (length items)))), h)
            else (Normal (default (Prim VUndefined) (lookup_field k named)), h)
        | None => (Normal (Prim VUndefined), h)
        end
    end.

(** [v[i]]. *)
Definition read_index (v : hval) (i : nat) : B hval :=
  fun h =>
    match v with
    | Prim (VStr s) =>
        (Normal (Prim (match String.get i s with
                       | Some a => VStr (String a EmptyString)
                       | None => VUndefined
                       end)), h)
    | Prim (VObj fs) => (Normal (Prim (default VUndefined (assoc (pretty i) fs))), h)
    | Prim v => (cmap Prim (get_index v i), h)
    | Ref l =>
        match h !! l with
        | Some (Obj fs) => (Normal (default (Prim VUndefined) (lookup_field (pretty i) fs)), h)
        | Some (Arr items _) => (Normal (default (Prim VUndefined) (items !! i)), h)
        | None => (Normal (Prim VUndefined), h)
        end
    end.

(** [v[i] = x], for [i] no greater than the length of an array. *)
Definition write_index (v : hval) (i : nat) (x : hval) : B unit :=
  fun h =>
    match v with
    | Prim _ => (Throw TypeError, h)
    | Ref l =>
        match h !! l with
        | Some (Obj fs) => (Normal tt, <[l := Obj (update_field (pretty i) x fs)]> h)
        | Some (Arr items named) =>
            (Normal tt,
             <[l := Arr (if decide (i < length items)%nat
                         then <[i := x]> items else items ++ [x]) named]> h)
        | None => (Normal tt, h)
        end
    end.

(** [v.k = x]. *)
Definition write_prop (v : hval) (k : string) (x : hval) : B unit :=
  fun h =>
    match v with
    | Prim _ => (Throw TypeError, h)
    | Ref l =>
        match h !! l with
        | Some (Obj fs) => (Normal tt, <[l := Obj (update_field k x fs)]> h)
        | Some (Arr items named) => (Normal tt, <[l := Arr items (update_field k x named)]> h)
        | None => (Normal tt, h)
        end
    end.

(** [delete v.k]. *)
Definition delete_prop (v : hval) (k : string) : B unit :=
  fun h =>
    match v with
    | Prim VUndefined | Prim VNull => (Throw TypeError, h)
    | Prim (VObj fs) =>
        (match assoc k fs with Some _ => Throw TypeError | None => Normal tt end, h)
    | Prim _ => (Normal tt, h)
    | Ref l =>
        match h !! l with
        | Some (Obj fs) => (Normal tt, <[l := Obj (remove_field k fs)]> h)
        | Some (Arr items named) => (Normal tt, <[l := Arr items (remove_field k named)]> h)
        | None => (Normal tt, h)
        end
    end.

(** A place in the store for a new, empty array. *)
Definition new_array : B hval :=
  fun h => let l := fresh (dom h) in (Normal (Ref l), <[l := Arr [] []]> h).

(** The value a reference stands for, as [JSON.stringify] and the schema
    compiler read it; [None] when the depth runs out, which with a depth
    above the number of objects means a cycle. *)
Fixpoint snapshot (depth : nat) (h : store) (v : hval) : option value :=
  match v with
  | Prim v => Some v
  | Ref l =>
      match depth with
      | O => None
      | S depth =>
          match h !! l with
          | Some (Obj fs) =>
              VObj <$> mapM (fun kv : string * hval =>
                               pair (fst kv) <$> snapshot depth h (snd kv)) fs
          | Some (Arr items _) => VArr <$> mapM (snapshot depth h) items
          | None => Some VUndefined
          end
      end
  end.

(** A caller's value read as data; a cyclic one makes [JSON.stringify] throw. *)
Definition read_value (v : hval) : B value :=
  fun h =>
    match snapshot (S (size h)) h v with
    | Some x => (Normal x, h)
    | None => (Throw TypeError, h)
    end.

(** The variable [images]: the new array [[]] it starts as, or the caller's
    [inputs.images]. *)
Inductive image_list : Type :=
| NoImages
| Listed (images : hval).

Definition built_images (images : image_list) : built :=
  match images with
  | NoImages => NewArr []
  | Listed v => Old v
  end.

Section MessageBuilder.
Context (rt : Runtime).
(** [sharp(image).rotate().resize(..).toBuffer()] in base64; the flag says
    whether the image is resized to fit 1344 x 1344. *)
Context (sharp : value -> bool -> completion string).

(** [base64Image] of [aiTask.js]. *)
Definition base64Image (image : value) (doResize : bool) : completion string :=
  sharp image doResize.

(** The items of an array, for [for .. of] and [map]. *)
Definition items_of (v : hval) : B (list hval) :=
  fun h =>
    match v with
    | Prim (VArr l) => (Normal (map Prim l), h)
    | Ref l =>
        match h !! l with
        | Some (Arr items _) => (Normal items, h)
        | _ => (Throw TypeError, h)
        end
    | _ => (Throw TypeError, h)
    end.

Fixpoint each {A C} (f : A -> B C) (l : list A) : B (list C) :=
  match l with
  | [] => bret []
  | x :: r => y <- f x ;; ys <- each f r ;; bret (y :: ys)
  end.

Definition str (s : string) : built := Old (Prim (VStr s)).

Definition openAIImageMessageBuilder (text : string) (images : image_list) : B built :=
  items <- match images with
           | NoImages => bret []
           | Listed v => items_of v
           end ;;
  urls <- each (fun base64Image : hval =>
                  b <- read_value base64Image ;;
                  bret (NewObj
                          [("type", str "image_url");
                           ("image_url",
                            NewObj [("url", str ("data:image/jpeg;base64," ++ to_string rt b))])]))
               items ;;
  bret (NewObj
          [("role", str "user");
           ("content", NewArr (NewObj [("type", str "text"); ("text", str text)] :: urls))]).

(** [ollamaImageMessageBuilder] of [ollama.js]. *)
Definition ollamaImageMessageBuilder (text : string) (images : image_list) : B built :=
  bret (NewObj [("role", str "user"); ("content", str text);
                ("images", built_images images)]).

Definition truthy_built (b : built) : bool :=
  match b with
  | Old v => truthy_h v
  | _ => true
  end.

Fixpoint set_built (k : string) (x : built) (fs : list (string * built))
  : list (string * built) :=
  match fs with
  | [] => [(k, x)]
  | (k', x') :: r =>
      if String.eqb k' k then (k, x) :: r else (k', x') :: set_built k x r
  end.

(** The number [v] stands for in [v > 0] and [i < v]. *)
Definition number_of (v : hval) : B value :=
  match v with
  | Prim v => bret (to_number rt v)
  | Ref _ => x <- read_value v ;; bret (ToNumber rt x)
  end.

(** How many entries the loop over [inputs.images] visits: none when
    [inputs.images] is falsy, else the [i] below [inputs.images.length]. *)
Definition image_count (inputs : hval) : B nat :=
  listed <- read_prop inputs "images" ;;
  if truthy_h listed then
    len <- read_prop listed "length" ;;
    len <- number_of len ;;
    bret (count_below len)
  else bret 0%nat.

(** [inputs.images[i] = await base64Image(inputs.images[i])]. *)
Definition encode_image (inputs : hval) (i : nat) : B unit :=
  target <- read_prop inputs "images" ;;
  source <- read_prop inputs "images" ;;
  image <- read_index source i ;;
  image <- read_value image ;;
  encoded <- blift (base64Image image true) ;;
  write_index target i (Prim (VStr encoded)).

(** [messages.slice(-1)[0].images = images]. *)
Definition attach_images (messages : list built) (images : image_list)
  : B (list built) :=
  match rev messages with
  | [] => bret messages
  | NewObj fs :: before =>
      bret (rev before ++ [NewObj (set_built "images" (built_images images) fs)])%list
  | NewArr items :: before => bret messages
  | Old v :: before =>
      images <- match images with
                | NoImages => new_array
                | Listed images => bret images
                end ;;
      write_prop v "images" images ;;
      bret messages
  end.

Definition createOllamaMessages
  (role task inputs outputs outputFormat : hval) (USE_JSON_SCHEMA : bool)
  (imageMessageBuilder : string -> image_list -> B built) : B result :=
  let images := NoImages in
  count <- image_count inputs ;;
  images <-
    (if negb (Nat.eqb count 0) then
       each (encode_image inputs) (seq 0 count) ;;
       listed <- read_prop inputs "images" ;;
       delete_prop inputs "images" ;;
       bret (Listed listed)
     else bret images) ;;
  schematic <-
    (if USE_JSON_SCHEMA then
       type <- read_prop outputs "type" ;;
       bret (truthy_h type &&
             match type with
             | Prim t => is_str t "array" || is_str t "object"
             | Ref _ => false
             end)
     else bret false) ;;
  let isSchemaType := schematic in
  let schema := if isSchemaType then outputs else Prim VNull in
  let is_json := match outputFormat with Prim f => is_str f "json_object" | Ref _ => false end in
  let is_text := match outputFormat with Prim f => is_str f "text" | Ref _ => false end in
  let USE_JSON_SCHEMA := USE_JSON_SCHEMA && is_json in
  let USE_JSON_AS_OUTPUT := negb is_text in
  described <-
    (match outputs with
     | Prim VNull => bret (VStr "", VStr "")
     | _ =>
         o <- read_value outputs ;;
         let jsonOutputs := stringify_2 rt o in
         blift (createJSONSchema rt (Descriptor o)) ;;
         match o with
         | VUndefined => bthrow TypeError
         | _ =>
             let jsonOutputsAsList :=
               "JSON " ++
               String.concat newline
                 (map (fun kv : string * value =>
                         fst kv ++ ": " ++ to_string rt (stringify_2 rt (snd kv)))
                      (entries o)) in
             bret (jsonOutputs, VStr jsonOutputsAsList)
         end
     end) ;;
  let '(jsonOutputs, jsonOutputsAsList) := described in
  t <- read_value task ;;
  i <- read_value inputs ;;
  let prompt :=
    buildPrompt rt t i
      (if USE_JSON_SCHEMA || negb USE_JSON_AS_OUTPUT then jsonOutputsAsList else jsonOutputs)
      USE_JSON_AS_OUTPUT in
  let messages :=
    if truthy_h role then [NewObj [("role", str "system"); ("content", Old role)]] else [] in
  raw <- read_prop inputs "messages" ;;
  h <- (fun h => (Normal h, h)) ;;
  done <-
    (if is_array h raw then
       entries <- items_of raw ;;
       let messages :=
         (messages ++
          map (fun message =>
                 match message with
                 | Prim (VStr _) => NewObj [("role", str "user"); ("content", Old message)]
                 | _ => Old message
                 end) entries)%list in
       messages <- attach_images messages images ;;
       bret (messages, true)
     else
       message <- imageMessageBuilder prompt images ;;
       bret ((messages ++ [message])%list, false)) ;;
  let '(messages, returnWholeMessage) := done in
  let messages := filter (fun m => truthy_built m = true) messages in
  bret (Result messages returnWholeMessage isSchemaType schema).

(** Names for the statements: whether the call has images to encode, and
    whether it is given a raw message list. *)
Definition lists_images (inputs : hval) (h : store) : bool :=
  match fst (image_count inputs h) with
  | Normal (S _) => true
  | _ => false
  end.

Definition lists_messages (inputs : hval) (h : store) : bool :=
  match fst (read_prop inputs "messages" h) with
  | Normal raw => is_array h raw
  | Throw _ => false
  end.

End MessageBuilder.

(** A computation that leaves the store as it is. *)
Definition reads {A} (m : B A) : Prop := forall h, snd (m h) = h.

End Builder.

(** ** Names for further statements about the adapters *)
Module Notions.
Import Dispatch.
Local Open Scope M_scope.

(** A computation that neither changes the world nor waits. *)
Definition quiet {A} (m : M A) : Prop :=
  forall w, snd (m w) = w /\ fst (m w) <> Pending.

(** The content of a chat completion. *)
Definition content_of (response : value) : completion value :=
  match get_prop response "choices" with
  | Throw e => Throw e
  | Normal choices =>
      match get_index choices 0 with
      | Throw e => Throw e
      | Normal choice =>
          match get_prop choice "message" with
          | Throw e => Throw e
          | Normal message => get_prop message "content"
          end
      end
  end.

(** The arguments [callGeminiModel] calls itself with, and the counter of
    overload errors after one more. *)
Definition retry_arguments (arg : list (string * value)) (task OverloadErrorRetry : value)
  : list (string * value) :=
  [("role", field (VObj arg) "role"); ("task", task);
   ("inputs", field (VObj arg) "inputs"); ("outputs", field (VObj arg) "outputs");
   ("outputFormat", param (VObj arg) "outputFormat" (VStr "json_object"));
   ("temperature", param (VObj arg) "temperature" (VFrac 7 10));
   ("model", model_of arg);
   ("JSONErrorRetry", param (VObj arg) "JSONErrorRetry" (VBool false));
   ("OverloadErrorRetry", OverloadErrorRetry);
   ("includeMetadata", param (VObj arg) "includeMetadata" (VBool false))].

Definition next_overload (arg : list (string * value)) : value :=
  let OverloadErrorRetry := param (VObj arg) "OverloadErrorRetry" (VBool false) in
  if truthy OverloadErrorRetry then increment OverloadErrorRetry else VNum 1.

Definition overloaded (error : value) : Prop :=
  get_prop error "status" = Normal (VNum 499) \/ get_prop error "status" = Normal (VNum 503).

(** The events of a kind: a request to one of some models, and anything but
    a request to Ollama. *)
Definition asks_one_of (models : list value) (ev : event) : Prop :=
  match ev with
  | Exchange (Generate m _ _ _) _ => In m models
  | Exchange _ _ => False
  | Sleep _ => True
  end.

Definition not_ollama (ev : event) : Prop :=
  match ev with
  | Exchange (OllamaChat _) _ => False
  | _ => True
  end.

Section Replies.
Context (rt : Runtime).

(** What [callGeminiModel] makes of a reply. *)
Definition read_reply (arg : list (string * value)) (reply : value) : completion value :=
  match get_prop reply "text" with
  | Throw e => Throw e
  | Normal responseContent =>
      match get_prop reply "usageMetadata" with
      | Throw e => Throw e
      | Normal usageMetadata =>
          let isJSON :=
            is_str (param (VObj arg) "outputFormat" (VStr "json_object")) "json_object" in
          match
            (if isJSON then
               match JSON_parse rt (to_string rt responseContent) with
               | Some v => Normal v
               | None => Throw SyntaxError
               end
             else Normal responseContent)
          with
          | Throw e => Throw e
          | Normal output =>
              if truthy (param (VObj arg) "includeMetadata" (VBool false)) && isJSON
              then set_prop output "usageMetadata" usageMetadata
              else Normal output
          end
      end
  end.

End Replies.

End Notions.

(** ** Names for further statements about the schema compiler *)
Module SchemaNotions.
Import Schema.

(** The size of a value, for induction on descriptors. *)
Fixpoint vsize (v : value) : nat :=
  match v with
  | VArr l => S (list_sum (map vsize l))
  | VObj fs => S (list_sum (map (fun kv : string * value => vsize (snd kv)) fs))
  | _ => 1
  end.

(** The keys of the members that must be present. *)
Definition required_keys (zs : list (string * zod)) : list value :=
  omap (fun kz : string * zod => if optin (snd kz) then None else Some (VStr (fst kz))) zs.

(** The type keywords and their schemas. *)
Definition keyword_schemas : list (string * zod) :=
  [("Number", ZNumber); ("Boolean", ZBoolean); ("Naming", ZString (Some 80));
   ("Paragraph", ZString None); ("String", ZString None)].

Section Records.
Context (rt : Runtime).

(** The record case of [convertToZod] ([handleRecordConversion]) once more,
    as a function of its own. *)
Fixpoint record_sample (fs : list (string * value)) : completion zod :=
  match fs with
  | [] => Normal (ZRecord (ZString None) ZAny)
  | (key, v) :: r =>
      if String.eqb key "__is_record" then record_sample r
      else
        match parseStringDescription rt key with
        | Throw e => Throw e
        | Normal zk =>
            match convertToZod rt v with
            | Throw e => Throw e
            | Normal zv => Normal (ZRecord zk zv)
            end
        end
  end.

End Records.

End SchemaNotions.

(** ** Names for further statements about the message builder *)
Module BuilderNotions.
Import Dispatch Builder.

(** An encoded image, as the builder stores it. *)
Definition stored (encoded : string) : hval := Prim (VStr encoded).

Section Parts.
Context (rt : Runtime).

(** The part of an OpenAI message for an encoded image. *)
Definition image_part (base64Image : value) : built :=
  NewObj [("type", str "image_url");
          ("image_url",
           NewObj [("url", str ("data:image/jpeg;base64," ++ to_string rt base64Image))])].

End Parts.

(** The messages of a raw list of texts: the user message of a text, the
    last one of the list, and the system message of a role. *)
Definition user_message (text : string) : built :=
  NewObj [("role", str "user"); ("content", Old (Prim (VStr text)))].

Definition last_user_message (text : string) : built :=
  NewObj [("role", str "user"); ("content", Old (Prim (VStr text))); ("images", NewArr [])].

Definition system_message (role : hval) : list built :=
  if truthy_h role then [NewObj [("role", str "system"); ("content", Old role)]] else [].

End BuilderNotions.

(** ** The data compressor ([utils/dataCompressor.js])

    [dataCompressor], [collapseArrayToObject] and [omitAttributes] on the
    values of [JS].  An object is the list of its own properties in the order
    the runtime enumerates them: the array indices in ascending order, then
    the other keys in the order of their creation; the functions below that
    create a property keep that order.

    The values have no prototype chain and no holes.  Where the code would
    reach a property that an object does not own but inherits (the
    [inherited] names, such as [__proto__] or [toString]), or would leave a
    hole in an array, the computation ends as [Beyond]: the development says
    nothing about such a run.  Recursion counts down a fuel; [Unfinished] is a
    run that needs more of it. *)
Module Compressor.
Import JS.

Inductive answer (A : Type) : Type :=
| Value (a : A)
| Raised (e : value)
| Beyond
| Unfinished.
Arguments Value {A} a.
Arguments Raised {A} e.
Arguments Beyond {A}.
Arguments Unfinished {A}.

Definition abind {A C} (m : answer A) (k : A -> answer C) : answer C :=
  match m with
  | Value a => k a
  | Raised e => Raised e
  | Beyond => Beyond
  | Unfinished => Unfinished
  end.

Declare Scope answer_scope.
Delimit Scope answer_scope with answer.
Bind Scope answer_scope with answer.
Notation "x <- m ;; k" := (abind m (fun x => k))
  (at level 100, m at next level, right associativity) : answer_scope.
Local Open Scope answer_scope.
Local Open Scope list_scope.

(** [l.map(f)] and [for (const x of l) acc = f(acc, x)], in order. *)
Fixpoint each {A C} (f : A -> answer C) (l : list A) : answer (list C) :=
  match l with
  | [] => Value []
  | x :: r => y <- f x ;; ys <- each f r ;; Value (y :: ys)
  end.

Fixpoint walk {A S} (f : S -> A -> answer S) (l : list A) (s : S) : answer S :=
  match l with
  | [] => Value s
  | x :: r => s <- f s x ;; walk f r s
  end.

(** [l.every(p)]: it stops at the first item that fails. *)
Fixpoint every {A} (p : A -> answer bool) (l : list A) : answer bool :=
  match l with
  | [] => Value true
  | x :: r => b <- p x ;; if b then every p r else Value false
  end.

(** [typeof v === 'object' && v !== null]. *)
Definition is_object (v : value) : bool :=
  String.eqb (typeof v) "object" && negb (is_null v).

(** *** The order of own properties *)

(** The array index a key stands for: a canonical decimal numeral below
    [2^32 - 1]. *)
Definition index_of (k : string) : option Z :=
  match k with
  | EmptyString => None
  | String a r =>
      if forallb is_digit (list_ascii_of_string k)
         && (negb (Ascii.eqb a "0") || String.eqb r "")
      then match digits k None with
           | Some n => if n <? 4294967295 then Some n else None
           | None => None
           end
      else None
  end.

(** Whether a new key [k] is enumerated before the key [k'] that exists. *)
Definition comes_before (k k' : string) : bool :=
  match index_of k, index_of k' with
  | Some a, Some b => a <? b
  | Some _, None => true
  | None, _ => false
  end.

Section Properties.
Context {A : Type}.

Fixpoint lookup_own (k : string) (fs : list (string * A)) : option A :=
  match fs with
  | [] => None
  | (k', v) :: r => if String.eqb k' k then Some v else lookup_own k r
  end.

Fixpoint replace_own (k : string) (v : A) (fs : list (string * A)) : list (string * A) :=
  match fs with
  | [] => []
  | (k', v') :: r =>
      if String.eqb k' k then (k, v) :: r else (k', v') :: replace_own k v r
  end.

(** A property with a new key takes its place in the order. *)
Fixpoint insert_new (k : string) (v : A) (fs : list (string * A)) : list (string * A) :=
  match fs with
  | [] => [(k, v)]
  | (k', v') :: r =>
      if comes_before k k' then (k, v) :: fs else (k', v') :: insert_new k v r
  end.

(** The property [k] is created or, where it exists, given the value [v]. *)
Definition define (k : string) (v : A) (fs : list (string * A)) : list (string * A) :=
  match lookup_own k fs with
  | Some _ => replace_own k v fs
  | None => insert_new k v fs
  end.

(** [Object.fromEntries(es)]. *)
Definition fromEntries (es : list (string * A)) : list (string * A) :=
  fold_left (fun fs e => define (fst e) (snd e) fs) es [].

End Properties.

Section Compressor.
Context (rt : Runtime).
(** The names the prototypes of objects and arrays define. *)
Context (inherited : string -> bool).
(** What a function value of the data returns for an argument. *)
Context (call : nat -> value -> completion value).

(** The own property [k] of an object or an array. *)
Definition own (o : value) (k : string) : option value :=
  match o with
  | VObj fs => lookup_own k fs
  | VArr l =>
      if String.eqb k "length" then Some (VNum (Z.of_nat (length l)))
      else match index_of k with
           | Some n => if n <? Z.of_nat (length l) then l !! Z.to_nat n else None
           | None => None
           end
  | _ => None
  end.

(** [o[k]]. *)
Definition get (o : value) (k : string) : answer value :=
  match own o k with
  | Some v => Value v
  | None => if inherited k then Beyond else Value VUndefined
  end.

(** [k in o]. *)
Definition has (o : value) (k : string) : answer bool :=
  match own o k with
  | Some _ => Value true
  | None => if inherited k then Beyond else Value false
  end.

(** [o[k] = v] on a plain object. *)
Definition assign (k : string) (v : value) (fs : list (string * value))
  : answer (list (string * value)) :=
  match lookup_own k fs with
  | Some _ => Value (replace_own k v fs)
  | None => if inherited k then Beyond else Value (insert_new k v fs)
  end.

(** *** collapseArrayToObject *)

Fixpoint collapseArrayToObject (fuel : nat) (data options : value) : answer value :=
  match fuel with
  | O => Unfinished
  | S fuel =>
      match options with
      | VNull => Raised TypeError
      | _ =>
          let options := match options with VUndefined => VObj [] | _ => options end in
          let keyAttr := to_string rt (param options "keyAttr" (VStr "name")) in
          let collapseSingleAttr := param options "collapseSingleAttr" (VBool true) in
          let deep := param options "deep" (VBool true) in
          if negb (isArray data) then
            if truthy deep && is_object data then
              members <- each (fun kv : string * value =>
                                 v <- collapseArrayToObject fuel (snd kv) options ;;
                                 Value (fst kv, v))
                              (entries data) ;;
              Value (VObj (fromEntries members))
            else Value data
          else
            let items := match data with VArr items => items | _ => [] end in
            keyed <- every (fun item =>
                              if is_object item then has item keyAttr else Value false)
                           items ;;
            if negb keyed then Value data
            else
              collapsed <-
                walk (fun collapsed item =>
                        key <- get item keyAttr ;;
                        let rest :=
                          filter (fun kv => negb (String.eqb (fst kv) keyAttr)) (entries item) in
                        assign (to_string rt key) (VObj rest) collapsed)
                     items [] ;;
              let allSingle :=
                forallb (fun v => is_object v && (length (keys v) =? 1)%nat)
                        (map snd collapsed) in
              let collapsed :=
                if truthy collapseSingleAttr && allSingle then
                  map (fun kv : string * value =>
                         (fst kv,
                          match keys (snd kv) with
                          | onlyKey :: _ => field (snd kv) onlyKey
                          | [] => VUndefined
                          end))
                      collapsed
                else collapsed in
              if truthy deep then
                collapsed <- each (fun kv : string * value =>
                                     v <- collapseArrayToObject fuel (snd kv) options ;;
                                     Value (fst kv, v))
                                  collapsed ;;
                Value (VObj collapsed)
              else Value (VObj collapsed)
      end
  end.

(** *** omitAttributes *)

(** [testFunc(x)], for [testFunc = () => true] ([None]) or the second member
    of a pattern; the argument [x] is a property that is looked up. *)
Definition test (testFunc : option value) (x : answer value) : answer bool :=
  match testFunc with
  | None => Value true
  | Some (VFun f) =>
      x <- x ;;
      match call f x with
      | Normal r => Value (truthy r)
      | Throw e => Raised e
      end
  | Some _ => x <- x ;; Raised TypeError
  end.

(** [pattern.split('.')]. *)
Definition parts_of (pattern : value) : answer (list string) :=
  match pattern with
  | VStr s => Value (split "." s)
  | VUndefined | VNull => Raised TypeError
  | _ =>
      match own pattern "split" with
      | Some _ => Beyond
      | None => if inherited "split" then Beyond else Raised TypeError
      end
  end.

(** [delete o[k]] in strict code. *)
Definition delete_own (o : value) (k : string) : answer value :=
  match o with
  | VObj fs => Value (VObj (delete_field k fs))
  | VArr l =>
      if String.eqb k "length" then Raised TypeError
      else match own o k with
           | Some _ => Beyond
           | None => Value o
           end
  | _ => Value o
  end.

(** The member [k] that [o] owns is given the value [v]. *)
Definition put (o : value) (k : string) (v : value) : value :=
  match o with
  | VObj fs => VObj (replace_own k v fs)
  | VArr l =>
      match index_of k with
      | Some n => VArr (<[Z.to_nat n := v]> l)
      | None => o
      end
  | _ => o
  end.

(** The nested path: the loop walks down the objects that the parts but the
    last name, and the last part is deleted in the object it reaches.  The
    result is [current] with that deletion made in place.  (The objects
    below the first are the caller's own, so the source changes the caller's
    data too; the result is this one when the data shares no object.) *)
Fixpoint omit_path (testFunc : option value) (parts : list string) (current : value)
  : answer value :=
  match parts with
  | [] => Value current
  | [last] =>
      t <- test testFunc (get current last) ;;
      if t then delete_own current last else Value current
  | part :: parts =>
      next <- get current part ;;
      if is_object next then
        next <- omit_path testFunc parts next ;;
        Value (put current part next)
      else Value current
  end.

(** The body of the loop over the keys of [newData] for a wildcard pattern;
    [omit] is [omitAttributes] in the calls the body makes. *)
Definition omit_below (omit : value -> value -> answer value)
  (testFunc : option value) (deepKey : string)
  (newData : list (string * value)) (key : string) : answer (list (string * value)) :=
  match lookup_own key newData with
  | None => Value newData
  | Some v =>
      if is_object v then
        v <- omit v (VStr deepKey) ;;
        Value (replace_own key v newData)
      else if String.eqb key deepKey then
        t <- test testFunc (Value v) ;;
        if t then Value (delete_field key newData) else Value newData
      else Value newData
  end.

(** The body of the loop over the patterns. *)
Definition omit_pattern (omit : value -> value -> answer value)
  (newData : list (string * value)) (pattern : value) : answer (list (string * value)) :=
  if negb (truthy pattern)
     || negb (String.eqb (typeof pattern) "string" || isArray pattern)
  then Value newData
  else
    let testFunc :=
      match pattern with
      | VArr l => Some (default VUndefined (l !! 1%nat))
      | _ => None
      end in
    let pattern :=
      match pattern with
      | VArr l => default VUndefined (l !! 0%nat)
      | _ => pattern
      end in
    parts <- parts_of pattern ;;
    let pattern := to_string rt pattern in
    let isWildcard := match parts with p :: _ => String.eqb p "*" | [] => false end in
    if isWildcard then
      let deepKey := String.concat "." (tl parts) in
      walk (omit_below omit testFunc deepKey) (map fst newData) newData
    else if (length parts =? 1)%nat then
      t <- test testFunc (get (VObj newData) pattern) ;;
      if t then Value (delete_field pattern newData) else Value newData
    else
      current <- omit_path testFunc parts (VObj newData) ;;
      Value (entries current).

Fixpoint omitAttributes (fuel : nat) (data omitConfig : value) : answer value :=
  match fuel with
  | O => Unfinished
  | S fuel =>
      if is_null data || negb (String.eqb (typeof data) "object") then Value data
      else
        let omitPatterns := match omitConfig with VArr l => l | _ => [omitConfig] end in
        match data with
        | VArr items =>
            items <- each (fun item => omitAttributes fuel item omitConfig) items ;;
            Value (VArr items)
        | _ =>
            let newData := entries data in
            newData <- walk (omit_pattern (omitAttributes fuel)) omitPatterns newData ;;
            Value (VObj newData)
        end
  end.

(** *** dataCompressor *)

(** [methods.includes('collapseArrayToObject')]. *)
Definition includes_method (methods : value) : answer bool :=
  match methods with
  | VArr l => Value (existsb (fun m => is_str m "collapseArrayToObject") l)
  | VStr s => Value (includes "collapseArrayToObject" s)
  | VUndefined | VNull => Raised TypeError
  | _ =>
      match own methods "includes" with
      | Some _ => Beyond
      | None => if inherited "includes" then Beyond else Raised TypeError
      end
  end.

Definition dataCompressor (fuel : nat) (data options : value) : answer value :=
  match options with
  | VNull => Raised TypeError
  | _ =>
      let options := match options with VUndefined => VObj [] | _ => options end in
      let methods := param options "methods" (VArr [VStr "collapseArrayToObject"]) in
      let collapseOptions := param options "collapseOptions" (VObj []) in
      let omit := field options "omit" in
      let result := data in
      collapsing <- includes_method methods ;;
      result <- (if collapsing then collapseArrayToObject fuel result collapseOptions
                 else Value result) ;;
      if truthy omit then omitAttributes fuel result omit else Value result
  end.

End Compressor.

End Compressor.

(** ** Names for the statements about the data compressor *)
Module CompressorNotions.
Import JS Compressor.
Local Open Scope answer_scope.
Local Open Scope list_scope.

Section Options.
Context (rt : Runtime) (inherited : string -> bool).

(** The options of [collapseArrayToObject] with their defaults. *)
Definition defaulted (options : value) : value :=
  match options with VUndefined => VObj [] | _ => options end.

Definition key_attribute (options : value) : string :=
  to_string rt (param (defaulted options) "keyAttr" (VStr "name")).

Definition collapses_single (options : value) : bool :=
  truthy (param (defaulted options) "collapseSingleAttr" (VBool true)).

Definition is_deep (options : value) : bool :=
  truthy (param (defaulted options) "deep" (VBool true)).

(** The members of an item other than its key. *)
Definition rest_of (k : string) (item : value) : list (string * value) :=
  filter (fun kv => negb (String.eqb (fst kv) k)) (entries item).

(** An item that is an object with the member [k]; and one whose member [k]
    stands for [name]. *)
Definition keyed (k : string) (item : value) : Prop :=
  is_object item = true /\ exists key, own item k = Some key.

Definition named (k : string) (item : value) (name : string) : Prop :=
  is_object item = true /\ exists key, own item k = Some key /\ to_string rt key = name.

(** What becomes of the rest of an item: itself, or its only member. *)
Definition member_of (single : bool) (rest : list (string * value)) : value :=
  if single then match rest with (_, v) :: _ => v | [] => VUndefined end
  else VObj rest.

(** The loop that fills [collapsed], and the two loops after it. *)
Definition gather_item (k : string) (collapsed : list (string * value)) (item : value)
  : answer (list (string * value)) :=
  key <- get inherited item k ;;
  assign inherited (to_string rt key) (VObj (rest_of k item)) collapsed.

Definition all_single (collapsed : list (string * value)) : bool :=
  forallb (fun v => is_object v && (length (keys v) =? 1)%nat) (map snd collapsed).

Definition only_members (collapsed : list (string * value)) : list (string * value) :=
  map (fun kv : string * value =>
         (fst kv,
          match keys (snd kv) with
          | onlyKey :: _ => field (snd kv) onlyKey
          | [] => VUndefined
          end))
      collapsed.

Definition finish (fuel : nat) (options : value) (collapsed : list (string * value))
  : answer value :=
  let collapsed :=
    if collapses_single options && all_single collapsed then only_members collapsed
    else collapsed in
  if is_deep options then
    collapsed <- each (fun kv : string * value =>
                         v <- collapseArrayToObject rt inherited fuel (snd kv) options ;;
                         Value (fst kv, v))
                      collapsed ;;
    Value (VObj collapsed)
  else Value (VObj collapsed).

(** The keys of an object after a new key was added. *)
Fixpoint insert_key (k : string) (l : list string) : list string :=
  match l with
  | [] => [k]
  | k' :: r => if comes_before k k' then k :: l else k' :: insert_key k r
  end.

(** The keys of an object in the order of enumeration: each key was new when
    it was added, and no key before it is enumerated after it. *)
Inductive ordered : list string -> Prop :=
| ordered_nil : ordered []
| ordered_snoc l k :
    ordered l -> ~ In k l -> Forall (fun e => comes_before k e = false) l ->
    ordered (l ++ [k]).

(** The depth of a value. *)
Fixpoint height (v : value) : nat :=
  match v with
  | VArr l => S (fold_right (fun x h => Nat.max (height x) h) 0%nat l)
  | VObj fs => S (fold_right (fun kv h => Nat.max (height (snd kv)) h) 0%nat fs)
  | _ => 0%nat
  end.

End Options.

(** A run that comes to an end without an exception: it returns, or it leaves
    what the values cover. *)
Definition settled {A} (m : answer A) : Prop := m = Beyond \/ exists a, m = Value a.

(** A pattern that names one key of the object itself; the data without
    such keys; and the wildcard pattern for a key, with a test function or
    without. *)
Definition plain_key (p : string) : bool :=
  negb (String.eqb p "") && negb (String.eqb p "*") && negb (includes "." p).

Fixpoint without (ps : list string) (data : value) : value :=
  match data with
  | VArr items => VArr (map (without ps) items)
  | VObj fs => VObj (fold_left (fun fs p => delete_field p fs) ps fs)
  | _ => data
  end.

Definition wildcard (k : string) (testFunc : option value) : value :=
  match testFunc with
  | None => VStr ("*." ++ k)
  | Some f => VArr [VArr [VStr ("*." ++ k); f]]
  end.

End CompressorNotions.

(** ** Sample runtimes, backends and requests

    Concrete values for the examples of Part II. *)
Module Sample.
Import Dispatch Builder.

Definition quote : string := String (ascii_of_nat 34) EmptyString.

(** A serializer in the manner of [JSON.stringify]. *)
Fixpoint stringify (v : value) : string :=
  match v with
  | VUndefined | VFun _ => "null"
  | VNull | VNaN => "null"
  | VBool true => "true"
  | VBool false => "false"
  | VNum n => pretty n
  | VFrac n d => pretty n ++ "/" ++ pretty (Z.pos d)
  | VStr s => quote ++ s ++ quote
  | VArr l => "[" ++ String.concat "," (map stringify l) ++ "]"
  | VObj fs =>
      "{" ++ String.concat ","
               (map (fun kv : string * value =>
                       quote ++ fst kv ++ quote ++ ":" ++ stringify (snd kv)) fs)
          ++ "}"
  end.

(** A runtime whose [JSON.parse] reads three texts, and whose digest is the
    text itself. *)
Definition runtime : Runtime := {|
  JSON_parse := fun s =>
    if String.eqb s "{}" then Some (VObj [])
    else if String.eqb s "3" then Some (VNum 3)
    else if String.eqb s "[1]" then Some (VArr [VNum 1])
    else None;
  JSON_stringify := stringify;
  JSON_stringify_2 := stringify;
  sha256_hex := fun s => s;
  ToString := fun v =>
    match v with
    | VNull => "null"
    | VUndefined => "undefined"
    | VNum n => pretty n
    | VBool true => "true"
    | VBool false => "false"
    | _ => "[object Object]"
    end;
  ToNumber := fun _ => VNaN;
|}.

(** The error of a rate-limited Gemini request, with its retry hint. *)
Definition rate_limit_error (retryDelay : string) : value :=
  VObj [("status", VNum 429);
        ("errorDetails",
         VArr [VObj [("@type", VStr RetryInfo); ("retryDelay", VStr retryDelay)]])].

(** The reply of [generateContent] with a text. *)
Definition generated (text : string) : value :=
  VObj [("text", VStr text); ("usageMetadata", VUndefined)].

(** The response of a chat completion with a content. *)
Definition completed (content : string) : value :=
  VObj [("choices", VArr [VObj [("message", VObj [("content", VStr content)])]])].

(** The model a request is for. *)
Definition asked (c : call) : value :=
  match c with
  | Generate model _ _ _ => model
  | Chat _ request => field (VObj request) "model"
  | OllamaChat request => field (VObj request) "model"
  | Apply _ _ => VUndefined
  end.

(** The models asked, in order, and the sleeps, in a history. *)
Definition models_asked (history : list event) : list value :=
  omap (fun ev => match ev with Exchange c _ => Some (asked c) | Sleep _ => None end) history.

Definition sleeps (history : list event) : list value :=
  omap (fun ev => match ev with Sleep ms => Some ms | Exchange _ _ => None end) history.

(** Backends: every request rate-limited; every request answered by a text;
    the first two requests rate-limited and the third answered; model ["A"]
    always rate-limited and every other answered; models ["x/A"] and ["x/B"]
    rejected and every other completed. *)
Definition always_limited : list event -> call -> completion value :=
  fun _ _ => Throw (rate_limit_error "5s").

Definition always_text (text : string) : list event -> call -> completion value :=
  fun _ _ => Normal (generated text).

Definition limited_twice : list event -> call -> completion value :=
  fun history _ =>
    if (length (models_asked history) <? 2)%nat
    then Throw (rate_limit_error "5s")
    else Normal (generated "{}").

Definition limited_on_A : list event -> call -> completion value :=
  fun _ c =>
    if is_str (asked c) "A" then Throw (rate_limit_error "5s") else Normal (generated "{}").

Definition only_C_completes : list event -> call -> completion value :=
  fun _ c =>
    if is_str (asked c) "x/C" then Normal (completed "{}")
    else Throw (rate_limit_error "5s").

Definition empty_world : world := World ∅ 0 [].

(** Requests: a bare task; the task for model ["A"]; for the array of
    ["A"], ["B"], ["C"]; for an array of namespaced names. *)
Definition bare : list (string * value) :=
  [("task", VStr "sum"); ("inputs", VObj [("a", VNum 1); ("b", VNum 2)]);
   ("outputs", VObj [("result", VStr "Number | sum")])].

Definition for_model (model : value) : value := VObj (bare ++ [("model", model)]).

Definition call_with (backend : list event -> call -> completion value)
  (fuel : nat) (config localOnly : value) (w : world) : outcome value * world :=
  aiTask runtime backend fuel config VUndefined VUndefined VUndefined VUndefined localOnly w.

(** The image encoder of the examples. *)
Definition encoder : value -> bool -> completion string :=
  fun image _ => Normal ("base64:" ++ to_string runtime image).

(** *** Requests and worlds of the examples *)

(** An object descriptor with an optional member. *)
Definition user : list (string * value) :=
  [("firstName", VStr "String | User first name");
   ("lastName", VStr "String optional | User last name")].

(** The fingerprint of the bare task, and a world whose cache holds a
    response under it. *)
Definition sum_key : string :=
  hashQuery runtime
    (VObj (fst (normalize (VObj bare) VUndefined VUndefined VUndefined (VStr "json_object")))).

Definition primed : world := World {[ sum_key := VObj [("result", VNum 3)] ]} 0 [].

(** The bare task, for a text. *)
Definition as_text : value := VObj (bare ++ [("outputFormat", VStr "text")]).

(** The bare task for a namespaced model, with a provider named. *)
Definition namespaced : value :=
  VObj (bare ++ [("model", VStr "meta/llama"); ("provider", VStr "openai")]).

(** The arguments of [callGemini] for the model ["A"]. *)
Definition on_A : list (string * value) := bare ++ [("model", VStr "A")].

(** Two queues of three names, and the request [aiTask] makes of the second
    one for its first name. *)
Definition namespaced_queue : value :=
  for_model (VArr [VStr "x/A"; VStr "x/B"; VStr "x/C"]).

Definition queue : value := for_model (VArr [VStr "A"; VStr "B"; VStr "C"]).

Definition first_of_queue : list (string * value) :=
  fst (normalize queue VUndefined VUndefined VUndefined (VStr "json_object")).

(** A backend that rejects the first model of the priority list and answers
    the others; and a second task. *)
Definition limited_on_first : list event -> call -> completion value :=
  fun _ c =>
    if is_str (asked c) "gemini-3-flash" then Throw (rate_limit_error "5s")
    else Normal (generated "{}").

Definition other_task : value :=
  VObj [("task", VStr "product"); ("inputs", VObj [("a", VNum 1); ("b", VNum 2)]);
        ("outputs", VObj [("result", VStr "Number | product")])].

(** A backend that rejects every request with an error of status 500; a
    queue of one name; the configuration [aiTask] calls itself with when
    that name has failed, [{...modelInput, model: remainingModels}] with
    the array emptied; and the requests made of the two. *)
Definition always_failing : list event -> call -> completion value :=
  fun _ _ => Throw (VObj [("status", VNum 500)]).

Definition single : value := for_model (VArr [VStr "x/A"]).

Definition first_of_single : list (string * value) :=
  fst (normalize single VUndefined VUndefined VUndefined (VStr "json_object")).

Definition emptied : list (string * value) :=
  set_field "model" (VArr []) first_of_single.

Definition after_queue : list (string * value) :=
  fst (normalize (VObj emptied) VUndefined VUndefined VUndefined (VStr "json_object")).

(** The message builder on a caller's [inputs]. *)
Definition sum_outputs : hval := Prim (VObj [("result", VStr "Number | sum")]).

Definition build (inputs : hval) (h : store) : completion result * store :=
  createOllamaMessages runtime encoder (Prim (VStr "calculator")) (Prim (VStr "sum"))
    inputs sum_outputs (Prim (VStr "json_object")) false ollamaImageMessageBuilder h.

(** The caller holds [inputs = {a: 1}]; [inputs = {images: ["a.jpg"], a: 1}];
    [inputs = {messages: [{role: "user", content: "hi"}]}]. *)
Definition plain : store := {[ 0%nat := Obj [("a", Prim (VNum 1))] ]}.

Definition pictured : store :=
  {[ 0%nat := Obj [("images", Ref 1); ("a", Prim (VNum 1))];
     1%nat := Arr [Prim (VStr "a.jpg")] [] ]}.

Definition conversed : store :=
  {[ 0%nat := Obj [("messages", Ref 1)];
     1%nat := Arr [Ref 2] [];
     2%nat := Obj [("role", Prim (VStr "user")); ("content", Prim (VStr "hi"))] ]}.

(** Backends that complete every chat with one content, and that reject
    every request as overloaded; and the bare task for a gemma model. *)
Definition always_completed (content : string) : list event -> call -> completion value :=
  fun _ _ => Normal (completed content).

Definition always_overloaded : list event -> call -> completion value :=
  fun _ _ => Throw (VObj [("status", VNum 503)]).

Definition for_gemma : list (string * value) :=
  bare ++ [("role", VStr "chef"); ("model", VStr "gemma-3-27b")].

(** A descriptor with an enum that lists no array; and a store with two
    encoded images. *)
Definition sizes : list (string * value) := [("size", VStr "Enum | small, large")].

Definition encodings : store := {[ 1%nat := Arr [Prim (VStr "QUJD"); Prim (VStr "REVG")] [] ]}.

(** The caller holds [inputs = {messages: ["hi", "and then?"]}]. *)
Definition texted : store :=
  {[ 0%nat := Obj [("messages", Ref 1)];
     1%nat := Arr [Prim (VStr "hi"); Prim (VStr "and then?")] [] ]}.

(** For the data compressor: names that objects inherit; the test function
    [(value) => value === 2]; and the data of its test script. *)
Definition prototype_names (k : string) : bool :=
  existsb (String.eqb k)
    ["__proto__"; "constructor"; "hasOwnProperty"; "isPrototypeOf";
     "propertyIsEnumerable"; "toLocaleString"; "toString"; "valueOf"].

Definition accepts_two : nat -> value -> completion value :=
  fun _ v => Normal (VBool (is_num v 2)).

Definition record_a : value := VObj [("name", VStr "a"); ("data", VNum 1)].
Definition record_b : value := VObj [("name", VStr "b"); ("data", VNum 2)].
Definition record_a_again : value := VObj [("name", VStr "a"); ("data", VNum 3)].
Definition record_b_as_a : value := VObj [("name", VStr "a"); ("data", VNum 2)].

Definition typed_a : value := VObj [("data", VStr "a"); ("type", VNum 1)].
Definition typed_b : value := VObj [("data", VStr "b"); ("type", VNum 2)].

Definition levels : value :=
  VArr [VObj [("name", VStr "level1A");
              ("children", VArr [VObj [("name", VStr "level2A"); ("value", VNum 10)];
                                 VObj [("name", VStr "level2B"); ("value", VNum 20)]])];
        VObj [("name", VStr "level1B");
              ("data", VObj [("type", VStr "info");
                             ("details", VArr [VObj [("name", VStr "detailX");
                                                     ("code", VStr "X")]])])]].

(** The compressor as the test script calls it, and the options of its
    cases that keep single attributes. *)
Definition compress (data options : value) : Compressor.answer value :=
  Compressor.dataCompressor runtime prototype_names accepts_two 10 data options.

Definition not_single : value :=
  VObj [("collapseOptions", VObj [("collapseSingleAttr", VBool false)])].

Definition levels_collapsed : value :=
  VObj [("level1A", VObj [("level2A", VNum 10); ("level2B", VNum 20)]);
        ("level1B", VObj [("type", VStr "info");
                          ("details", VObj [("detailX", VStr "X")])])].

End Sample.

(* ===================================================================== *)
(** * Part II: lemmas and theorems *)
(* ===================================================================== *)

(** ** The schema compiler *)
Module SchemaFacts.
Import Schema.

Section Compiled.
Context (rt : Runtime).

Lemma convertToZod_object fs :
  truthy (field (VObj fs) "__is_record") = false ->
  convertToZod rt (VObj fs) =
  match object_shape rt fs with
  | Throw e => Throw e
  | Normal zs => Normal (ZObject zs)
  end.
Proof.
  intros Hrec. cbn [convertToZod]. rewrite Hrec. reflexivity.
Qed.

(** *** String lemmas for the descriptor syntax *)

Lemma split_without c s :
  (forall a, In a (list_ascii_of_string s) -> a <> c) -> split c s = [s].
Proof.
  induction s as [|a r IH]; intros H; [reflexivity|].
  cbn [split]. destruct (Ascii.eqb_spec a c) as [->|Hne].
  - exfalso. apply (H c); [now left | reflexivity].
  - rewrite IH; [reflexivity|]. intros b Hb. apply H. now right.
Qed.

Lemma includes_char_false c s :
  includes (String c EmptyString) s = false ->
  forall a, In a (list_ascii_of_string s) -> a <> c.
Proof.
  induction s as [|b r IH]; intros H a Ha; [destruct Ha|].
  cbn [includes startsWith] in H. apply orb_false_iff in H as [H1 H2].
  rewrite andb_true_r in H1.
  destruct Ha as [<-|Ha].
  - intros ->. now rewrite Ascii.eqb_refl in H1.
  - now apply IH.
Qed.

Lemma trim_space_cons d : trim (String " " d) = trim d.
Proof. reflexivity. Qed.

Lemma parse_optional_string d :
  includes "|" d = false -> trim d = d -> d <> "" ->
  parseStringDescription rt ("String optional | " ++ d) =
  Normal (ZDescribe (ZNullable (ZOptional (ZString None))) d).
Proof.
  intros Hbar Htrim Hne.
  cbv beta iota delta [String.append].
  assert (Hd : String.eqb d "" = false) by now apply String.eqb_neq.
  unfold parseStringDescription.
  match goal with |- (if ?b then _ else _) = _ => replace b with true end.
  2:{ reflexivity. }
  match goal with |- context [split ?c ?s] =>
    replace (split c s) with ["String optional "; String " " d] end.
  2:{ simpl. rewrite (split_without "|" d); [reflexivity|].
      now apply includes_char_false. }
  cbn [map]. rewrite trim_space_cons, Htrim.
  simpl. rewrite Hd. simpl. unfold describe. rewrite Hd. reflexivity.
Qed.


(** *** The members of a compiled object *)

Lemma object_shape_keys fs zs :
  object_shape rt fs = Normal zs -> map fst zs = map fst fs.
Proof.
  revert zs. induction fs as [|[key v] r IH]; intros zs H; cbn in H.
  - now inversion H.
  - destruct (member_schema rt v); [|discriminate].
    destruct (object_shape rt r); [|discriminate].
    inversion H; subst. cbn. f_equal. now apply IH.
Qed.

Lemma object_shape_member fs zs k v :
  object_shape rt fs = Normal zs -> assoc k fs = Some v ->
  exists z, member_schema rt v = Normal z /\ zassoc k zs = Some z.
Proof.
  revert zs. induction fs as [|[key x] r IH]; intros zs H Hk; cbn in H, Hk.
  - discriminate.
  - destruct (member_schema rt x) eqn:Hm; [|discriminate].
    destruct (object_shape rt r) eqn:Hr; [|discriminate].
    inversion H; subst. cbn. destruct (String.eqb key k).
    + inversion Hk; subst. eauto.
    + eapply IH; eauto.
Qed.

Lemma object_shape_throws fs e :
  object_shape rt fs = Throw e ->
  exists k v, In (k, v) fs /\ member_schema rt v = Throw e.
Proof.
  induction fs as [|[key x] r IH]; intros H; cbn in H; [discriminate|].
  destruct (member_schema rt x) eqn:Hm.
  - destruct (object_shape rt r) eqn:Hr; [discriminate|].
    inversion H; subst. destruct IH as (k & v & Hin & Hv); [reflexivity|].
    exists k, v. split; [now right | assumption].
  - inversion H; subst. exists key, x. split; [now left | assumption].
Qed.

Lemma assoc_properties k zs :
  assoc k (map (fun kz : string * zod => (fst kz, VObj (schema_of (snd kz)))) zs) =
  (fun z => VObj (schema_of z)) <$> zassoc k zs.
Proof.
  induction zs as [|[k' z] r IH]; [reflexivity|].
  cbn. destruct (String.eqb k' k); [reflexivity | exact IH].
Qed.

Lemma zassoc_unique k z z' zs :
  NoDup (map fst zs) -> zassoc k zs = Some z -> In (k, z') zs -> z' = z.
Proof.
  induction zs as [|[k' x] r IH]; intros Hnd Hk Hin; [destruct Hin|].
  cbn in Hk, Hnd. apply NoDup_cons in Hnd as [Hnotin Hnd].
  destruct (String.eqb_spec k' k) as [->|Hne].
  - inversion Hk; subst. destruct Hin as [Heq|Hin]; [now inversion Heq|].
    exfalso. apply Hnotin. apply list_elem_of_In.
    change k with (fst (k, z')). now apply in_map.
  - destruct Hin as [Heq|Hin]; [inversion Heq; congruence|]. now apply IH.
Qed.

Lemma in_required k zs :
  In (VStr k)
     (omap (fun kz : string * zod =>
              if optin (snd kz) then None else Some (VStr (fst kz))) zs) ->
  exists z, In (k, z) zs /\ optin z = false.
Proof.
  induction zs as [|[k' z] r IH]; intros H; [destruct H|].
  cbn in H. destruct (optin z) eqn:Ho.
  - destruct (IH H) as (z0 & Hin & Hz). exists z0. split; [now right | assumption].
  - destruct H as [Heq|H].
    + inversion Heq; subst. exists z. split; [now left | assumption].
    + destruct (IH H) as (z0 & Hin & Hz). exists z0. split; [now right | assumption].
Qed.

End Compiled.

End SchemaFacts.

(** ** The dispatcher and the Gemini adapter *)
Module DispatchFacts.
Import Dispatch.
Local Open Scope M_scope.
Local Open Scope list_scope.

(** *** A small program logic

    The rules of [sat], one for each way the adapters are put together. *)

Section Logic.
Context (R : relation world) `{!PreOrder R}.

Lemma sat_ret {A} (Q : outcome A -> Prop) a : Q (Returns a) -> sat R Q (ret a).
Proof. intros H w. split; [reflexivity | exact H]. Qed.

Lemma sat_throw {A} (Q : outcome A -> Prop) e : Q (Throws e) -> sat R Q (throw e).
Proof. intros H w. split; [reflexivity | exact H]. Qed.

Lemma sat_pending {A} (Q : outcome A -> Prop) : Q Pending -> sat R Q pending.
Proof. intros H w. split; [reflexivity | exact H]. Qed.

Lemma sat_lift {A} (Q : outcome A -> Prop) (c : completion A) :
  (forall a, c = Normal a -> Q (Returns a)) ->
  (forall e, c = Throw e -> Q (Throws e)) ->
  sat R Q (lift c).
Proof.
  intros Hn Ht. destruct c; [apply sat_ret | apply sat_throw]; eauto.
Qed.

Lemma sat_bind {A C} (Q1 : outcome A -> Prop) (Q : outcome C -> Prop) m k :
  sat R Q1 m ->
  (forall a, Q1 (Returns a) -> sat R Q (k a)) ->
  (forall e, Q1 (Throws e) -> Q (Throws e)) ->
  (Q1 Pending -> Q Pending) ->
  sat R Q (bind m k).
Proof.
  intros Hm Hk He Hp w. unfold bind. destruct (Hm w) as [HR HQ].
  destruct (m w) as [[a|e|] w']; cbn in *.
  - destruct (Hk a HQ w') as [HR' HQ']. split; [etransitivity; eassumption | assumption].
  - split; [assumption | now apply He].
  - split; [assumption | now apply Hp].
Qed.

Lemma sat_try_catch {A} (Q1 Q : outcome A -> Prop) m h :
  sat R Q1 m ->
  (forall e, Q1 (Throws e) -> sat R Q (h e)) ->
  (forall a, Q1 (Returns a) -> Q (Returns a)) ->
  (Q1 Pending -> Q Pending) ->
  sat R Q (try_catch m h).
Proof.
  intros Hm Hh Ha Hp w. unfold try_catch. destruct (Hm w) as [HR HQ].
  destruct (m w) as [[a|e|] w']; cbn in *.
  - split; [assumption | now apply Ha].
  - destruct (Hh e HQ w') as [HR' HQ']. split; [etransitivity; eassumption | assumption].
  - split; [assumption | now apply Hp].
Qed.

Lemma sat_weaken {A} (Q1 Q : outcome A -> Prop) m :
  sat R Q1 m -> (forall r, Q1 r -> Q r) -> sat R Q m.
Proof. intros Hm HQ w. destruct (Hm w). split; auto. Qed.

Lemma sat_if {A} (Q : outcome A -> Prop) (b : bool) m1 m2 :
  sat R Q m1 -> sat R Q m2 -> sat R Q (if b then m1 else m2).
Proof. now destruct b. Qed.

End Logic.

(** The three relations are preorders. *)
#[local] Instance same_cursor_preorder : PreOrder same_cursor.
Proof. split; [intros w; reflexivity | intros a b c; unfold same_cursor; congruence]. Qed.
#[local] Instance same_cache_preorder : PreOrder same_cache.
Proof. split; [intros w; reflexivity | intros a b c; unfold same_cache; congruence]. Qed.
#[local] Instance grows_preorder P : PreOrder (grows P).
Proof.
  split.
  - intros w. exists []. split; [now rewrite app_nil_r | constructor].
  - intros a b c (n1 & H1 & F1) (n2 & H2 & F2). exists (n1 ++ n2). split.
    + now rewrite H2, H1, app_assoc.
    + now apply Forall_app.
Qed.

(** Every logged event respects them. *)
Lemma logs_cursor : logs same_cursor (fun _ => True).
Proof. now intros ev w _. Qed.
Lemma logs_cache : logs same_cache (fun _ => True).
Proof. now intros ev w _. Qed.
Lemma logs_grows P : logs (grows P) P.
Proof. intros ev w H. exists [ev]. split; [reflexivity | now repeat constructor]. Qed.

Section Primitives.
Context (backend : list event -> call -> completion value).
Context (R : relation world) `{!PreOrder R} (P : event -> Prop) (HR : logs R P).

Lemma sat_exchange (Q : outcome value -> Prop) c :
  (forall h, P (Exchange c (backend h c))) ->
  (forall h v, backend h c = Normal v -> Q (Returns v)) ->
  (forall h e, backend h c = Throw e -> Q (Throws e)) ->
  sat R Q (exchange backend c).
Proof.
  intros HP Hn Ht w. unfold exchange. cbn. split; [apply HR, HP|].
  destruct (backend (trace w) c) eqn:E; eauto.
Qed.

Lemma sat_sleep (Q : outcome unit -> Prop) ms :
  P (Sleep ms) -> Q (Returns tt) -> sat R Q (sleep ms).
Proof. intros HP HQ w. split; [now apply HR | exact HQ]. Qed.

End Primitives.

(** *** What no adapter touches: the cursor, the cache; and the history
    only grows *)

Ltac sat_step :=
  match goal with
  | |- PreOrder _ => exact _
  | |- logs _ _ => eassumption
  | |- forall _, _ => intros
  | H : sat ?R _ ?m |- sat ?R _ ?m => exact H
  | |- sat _ _ (ret _) => apply sat_ret
  | |- sat _ _ (throw _) => apply sat_throw
  | |- sat _ _ pending => apply sat_pending
  | |- sat _ _ (lift _) => apply sat_lift
  | |- sat _ _ (exchange _ _) => eapply sat_exchange
  | |- sat _ _ (sleep _) => eapply sat_sleep
  | |- sat _ _ (bind _ _) => eapply sat_bind with (Q1 := any)
  | |- sat _ _ (try_catch _ _) => eapply sat_try_catch with (Q1 := any)
  | |- sat _ _ (if ?b then _ else _) => destruct b
  | |- sat _ _ (match ?x with _ => _ end) => destruct x
  | |- _ => exact I
  end.

Ltac sat_all := repeat sat_step.

Section Frames.
Context (rt : Runtime) (backend : list event -> call -> completion value).
Context (R : relation world) `{!PreOrder R} (HR : logs R (fun _ => True)).

Lemma callGeminiModel_frame fuel arg : sat R any (callGeminiModel rt backend fuel arg).
Proof.
  revert arg. induction fuel as [|fuel IH]; intros arg; cbn [callGeminiModel].
  - sat_all.
  - destruct (prepare rt arg) as [[task request]|e]; sat_all; apply IH.
Qed.

Lemma sat_read {A} (Q : outcome A -> Prop) (m : nat -> M A) :
  (forall n, sat R Q (m n)) ->
  sat R Q (fun w => m (lastRateLimitedGeminiModelIndex w) w).
Proof. intros H w. apply H. Qed.

Lemma walk_frame attempt models :
  (forall model, sat R any (attempt model)) -> sat R any (walk attempt models).
Proof.
  intros H. induction models as [|modelConfig rest IH]; cbn [walk]; sat_all.
  apply H.
Qed.

Lemma callGemini_frame fuel arg : sat R any (callGemini rt backend fuel arg).
Proof.
  revert arg. induction fuel as [|fuel IH]; intros arg; cbn [callGemini]; [sat_all|].
  assert (Hp : sat R any
                 (priority_list
                    (fun model => callGeminiModel rt backend fuel (model_arguments arg model)))).
  { apply (sat_read any (fun n => walk _ (drop n geminiModels))). intros n.
    apply walk_frame. intros model. apply callGeminiModel_frame. }
  sat_all; try apply callGeminiModel_frame; apply IH.
Qed.

Lemma callOpenAI_frame baseURL arg : sat R any (_callOpenAI rt backend baseURL arg).
Proof. unfold _callOpenAI. sat_all. Qed.

Lemma callOllama_frame arg : sat R any (callOllama rt backend arg).
Proof. unfold callOllama. sat_all. Qed.

Lemma model_includes_frame model sep : sat R any (model_includes backend model sep).
Proof. unfold model_includes. sat_all. Qed.

Lemma route_frame fuel localOnly modelInput :
  sat R any (route rt backend fuel localOnly modelInput).
Proof.
  unfold route, callOpenRouter, callOpenAI.
  destruct (truthy localOnly); [apply callOllama_frame|].
  sat_all; first [apply callGemini_frame | apply callOpenAI_frame | apply model_includes_frame].
Qed.

End Frames.

(** Every cache write respects them. *)
Lemma stores_cursor : stores same_cursor.
Proof. now intros k v w. Qed.
Lemma stores_grows P : stores (grows P).
Proof. intros k v w. exists []. split; [now rewrite app_nil_r | constructor]. Qed.

Section Dispatcher.
Context (rt : Runtime) (backend : list event -> call -> completion value).
Context (R : relation world) `{!PreOrder R}.
Context (HR : logs R (fun _ => True)) (HS : stores R).

Lemma cache_get_frame hash : sat R any (cache_get hash).
Proof. intros w. split; [reflexivity | exact I]. Qed.

Lemma cache_set_frame hash v : sat R any (cache_set hash v).
Proof. intros w. split; [apply HS | exact I]. Qed.

Lemma aiTask_frame fuel configOrRole task inputs outputs outputFormat localOnly :
  sat R any (aiTask rt backend fuel configOrRole task inputs outputs outputFormat localOnly).
Proof.
  revert configOrRole task inputs outputs outputFormat localOnly.
  induction fuel as [|fuel IH]; intros; cbn [aiTask]; [sat_all|].
  destruct (normalize _ _ _ _ _) as [modelInput remainingModels].
  eapply sat_bind with (Q1 := any); [exact _ | apply cache_get_frame | | sat_all..].
  intros cachedResponse _. destruct (truthy cachedResponse); [sat_all|].
  eapply sat_try_catch with (Q1 := any); [exact _ | | | sat_all..].
  - eapply sat_bind with (Q1 := any); [exact _ | apply route_frame; assumption | | sat_all..].
    intros r _. eapply sat_bind with (Q1 := any); [exact _ | apply cache_set_frame | | sat_all..].
    sat_all.
  - intros e _. destruct remainingModels; [apply IH | sat_all].
Qed.

End Dispatcher.

(** *** The Gemini adapter *)

Section Gemini.
Context (rt : Runtime) (backend : list event -> call -> completion value).

(** C6.  [callGemini] leaves the rate-limit cursor as it found it: the
    variable is read where the walk starts and assigned nowhere. *)
Theorem rate_limit_cursor_is_never_written fuel arg w :
  lastRateLimitedGeminiModelIndex (snd (callGemini rt backend fuel arg w)) =
  lastRateLimitedGeminiModelIndex w.
Proof. exact (proj1 (callGemini_frame rt backend same_cursor logs_cursor fuel arg w)). Qed.

(** The same for a whole call of the dispatcher. *)
Lemma aiTask_keeps_cursor fuel configOrRole task inputs outputs outputFormat localOnly w :
  lastRateLimitedGeminiModelIndex
    (snd (aiTask rt backend fuel configOrRole task inputs outputs outputFormat localOnly w)) =
  lastRateLimitedGeminiModelIndex w.
Proof.
  exact (proj1 (aiTask_frame rt backend same_cursor logs_cursor stores_cursor
                  fuel configOrRole task inputs outputs outputFormat localOnly w)).
Qed.

Lemma get_prop_status_object fs :
  get_prop (VObj fs) "status" = Normal (field (VObj fs) "status").
Proof. reflexivity. Qed.

(** C4.  A reply that does not parse ends the call at once: one request, one
    parse, the result [null].  [JSON.parse] stands outside the inner [try],
    whose [catch] holds the retries. *)
Theorem malformed_output_is_not_retried fuel arg w task request reply text :
  prepare rt arg = Normal (task, request) ->
  is_str (param (VObj arg) "outputFormat" (VStr "json_object")) "json_object" = true ->
  backend (trace w) request = Normal reply ->
  get_prop reply "text" = Normal text ->
  JSON_parse rt (to_string rt text) = None ->
  callGeminiModel rt backend (S fuel) arg w =
  (Returns VNull, log (Exchange request (Normal reply)) w).
Proof.
  intros Hprep Hjson Hreply Htext Hparse.
  cbn [callGeminiModel]. rewrite Hprep.
  unfold try_catch, bind, exchange. rewrite Hreply, Htext. cbn [lift ret throw].
  assert (Hmeta : exists u, get_prop reply "usageMetadata" = Normal u).
  { destruct reply; try discriminate; eexists; reflexivity. }
  destruct Hmeta as [u ->]. cbn [lift ret]. rewrite Hjson, Hparse. reflexivity.
Qed.

(** An error that is neither a rate limit nor an overload ends the call
    with [null]. *)
Lemma callGeminiModel_unknown_error fuel arg w task request error status :
  prepare rt arg = Normal (task, request) ->
  backend (trace w) request = Throw error ->
  get_prop error "status" = Normal status ->
  is_num status 429 = false -> is_num status 499 = false -> is_num status 503 = false ->
  callGeminiModel rt backend (S fuel) arg w =
  (Returns VNull, log (Exchange request (Throw error)) w).
Proof.
  intros Hprep Hreply Hstatus H429 H499 H503.
  cbn [callGeminiModel]. rewrite Hprep.
  unfold try_catch, bind at 1, exchange. rewrite Hreply.
  unfold bind, lift. rewrite Hstatus. unfold ret. rewrite H429, H499, H503. reflexivity.
Qed.

(** *** The pinned candidate *)

Lemma get_prop_throws v k e : get_prop v k = Throw e -> e = TypeError.
Proof. destruct v; cbn; congruence. Qed.

Lemma set_prop_throws v k x e : set_prop v k x = Throw e -> e = TypeError.
Proof. destruct v; cbn; congruence. Qed.

Lemma starts_with_gemma_throws v e : starts_with_gemma v = Throw e -> e = TypeError.
Proof. destruct v; cbn; congruence. Qed.

Lemma prepare_throws arg e : prepare rt arg = Throw e -> e = TypeError.
Proof.
  unfold prepare. destruct (get_prop _ "type") eqn:E1.
  - destruct (starts_with_gemma _) eqn:E2; [discriminate|].
    intros [= <-]. eapply starts_with_gemma_throws, E2.
  - intros [= <-]. eapply get_prop_throws, E1.
Qed.

Lemma prepare_model arg task request :
  prepare rt arg = Normal (task, request) ->
  exists s p g, request = Generate (model_of arg) s p g.
Proof.
  unfold prepare. destruct (get_prop _ "type"); [|discriminate].
  destruct (starts_with_gemma _); [|discriminate].
  intros [= <- <-]. eauto.
Qed.

Lemma param_defined o k d : d <> VUndefined -> param o k d <> VUndefined.
Proof. unfold param. destruct (field o k); congruence. Qed.

Lemma param_of_defined l k d v :
  field (VObj l) k = v -> v <> VUndefined -> param (VObj l) k d = v.
Proof. unfold param. intros -> H. destruct v; congruence. Qed.

Lemma model_of_defined arg : model_of arg <> VUndefined /\ is_null (model_of arg) = false.
Proof.
  unfold model_of.
  pose proof (param_defined (VObj arg) "model" (VStr "gemini-2.0-flash")) as H.
  destruct (param (VObj arg) "model" _); cbn; split; try reflexivity; try discriminate.
  now apply H.
Qed.

Lemma model_of_again arg l :
  field (VObj l) "model" = model_of arg -> model_of l = model_of arg.
Proof.
  intros H. destruct (model_of_defined arg) as [Hd Hn].
  unfold model_of at 1. rewrite (param_of_defined _ _ _ _ H Hd), Hn. reflexivity.
Qed.

Lemma has_status_TypeError : has_status TypeError.
Proof. eexists; reflexivity. Qed.
Lemma has_status_SyntaxError : has_status SyntaxError.
Proof. eexists; reflexivity. Qed.

Lemma param_again arg l k d :
  d <> VUndefined ->
  field (VObj l) k = param (VObj arg) k d -> param (VObj l) k d = param (VObj arg) k d.
Proof. intros Hd H. apply param_of_defined; [exact H | now apply param_defined]. Qed.

Lemma model_arguments_again arg m :
  model_arguments (gemini_arguments arg) m = model_arguments arg m.
Proof.
  unfold model_arguments. f_equal. f_equal; [|f_equal; [|f_equal]].
  - f_equal. now apply param_again.
  - f_equal. now apply param_again.
  - f_equal. f_equal. now apply param_again.
Qed.

Lemma gemini_arguments_model arg :
  param (VObj (gemini_arguments arg)) "model" VNull = param (VObj arg) "model" VNull.
Proof. now apply param_again. Qed.

Lemma gemini_arguments_bestModel arg :
  param (VObj (gemini_arguments arg)) "bestModel" (VBool false) =
  param (VObj arg) "bestModel" (VBool false).
Proof. now apply param_again. Qed.

Lemma gemini_arguments_again arg :
  gemini_arguments (gemini_arguments arg) = gemini_arguments arg.
Proof.
  unfold gemini_arguments at 1.
  rewrite !(param_again arg (gemini_arguments arg)) by solve [discriminate | reflexivity].
  reflexivity.
Qed.

Lemma pinned_again arg : pinned (gemini_arguments arg) = pinned arg.
Proof. unfold pinned. now rewrite gemini_arguments_model, gemini_arguments_bestModel. Qed.

Lemma candidate_again arg : candidate (gemini_arguments arg) = candidate arg.
Proof. unfold candidate. now rewrite gemini_arguments_model, model_arguments_again. Qed.

(** The candidate of a pinned call is its model, or [gemini-2.5-flash] when
    only [bestModel] is set. *)
Lemma candidate_model arg :
  candidate arg =
  let model := param (VObj arg) "model" VNull in
  if is_null model then VStr "gemini-2.5-flash" else model.
Proof.
  unfold candidate, model_of. cbn zeta.
  rewrite (param_of_defined _ "model" _ (param (VObj arg) "model" VNull)); [reflexivity..|].
  now apply param_defined.
Qed.

Section Pinned.
Context (Hbackend : forall h c e, backend h c = Throw e -> has_status e).

Lemma callGeminiModel_one_model fuel arg :
  sat (grows (on_model (model_of arg))) (throws_only rate_limited)
      (callGeminiModel rt backend fuel arg).
Proof.
  revert arg. induction fuel as [|fuel IH]; intros arg; cbn [callGeminiModel].
  { apply sat_pending; [exact _ | intros e; discriminate]. }
  set (P := on_model (model_of arg)).
  assert (Hagain : forall t j o,
    sat (grows P) (throws_only rate_limited)
      (callGeminiModel rt backend fuel
         [("role", field (VObj arg) "role"); ("task", t);
          ("inputs", field (VObj arg) "inputs"); ("outputs", field (VObj arg) "outputs");
          ("outputFormat", param (VObj arg) "outputFormat" (VStr "json_object"));
          ("temperature", param (VObj arg) "temperature" (VFrac 7 10));
          ("model", model_of arg); ("JSONErrorRetry", j); ("OverloadErrorRetry", o);
          ("includeMetadata", param (VObj arg) "includeMetadata" (VBool false))])).
  { intros t j o.
    match goal with
    | |- sat _ _ (callGeminiModel _ _ _ ?l) =>
        pose proof (IH l) as H; rewrite (model_of_again arg l eq_refl) in H; exact H
    end. }
  assert (Hhandler : forall t e, has_status e ->
    sat (grows P) (throws_only rate_limited)
      (status <- lift (get_prop e "status") ;;
       if is_num status 429 then throw e
       else if is_num status 499 || is_num status 503 then
         sleep (scale (if truthy (param (VObj arg) "OverloadErrorRetry" (VBool false))
                       then increment (param (VObj arg) "OverloadErrorRetry" (VBool false))
                       else VNum 1) 10000 0) ;;
         callGeminiModel rt backend fuel
           [("role", field (VObj arg) "role"); ("task", t);
            ("inputs", field (VObj arg) "inputs"); ("outputs", field (VObj arg) "outputs");
            ("outputFormat", param (VObj arg) "outputFormat" (VStr "json_object"));
            ("temperature", param (VObj arg) "temperature" (VFrac 7 10));
            ("model", model_of arg);
            ("JSONErrorRetry", param (VObj arg) "JSONErrorRetry" (VBool false));
            ("OverloadErrorRetry",
             if truthy (param (VObj arg) "OverloadErrorRetry" (VBool false))
             then increment (param (VObj arg) "OverloadErrorRetry" (VBool false))
             else VNum 1);
            ("includeMetadata", param (VObj arg) "includeMetadata" (VBool false))]
       else ret VNull)%M).
  { intros t e [s Hs]. rewrite Hs. cbn [lift]. unfold bind at 1, ret at 1.
    destruct (is_num s 429) eqn:E429.
    - apply sat_throw; [exact _|]. intros e' [= <-]. unfold rate_limited. rewrite Hs.
      destruct s; try discriminate. cbn in E429. apply Z.eqb_eq in E429. now subst.
    - destruct (_ || _).
      + eapply sat_bind with (Q1 := fun r => r = Returns tt); [exact _ | | | |].
        * apply (sat_sleep _ P (logs_grows P)); [exact I | reflexivity].
        * intros _ _. apply Hagain.
        * intros e'; discriminate.
        * discriminate.
      + apply sat_ret; [exact _ | intros e'; discriminate]. }
  destruct (prepare rt arg) as [[task request]|e] eqn:Hprep.
  2:{ apply prepare_throws in Hprep as ->. apply Hhandler, has_status_TypeError. }
  destruct (prepare_model _ _ _ Hprep) as (si & pr & gc & ->).
  eapply sat_try_catch with (Q1 := throws_only has_status); [exact _ | | | |].
  - eapply sat_bind with (Q1 := throws_only has_status); [exact _ | | | |].
    + apply (sat_exchange backend _ P (logs_grows P)).
      * intros h. reflexivity.
      * intros h v _ e; discriminate.
      * intros h e He e' [= <-]. eapply Hbackend, He.
    + intros result _.
      eapply sat_bind with (Q1 := throws_only has_status); [exact _ | | | |].
      * apply sat_lift; [exact _ | intros a _ e; discriminate |].
        intros e He e' [= <-]. apply get_prop_throws in He as ->. apply has_status_TypeError.
      * intros responseContent _.
        eapply sat_bind with (Q1 := throws_only has_status); [exact _ | | | |].
        -- apply sat_lift; [exact _ | intros a _ e; discriminate |].
           intros e He e' [= <-]. apply get_prop_throws in He as ->. apply has_status_TypeError.
        -- intros usageMetadata _.
           eapply sat_bind with (Q1 := throws_only has_status); [exact _ | | | |].
           ++ destruct (is_str _ _); [destruct (JSON_parse _ _)|].
              ** apply sat_ret; [exact _ | intros e; discriminate].
              ** apply sat_throw; [exact _ | intros e [= <-]; apply has_status_SyntaxError].
              ** apply sat_ret; [exact _ | intros e; discriminate].
           ++ intros output _.
              eapply sat_bind with (Q1 := throws_only has_status); [exact _ | | | |].
              ** destruct (_ && _).
                 --- apply sat_lift; [exact _ | intros a _ e; discriminate |].
                     intros e He e' [= <-]. apply set_prop_throws in He as ->.
                     apply has_status_TypeError.
                 --- apply sat_ret; [exact _ | intros e; discriminate].
              ** intros output' _.
                 eapply sat_try_catch with (Q1 := fun r => exists a, r = Returns a);
                   [exact _ | | | |].
                 --- apply sat_ret; [exact _ | eauto].
                 --- intros e [a Ha]; discriminate.
                 --- intros a _ e; discriminate.
                 --- intros [a Ha]; discriminate.
              ** intros e He; exact He.
              ** intros _ e; discriminate.
           ++ intros e He; exact He.
           ++ intros _ e; discriminate.
        -- intros e He; exact He.
        -- intros _ e; discriminate.
      * intros e He; exact He.
      * intros _ e; discriminate.
    + intros e He; exact He.
    + intros _ e; discriminate.
  - intros e He. apply Hhandler. now apply He.
  - intros a _ e; discriminate.
  - intros _ e; discriminate.
Qed.

Lemma isRateLimitError_limited e : rate_limited e -> isRateLimitError e = Normal true.
Proof. unfold rate_limited, isRateLimitError. now intros ->. Qed.

Lemma callGemini_one_model fuel arg :
  pinned arg = true ->
  sat (grows (on_model (candidate arg))) any (callGemini rt backend fuel arg).
Proof.
  revert arg. induction fuel as [|fuel IH]; intros arg Hpin; cbn [callGemini].
  { apply sat_pending; [exact _ | exact I]. }
  fold (pinned arg). rewrite Hpin.
  eapply sat_try_catch with (Q1 := throws_only rate_limited); [exact _ | | | |].
  - apply callGeminiModel_one_model.
  - intros e He. rewrite (isRateLimitError_limited e) by now apply He.
    cbn [lift]. unfold bind at 1, ret at 1.
    eapply sat_bind with (Q1 := any); [exact _ | | | |].
    + apply sat_lift; [exact _ | intros; exact I..].
    + intros delayMs _. eapply sat_bind with (Q1 := any); [exact _ | | | |].
      * apply (sat_sleep _ _ (logs_grows _)); exact I.
      * intros _ _. rewrite <- candidate_again. apply IH. now rewrite pinned_again.
      * intros; exact I.
      * intros; exact I.
    + intros; exact I.
    + intros; exact I.
  - intros; exact I.
  - intros; exact I.
Qed.

End Pinned.

(** One round of the pinned branch: the request is rejected as rate-limited,
    the call sleeps and runs again. *)
Lemma callGemini_retry fuel arg w task request error delayMs :
  pinned arg = true ->
  prepare rt (model_arguments arg (param (VObj arg) "model" VNull)) = Normal (task, request) ->
  backend (trace w) request = Throw error ->
  get_prop error "status" = Normal (VNum 429) ->
  rateLimitRetryDelay error = Normal delayMs ->
  callGemini rt backend (S (S fuel)) arg w =
    callGemini rt backend (S fuel) (gemini_arguments arg)
      (log (Sleep (scale delayMs 1 1000)) (log (Exchange request (Throw error)) w)).
Proof.
  intros Hpin Hprep Hreply Hstatus Hdelay.
  remember (S fuel) as n eqn:En.
  cbn [callGemini]. fold (pinned arg). rewrite Hpin.
  rewrite En at 1. cbn [callGeminiModel]. rewrite Hprep.
  unfold try_catch at 1. unfold try_catch at 1. unfold bind at 1, exchange at 1.
  rewrite Hreply. cbn [trace].
  unfold bind at 1. rewrite Hstatus. cbn [lift].
  unfold ret at 1. cbn [is_num Z.eqb Pos.eqb]. unfold throw at 1.
  unfold bind at 1. unfold isRateLimitError. rewrite Hstatus. cbn [lift is_num Z.eqb Pos.eqb].
  unfold ret at 1. unfold bind at 1. rewrite Hdelay. cbn [lift].
  unfold ret at 1. unfold bind at 1, sleep at 1. reflexivity.
Qed.

Lemma retry_delay_of_hint error hint :
  retryDelaySeconds error = Normal (from_option VNum VNull hint) ->
  rateLimitRetryDelay error = Normal (VNum (default 30 hint * 1000 + 250)).
Proof. unfold rateLimitRetryDelay. intros ->. now destruct hint. Qed.


End Gemini.

Section Requests.
Context (rt : Runtime) (backend : list event -> call -> completion value).

(** *** The dispatcher *)

(** No exception leaves [aiTask]: what the adapters throw is caught, and
    the handler returns [null] or runs [aiTask] on the rest of the queue. *)
Lemma aiTask_does_not_throw
  fuel configOrRole task inputs outputs outputFormat localOnly w e :
  fst (aiTask rt backend fuel configOrRole task inputs outputs outputFormat localOnly w)
  <> Throws e.
Proof.
  revert configOrRole task inputs outputs outputFormat localOnly w.
  induction fuel as [|fuel IH]; intros; cbn [aiTask]; [discriminate|].
  destruct (normalize _ _ _ _ _) as [modelInput remaining].
  unfold bind at 1, cache_get at 1.
  destruct (truthy _); [discriminate|].
  unfold try_catch.
  destruct (bind (route _ _ _ _ _) _ w) as [[a|e'|] w']; [discriminate| |discriminate].
  destruct remaining as [models|]; [apply IH | discriminate].
Qed.

(** C2 as the code has it: a stored response that is truthy is returned at
    once, and the world (history, cache and cursor) is as it was. *)
Theorem cache_hit_returns_without_backend
  fuel configOrRole task inputs outputs outputFormat localOnly w modelInput remaining cached :
  normalize configOrRole task inputs outputs (or_default outputFormat (VStr "json_object"))
    = (modelInput, remaining) ->
  cache w !! hashQuery rt (VObj modelInput) = Some cached ->
  truthy cached = true ->
  aiTask rt backend (S fuel) configOrRole task inputs outputs outputFormat localOnly w
    = (Returns cached, w).
Proof.
  intros Hnorm Hcache Htruthy. cbn [aiTask]. rewrite Hnorm.
  unfold bind at 1, cache_get at 1. rewrite Hcache. cbn [default from_option id]. rewrite Htruthy.
  reflexivity.
Qed.

(** C8: a failed local attempt is written to the cache.  With [localOnly]
    set, the [null] that [callOllama] returns for a rejected exchange is
    stored under the request's fingerprint and returned. *)
Theorem failed_local_attempt_is_cached
  fuel configOrRole task inputs outputs outputFormat localOnly w modelInput remaining error :
  normalize configOrRole task inputs outputs (or_default outputFormat (VStr "json_object"))
    = (modelInput, remaining) ->
  truthy (default VUndefined (cache w !! hashQuery rt (VObj modelInput))) = false ->
  truthy (or_default localOnly (VBool false)) = true ->
  backend (trace w) (OllamaChat (ollama_request modelInput)) = Throw error ->
  aiTask rt backend (S fuel) configOrRole task inputs outputs outputFormat localOnly w
    = (Returns VNull,
       store (hashQuery rt (VObj modelInput)) VNull
         (log (Exchange (OllamaChat (ollama_request modelInput)) (Throw error)) w)).
Proof.
  intros Hnorm Hmiss Hlocal Hreply. cbn [aiTask]. rewrite Hnorm.
  unfold bind at 1, cache_get at 1. rewrite Hmiss.
  unfold route. rewrite Hlocal. unfold callOllama.
  unfold try_catch, bind, exchange. rewrite Hreply. reflexivity.
Qed.

(** *** The priority list, exhausted *)

Lemma attempt_rate_limited fuel arg s w error type :
  get_prop (field (VObj arg) "outputs") "type" = Normal type ->
  (forall h c, backend h c = Throw error) ->
  get_prop error "status" = Normal (VNum 429) ->
  exists request,
    callGeminiModel rt backend (S fuel) (model_arguments arg (VStr s)) w =
    (Throws error, log (Exchange request (Throw error)) w).
Proof.
  intros Htype Hbackend Hstatus. cbn [callGeminiModel].
  assert (Hprep : exists task request,
             prepare rt (model_arguments arg (VStr s)) = Normal (task, request)).
  { unfold prepare.
    change (field (VObj (model_arguments arg (VStr s))) "outputs")
      with (field (VObj arg) "outputs").
    rewrite Htype.
    change (model_of (model_arguments arg (VStr s))) with (VStr s).
    cbn [starts_with_gemma]. eauto. }
  destruct Hprep as (task & request & ->). exists request.
  unfold try_catch, bind, exchange. rewrite Hbackend, Hstatus. reflexivity.
Qed.

Lemma walk_exhausted fuel arg models w error type :
  Forall (fun modelConfig => exists s, field modelConfig "model" = VStr s) models ->
  get_prop (field (VObj arg) "outputs") "type" = Normal type ->
  (forall h c, backend h c = Throw error) ->
  get_prop error "status" = Normal (VNum 429) ->
  exists w',
    walk (fun model => callGeminiModel rt backend (S fuel) (model_arguments arg model))
         models w = (Returns VUndefined, w') /\ cache w' = cache w.
Proof.
  intros Hmodels Htype Hbackend Hstatus. revert w.
  induction Hmodels as [|modelConfig rest [s Hs] _ IH]; intros w; cbn [walk].
  - exists w. split; reflexivity.
  - rewrite Hs.
    destruct (attempt_rate_limited fuel arg s w error type Htype Hbackend Hstatus)
      as [request Hattempt].
    unfold try_catch at 1. rewrite Hattempt.
    unfold bind at 1, isRateLimitError. rewrite Hstatus. cbn [lift is_num Z.eqb Pos.eqb].
    unfold ret at 1.
    destruct (IH (log (Exchange request (Throw error)) w)) as (w' & Hw' & Hc).
    exists w'. split; [exact Hw' | exact Hc].
Qed.

Lemma geminiModels_named :
  Forall (fun modelConfig => exists s, field modelConfig "model" = VStr s) geminiModels.
Proof. repeat constructor; eexists; reflexivity. Qed.

(** C1: the priority list, exhausted, gives [undefined], and the dispatcher
    stores and returns it.  [callGemini] falls out of its loop without a
    value, and [responseContent === null] does not hold of [undefined]. *)
Theorem exhausted_priority_list_returns_undefined
  fuel configOrRole task inputs outputs outputFormat localOnly w modelInput remaining
  error type :
  normalize configOrRole task inputs outputs (or_default outputFormat (VStr "json_object"))
    = (modelInput, remaining) ->
  truthy (default VUndefined (cache w !! hashQuery rt (VObj modelInput))) = false ->
  truthy (or_default localOnly (VBool false)) = false ->
  field (VObj modelInput) "provider" = VUndefined ->
  field (VObj modelInput) "model" = VUndefined ->
  truthy (param (VObj modelInput) "bestModel" (VBool false)) = false ->
  get_prop (field (VObj modelInput) "outputs") "type" = Normal type ->
  (forall h c, backend h c = Throw error) ->
  get_prop error "status" = Normal (VNum 429) ->
  exists w',
    aiTask rt backend (S (S (S fuel))) configOrRole task inputs outputs outputFormat
      localOnly w = (Returns VUndefined, w') /\
    cache w' = <[hashQuery rt (VObj modelInput) := VUndefined]> (cache w).
Proof.
  intros Hnorm Hmiss Hlocal Hprovider Hmodel Hbest Htype Hbackend Hstatus.
  remember (S fuel) as n eqn:En.
  cbn [aiTask]. rewrite Hnorm.
  unfold bind at 1, cache_get at 1. rewrite Hmiss.
  unfold route. rewrite Hlocal, Hprovider, Hmodel. cbn [truthy negb orb].
  cbn [callGemini]. unfold param at 1. rewrite Hmodel. cbn [is_null negb orb].
  rewrite Hbest.
  destruct (walk_exhausted fuel modelInput
              (drop (lastRateLimitedGeminiModelIndex w) geminiModels) w error type)
    as (w' & Hwalk & Hcache); try assumption.
  { apply Forall_drop, geminiModels_named. }
  exists (store (hashQuery rt (VObj modelInput)) VUndefined w'). split.
  - unfold try_catch, bind at 1 2 3, ret at 1. unfold priority_list. subst n.
    rewrite Hwalk. reflexivity.
  - cbn [store cache]. now rewrite Hcache.
Qed.

(** *** Which adapter is asked first *)

Lemma begins_exchange w c : begins backend w c (exchange backend c).
Proof. unfold begins, exchange. cbn. reflexivity. Qed.

Lemma begins_bind {A C} w c (m : M A) (k : A -> M C) :
  begins backend w c m -> (forall a, sat (grows (fun _ => True)) any (k a)) ->
  begins backend w c (bind m k).
Proof.
  intros Hm Hk. unfold begins, bind in *.
  destruct (m w) as [[a|e|] w1]; cbn in *; try assumption.
  etransitivity; [exact Hm | apply Hk].
Qed.

Lemma begins_try_catch {A} w c (m : M A) (h : value -> M A) :
  begins backend w c m -> (forall e, sat (grows (fun _ => True)) any (h e)) ->
  begins backend w c (try_catch m h).
Proof.
  intros Hm Hh. unfold begins, try_catch in *.
  destruct (m w) as [[a|e|] w1]; cbn in *; try assumption.
  etransitivity; [exact Hm | apply Hh].
Qed.

Lemma includes_nonempty p s : includes (String p EmptyString) s = true -> s <> EmptyString.
Proof. intros H ->. discriminate. Qed.


(** *** The queue of an explicit array *)

Lemma set_field_fresh k v fs :
  ~ In k (map fst fs) -> set_field k v fs = fs ++ [(k, v)].
Proof.
  induction fs as [|[k' v'] r IH]; intros H; [reflexivity|].
  cbn. destruct (String.eqb_spec k' k) as [->|Hne].
  - exfalso. apply H. now left.
  - rewrite IH; [reflexivity|]. intros Hin. apply H. now right.
Qed.

Lemma set_field_keys k v fs :
  map fst (set_field k v fs) =
  if existsb (String.eqb k) (map fst fs) then map fst fs else map fst fs ++ [k].
Proof.
  induction fs as [|[k' v'] r IH]; [reflexivity|].
  cbn. rewrite (String.eqb_sym k k'). destruct (String.eqb_spec k' k) as [->|Hne].
  - reflexivity.
  - cbn. rewrite IH. now destruct (existsb _ _).
Qed.

Lemma existsb_eqb_In k ks : existsb (String.eqb k) ks = true <-> In k ks.
Proof.
  rewrite existsb_exists. split.
  - intros (x & Hin & Heq). apply String.eqb_eq in Heq. now subst.
  - intros H. exists k. split; [assumption | apply String.eqb_refl].
Qed.

Lemma set_field_NoDup k v fs :
  NoDup (map fst fs) -> NoDup (map fst (set_field k v fs)).
Proof.
  intros H. rewrite set_field_keys. destruct (existsb _ _) eqn:E; [assumption|].
  apply NoDup_app. split; [assumption|]. split; [|apply NoDup_singleton].
  intros x Hx Hk. apply list_elem_of_singleton in Hk as ->.
  apply list_elem_of_In, existsb_eqb_In in Hx. congruence.
Qed.

Lemma set_field_twice k v v' fs : set_field k v (set_field k v' fs) = set_field k v fs.
Proof.
  induction fs as [|[k' x] r IH]; cbn.
  - now rewrite String.eqb_refl.
  - destruct (String.eqb_spec k' k) as [->|Hne]; cbn.
    + now rewrite String.eqb_refl.
    + destruct (String.eqb_spec k' k); [contradiction|]. now rewrite IH.
Qed.

Lemma assoc_set_field k v fs : assoc k (set_field k v fs) = Some v.
Proof.
  induction fs as [|[k' x] r IH]; cbn.
  - now rewrite String.eqb_refl.
  - destruct (String.eqb_spec k' k) as [->|Hne]; cbn.
    + now rewrite String.eqb_refl.
    + destruct (String.eqb_spec k' k); [contradiction|]. exact IH.
Qed.

Lemma fold_set_field_append r : forall t,
  NoDup (map fst (t ++ r)) ->
  fold_left (fun t (kv : string * value) => set_field (fst kv) (snd kv) t) r t = t ++ r.
Proof.
  induction r as [|[k v] r IH]; intros t Hnd; cbn.
  - now rewrite app_nil_r.
  - rewrite set_field_fresh.
    + rewrite IH; [now rewrite <- app_assoc|]. now rewrite <- app_assoc.
    + rewrite map_app in Hnd. apply NoDup_app in Hnd as (_ & Hdisj & _).
      intros Hin. apply (Hdisj k); [now apply list_elem_of_In|]. cbn. left.
Qed.

Lemma set_field_shaped k v fs : request_shaped fs -> request_shaped (set_field k v fs).
Proof.
  intros [Hnd (r & t & i & o & f & rest & ->)]. split; [now apply set_field_NoDup|].
  cbn [app set_field].
  repeat match goal with
         | |- context [String.eqb ?a k] =>
             destruct (String.eqb_spec a k) as [<-|?]; [do 6 eexists; reflexivity|]
         end.
  do 6 eexists. reflexivity.
Qed.

Lemma fold_set_field_shaped src : forall t,
  request_shaped t ->
  request_shaped (fold_left (fun t (kv : string * value) => set_field (fst kv) (snd kv) t) src t).
Proof.
  induction src as [|[k v] src IH]; intros t Ht; cbn; [assumption|].
  apply IH. now apply set_field_shaped.
Qed.

Lemma normalize_shaped configOrRole task inputs outputs outputFormat modelInput remaining :
  normalize configOrRole task inputs outputs outputFormat = (modelInput, remaining) ->
  request_shaped modelInput.
Proof.
  unfold normalize.
  set (base := [("role", _); ("task", task); ("inputs", inputs); ("outputs", outputs);
                ("outputFormat", outputFormat)]).
  assert (Hbase : request_shaped base).
  { split; [|unfold base; exists (if String.eqb (typeof configOrRole) "string"
                                    then configOrRole else VNull); eauto 10].
    unfold base. cbn. apply NoDup_ListNoDup.
    repeat (apply List.NoDup_cons; [cbn; intuition discriminate|]). apply List.NoDup_nil. }
  destruct (_ && _).
  - assert (Hassign : request_shaped (assign base configOrRole))
      by apply fold_set_field_shaped, Hbase.
    destruct (field _ "model"); intros [= <- <-]; try assumption.
    now apply set_field_shaped.
  - now intros [= <- <-].
Qed.

(** The request the dispatcher builds when it runs again: the one it had, with
    the next model of the list. *)
Lemma normalize_next modelInput models :
  request_shaped modelInput ->
  normalize (VObj (set_field "model" (VArr models) modelInput))
    VUndefined VUndefined VUndefined (VStr "json_object")
  = (set_field "model" (hd VUndefined models) modelInput, Some (tl models)).
Proof.
  intros Hshape.
  assert (Hset : request_shaped (set_field "model" (VArr models) modelInput))
    by now apply set_field_shaped.
  destruct Hset as [Hnd (r & t & i & o & f & rest & Heq)].
  unfold normalize. cbn [typeof String.eqb Ascii.eqb Bool.eqb andb negb is_null].
  assert (Hassign :
    assign [("role", VNull); ("task", VUndefined); ("inputs", VUndefined);
            ("outputs", VUndefined); ("outputFormat", VStr "json_object")]
           (VObj (set_field "model" (VArr models) modelInput))
    = set_field "model" (VArr models) modelInput).
  { unfold assign. cbn [entries]. rewrite Heq in *. cbn.
    apply (fold_set_field_append rest
             [("role", r); ("task", t); ("inputs", i); ("outputs", o); ("outputFormat", f)]).
    exact Hnd. }
  rewrite Hassign. unfold field. rewrite assoc_set_field. cbn [default from_option id].
  now rewrite set_field_twice.
Qed.


End Requests.

End DispatchFacts.

(** ** The message builder *)
Module BuilderFacts.
Import Schema Dispatch.
Import Builder.
Local Open Scope B_scope.
Local Open Scope list_scope.

Lemma reads_bret {A} (a : A) : reads (bret a).
Proof. now intros h. Qed.
Lemma reads_bthrow {A} e : reads (@bthrow A e).
Proof. now intros h. Qed.
Lemma reads_blift {A} (c : completion A) : reads (blift c).
Proof. now intros h. Qed.

Lemma reads_bbind {A C} (m : B A) (k : A -> B C) :
  reads m -> (forall a, reads (k a)) -> reads (bbind m k).
Proof.
  intros Hm Hk h. unfold bbind. specialize (Hm h).
  destruct (m h) as [[a|e] h']; cbn in *; subst; [apply Hk | reflexivity].
Qed.

Lemma reads_read_prop v k : reads (read_prop v k).
Proof.
  intros h. unfold read_prop. destruct v; [reflexivity|].
  destruct (h !! l) as [[fs|items named]|]; try reflexivity.
  now destruct (String.eqb k "length").
Qed.

Lemma reads_read_value v : reads (read_value v).
Proof. intros h. unfold read_value. now destruct (snapshot _ _ _). Qed.

Lemma reads_items_of v : reads (items_of v).
Proof.
  intros h. unfold items_of. destruct v as [v|l]; [now destruct v|].
  now destruct (h !! l) as [[|]|].
Qed.

Section Frame.
Context (rt : Runtime) (sharp : value -> bool -> completion string).

Lemma reads_number_of v : reads (number_of rt v).
Proof.
  destruct v; cbn [number_of]; [apply reads_bret|].
  apply reads_bbind; [apply reads_read_value | intros; apply reads_bret].
Qed.

Lemma reads_image_count inputs : reads (image_count rt inputs).
Proof.
  unfold image_count. apply reads_bbind; [apply reads_read_prop|]. intros listed.
  destruct (truthy_h listed); [|apply reads_bret].
  apply reads_bbind; [apply reads_read_prop|]. intros len.
  apply reads_bbind; [apply reads_number_of | intros; apply reads_bret].
Qed.

(** Where a computation goes on from an unchanged store. *)
Lemma bbind_frame {A C} (m : B A) (k : A -> B C) h :
  reads m -> (forall a, fst (m h) = Normal a -> snd (k a h) = h) ->
  snd (bbind m k h) = h.
Proof.
  intros Hm Hk. unfold bbind. specialize (Hm h).
  destruct (m h) as [[a|e] h'] eqn:E; cbn in *; subst; [now apply Hk | reflexivity].
Qed.


Lemma reads_each {A C} (f : A -> B C) l : (forall x, reads (f x)) -> reads (each f l).
Proof.
  intros Hf. induction l as [|x r IH]; cbn [each]; [apply reads_bret|].
  apply reads_bbind; [apply Hf|]. intros y.
  apply reads_bbind; [apply IH | intros; apply reads_bret].
Qed.

Lemma reads_openAIImageMessageBuilder text images :
  reads (openAIImageMessageBuilder rt text images).
Proof.
  unfold openAIImageMessageBuilder. apply reads_bbind.
  { destruct images; [apply reads_bret | apply reads_items_of]. }
  intros items. apply reads_bbind; [|intros; apply reads_bret].
  apply reads_each. intros x.
  apply reads_bbind; [apply reads_read_value | intros; apply reads_bret].
Qed.

Lemma reads_ollamaImageMessageBuilder text images :
  reads (ollamaImageMessageBuilder text images).
Proof. apply reads_bret. Qed.

End Frame.

End BuilderFacts.

(** ** The statements at concrete requests *)
Module Examples.
Import Schema Dispatch Sample SchemaFacts DispatchFacts.
Local Open Scope list_scope.

(** *** An optional member *)



(** *** A primed cache *)

Lemma cache_hit_witness :
  call_with always_limited 1 (VObj bare) VUndefined primed
  = (Returns (VObj [("result", VNum 3)]), primed).
Proof.
  unfold call_with.
  eapply (cache_hit_returns_without_backend runtime always_limited 0).
  - reflexivity.
  - vm_compute. reflexivity.
  - reflexivity.
Defined.

(** A stored response that is the empty text is not served: the first call
    stores it, the second asks the backend again. *)
Lemma empty_text_is_not_served :
  let first := call_with (always_text "") 3 as_text VUndefined empty_world in
  let second := call_with (always_text "") 3 as_text VUndefined (snd first) in
  fst first = Returns (VStr "") /\
  map snd (map_to_list (cache (snd first))) = [VStr ""] /\
  models_asked (trace (snd first)) = [VStr "gemini-3-flash"] /\
  models_asked (trace (snd second)) = [VStr "gemini-3-flash"; VStr "gemini-3-flash"].
Proof. vm_compute. repeat split. Qed.


(** *** The priority list, every model rate-limited *)

Lemma exhausted_priority_list_witness :
  exists w',
    call_with always_limited 3 (VObj bare) VUndefined empty_world = (Returns VUndefined, w') /\
    cache w' = <[sum_key := VUndefined]> (cache empty_world).
Proof.
  unfold call_with.
  eapply (exhausted_priority_list_returns_undefined runtime always_limited 0
            (VObj bare) VUndefined VUndefined VUndefined VUndefined VUndefined empty_world
            _ _ (rate_limit_error "5s")).
  - reflexivity.
  - reflexivity.
  - reflexivity.
  - reflexivity.
  - reflexivity.
  - reflexivity.
  - reflexivity.
  - reflexivity.
  - reflexivity.
Defined.

(** The requests of that call: one for each model of the list. *)
Example exhausted_priority_list_requests :
  models_asked (trace (snd (call_with always_limited 3 (VObj bare) VUndefined empty_world)))
  = map VStr ["gemini-3-flash"; "gemini-2.5-flash"; "gemini-2.5-flash-lite"].
Proof. vm_compute. reflexivity. Qed.


(** *** A queue, every request rejected *)

(** An emptied queue is a truthy [remainingModels]: the handler of [aiTask]
    calls [aiTask] again, the request (now without a model) goes to the
    priority list, fails, and the handler is where it was.  The call does
    not return. *)
Lemma emptied_again : set_field "model" (VArr []) after_queue = emptied.
Proof. reflexivity. Qed.

Lemma after_queue_fails fuel w :
  lastRateLimitedGeminiModelIndex w = 0%nat ->
  exists r w', route runtime always_failing fuel (VBool false) after_queue w = (r, w') /\
    (r = Pending \/ r = Throws (VStr "Could not generate answer")) /\
    cache w' = cache w /\ lastRateLimitedGeminiModelIndex w' = 0%nat.
Proof.
  intros Hc.
  change (route runtime always_failing fuel (VBool false) after_queue w)
    with (bind (callGemini runtime always_failing fuel after_queue)
            (fun responseContent =>
               if is_null responseContent then throw (VStr "Could not generate answer")
               else ret responseContent) w).
  destruct fuel as [|[|fuel]].
  - eexists _, _. split; [reflexivity|]. split; [now left|]. split; [reflexivity | exact Hc].
  - destruct w as [c i t]. cbn in Hc. subst i.
    eexists _, _. split; [vm_compute; reflexivity|]. split; [now left|]. split; reflexivity.
  - destruct (prepare runtime (model_arguments after_queue (VStr "gemini-3-flash")))
      as [[task request]|e] eqn:Hprep; [|discriminate].
    assert (E : callGemini runtime always_failing (S (S fuel)) after_queue w =
                (Returns VNull,
                 log (Exchange request (Throw (VObj [("status", VNum 500)]))) w)).
    { remember (S fuel) as n eqn:En. cbn [callGemini].
      change (negb (is_null (param (VObj after_queue) "model" VNull))
              || truthy (param (VObj after_queue) "bestModel" (VBool false))) with false.
      cbv iota. unfold priority_list. rewrite Hc. cbn [drop geminiModels walk].
      change (field (VObj [("model", VStr "gemini-3-flash")]) "model")
        with (VStr "gemini-3-flash").
      unfold try_catch at 1. subst n.
      erewrite callGeminiModel_unknown_error; [reflexivity | exact Hprep | reflexivity..]. }
    unfold bind. rewrite E.
    eexists _, _. split; [reflexivity|]. split; [now right|]. split; [reflexivity | exact Hc].
Qed.

Lemma emptied_queue_is_tried_again fuel w :
  cache w = ∅ -> lastRateLimitedGeminiModelIndex w = 0%nat ->
  fst (aiTask runtime always_failing fuel (VObj emptied)
         VUndefined VUndefined VUndefined VUndefined VUndefined w) = Pending.
Proof.
  revert w. induction fuel as [|fuel IH]; intros w Hcache Hcursor; [reflexivity|].
  cbn [aiTask].
  change (normalize _ _ _ _ _) with (after_queue, Some (@nil value)).
  cbv beta iota.
  unfold bind at 1, cache_get at 1. rewrite Hcache, lookup_empty.
  cbn [default from_option id truthy or_default].
  destruct (after_queue_fails fuel w Hcursor) as (r & w' & Hroute & Hr & Hc' & Hi').
  unfold try_catch, bind at 1. rewrite Hroute.
  destruct Hr as [-> | ->]; [reflexivity|].
  rewrite emptied_again. apply IH; congruence.
Qed.

Lemma exhausted_queue_does_not_return fuel :
  fst (call_with always_failing fuel single VUndefined empty_world) = Pending.
Proof.
  destruct fuel as [|fuel]; [reflexivity|].
  unfold call_with. cbn [aiTask].
  change (normalize _ _ _ _ _) with (first_of_single, Some (@nil value)).
  cbv beta iota.
  unfold bind at 1, cache_get at 1. cbn [cache empty_world]. rewrite lookup_empty.
  cbn [default from_option id truthy or_default].
  unfold try_catch, bind at 1.
  destruct (route runtime always_failing fuel (VBool false) first_of_single empty_world)
    as [r w'] eqn:Hroute.
  assert (r = Throws (VStr "Could not generate answer") /\ cache w' = ∅ /\
          lastRateLimitedGeminiModelIndex w' = 0%nat) as (-> & Hc & Hi).
  { revert Hroute. vm_compute. intros [= <- <-]. repeat split. }
  apply emptied_queue_is_tried_again; assumption.
Qed.

(** The requests of such a call, as far as eight levels go. *)
Example exhausted_queue_requests :
  models_asked (trace (snd (call_with always_failing 8 single VUndefined empty_world)))
  = VStr "x/A" :: repeat (VStr "gemini-3-flash") 5.
Proof. vm_compute. reflexivity. Qed.

(** *** A reply that does not parse *)

Lemma malformed_output_witness :
  exists request,
    prepare runtime bare = Normal (VStr "sum", request) /\
    callGeminiModel runtime (always_text "not json") 1 bare empty_world =
    (Returns VNull, log (Exchange request (Normal (generated "not json"))) empty_world).
Proof.
  eexists. split; [reflexivity|].
  eapply (malformed_output_is_not_retried runtime (always_text "not json") 0 bare empty_world).
  - reflexivity.
  - reflexivity.
  - reflexivity.
  - reflexivity.
  - reflexivity.
Defined.

(** The same through the dispatcher: one request, then an error, since the
    result is [null]. *)
Example malformed_output_through_dispatcher :
  let run := call_with (always_text "not json") 3 (for_model (VStr "gemini-3-flash"))
               VUndefined empty_world in
  length (models_asked (trace (snd run))) = 1%nat /\
  sleeps (trace (snd run)) = [] /\
  cache (snd run) = ∅.
Proof. vm_compute. repeat split. Qed.

(** *** A failed local attempt *)

Lemma failed_local_attempt_witness :
  exists request,
    call_with always_limited 1 (VObj bare) (VBool true) empty_world =
    (Returns VNull,
     Dispatch.store sum_key VNull
       (log (Exchange (OllamaChat request) (Throw (rate_limit_error "5s"))) empty_world)).
Proof.
  eexists. unfold call_with.
  eapply (failed_local_attempt_is_cached runtime always_limited 0).
  - reflexivity.
  - reflexivity.
  - reflexivity.
  - reflexivity.
Defined.

(** The stored [null] is what the cache holds afterwards. *)
Example failed_local_attempt_cache :
  cache (snd (call_with always_limited 1 (VObj bare) (VBool true) empty_world)) !! sum_key
  = Some VNull.
Proof. vm_compute. reflexivity. Qed.


(** *** A namespaced model *)




(** *** The cursor over two calls *)

(** Two tasks in a row, the first model of the list rate-limited on both:
    the second call starts at the first model as the first did, and the
    cursor is 0 after both. *)
Example second_call_starts_at_first_model :
  let first := call_with limited_on_first 3 (VObj bare) VUndefined empty_world in
  let second := call_with limited_on_first 3 other_task VUndefined (snd first) in
  fst first = Returns (VObj []) /\ fst second = Returns (VObj []) /\
  models_asked (trace (snd second)) =
    map VStr ["gemini-3-flash"; "gemini-2.5-flash"; "gemini-3-flash"; "gemini-2.5-flash"] /\
  lastRateLimitedGeminiModelIndex (snd first) = 0%nat /\
  lastRateLimitedGeminiModelIndex (snd second) = 0%nat.
Proof. vm_compute. repeat split. Qed.

(** *** A pinned model, rate-limited twice *)

Lemma limited_twice_has_status h c e : limited_twice h c = Throw e -> has_status e.
Proof.
  unfold limited_twice. destruct (_ <? _)%nat; [|discriminate].
  intros [= <-]. eexists; reflexivity.
Qed.




(** *** A queue of models *)


(** The queue of the names ["A"], ["B"], ["C"] goes to the Gemini adapter one
    name at a time, each as a pinned model. *)
Lemma limited_on_A_has_status h c e : limited_on_A h c = Throw e -> has_status e.
Proof.
  unfold limited_on_A. destruct (is_str _ _); [|discriminate].
  intros [= <-]. eexists; reflexivity.
Qed.

Lemma waits_on_A fuel w :
  fst (callGemini runtime limited_on_A fuel (gemini_arguments first_of_queue) w) = Pending.
Proof.
  revert w. induction fuel as [fuel IH] using lt_wf_ind. intros w.
  destruct fuel as [|[|fuel]]; [reflexivity | reflexivity |].
  erewrite callGemini_retry; [| reflexivity..].
  rewrite gemini_arguments_again. apply IH. lia.
Qed.

Lemma first_of_queue_waits fuel w :
  fst (callGemini runtime limited_on_A fuel first_of_queue w) = Pending.
Proof.
  destruct fuel as [|[|fuel]]; [reflexivity | reflexivity |].
  erewrite callGemini_retry; [| reflexivity..]. apply waits_on_A.
Qed.


Lemma queue_waits fuel :
  let run := call_with limited_on_A fuel queue VUndefined empty_world in
  fst run = Pending /\ Forall (on_model (VStr "A")) (trace (snd run)).
Proof.
  destruct fuel as [|fuel]; [split; [reflexivity | constructor]|].
  assert (E : call_with limited_on_A (S fuel) queue VUndefined empty_world =
              (Pending, snd (callGemini runtime limited_on_A fuel first_of_queue empty_world))).
  { unfold call_with. cbn [aiTask].
    change (normalize _ _ _ _ _) with (first_of_queue, Some [VStr "B"; VStr "C"]).
    cbv beta iota.
    unfold bind at 1, cache_get at 1. cbn [cache empty_world]. rewrite lookup_empty.
    cbn [default from_option id truthy].
    unfold try_catch, bind, route. cbn [or_default truthy].
    change (field (VObj first_of_queue) "provider") with VUndefined.
    change (field (VObj first_of_queue) "model") with (VStr "A").
    cbv beta iota zeta. change (truthy (VStr "A")) with true.
    change (model_includes limited_on_A (VStr "A") "/") with (@ret bool false).
    change (truthy VUndefined) with false.
    unfold bind, ret. cbv beta iota. cbn [negb orb].
    pose proof (first_of_queue_waits fuel empty_world) as H.
    destruct (callGemini runtime limited_on_A fuel first_of_queue empty_world) as [r w'].
    cbn in H. subst r. reflexivity. }
  cbv zeta. rewrite E. split; [reflexivity|].
  destruct (proj1 (callGemini_one_model runtime limited_on_A limited_on_A_has_status
                     fuel first_of_queue eq_refl empty_world)) as (new & Hnew & Hall).
  cbn [snd]. rewrite Hnew. exact Hall.
Qed.



End Examples.

(** ** The message builder on concrete stores *)
Module BuilderExamples.
Import Schema Dispatch Builder Sample BuilderFacts.
Local Open Scope list_scope.



End BuilderExamples.

(** ** The dispatcher and the adapters, further *)
Module AdapterFacts.
Import Schema Dispatch Notions Sample DispatchFacts.
Local Open Scope M_scope.
Local Open Scope list_scope.

#[local] Existing Instance same_cache_preorder.
#[local] Existing Instance same_cursor_preorder.
#[local] Existing Instance grows_preorder.

Section Dispatcher.
Context (rt : Runtime) (backend : list event -> call -> completion value).

(** *** How a call of the dispatcher ends *)

(** X1.  No exception leaves [aiTask]: a call returns a value, or is still
    running when the depth it was given is used up.  What the routing and
    the adapters throw is caught by the [catch] of [aiTask], whose handler
    returns [null] or calls [aiTask] for the rest of the queue. *)
Theorem aiTask_returns_or_pends
  fuel configOrRole task inputs outputs outputFormat localOnly w :
  let r := fst (aiTask rt backend fuel configOrRole task inputs outputs outputFormat
                  localOnly w) in
  r = Pending \/ exists v, r = Returns v.
Proof.
  cbv zeta.
  pose proof (aiTask_does_not_throw rt backend fuel configOrRole task inputs outputs
                outputFormat localOnly w) as H.
  destruct (fst _) as [v|e|]; [right; eauto | now destruct (H e) | now left].
Qed.

Lemma quiet_ret {A} (a : A) : quiet (ret a).
Proof. intros w. split; [reflexivity | discriminate]. Qed.

Lemma quiet_throw {A} e : quiet (@throw A e).
Proof. intros w. split; [reflexivity | discriminate]. Qed.

Lemma quiet_lift {A} (c : completion A) : quiet (lift c).
Proof. destruct c; [apply quiet_ret | apply quiet_throw]. Qed.

Lemma quiet_bind {A C} (m : M A) (k : A -> M C) :
  quiet m -> (forall a, quiet (k a)) -> quiet (bind m k).
Proof.
  intros Hm Hk w. unfold bind. destruct (Hm w) as [Hw Hp].
  destruct (m w) as [[a|e|] w']; cbn in *; subst.
  - apply Hk.
  - split; [reflexivity | discriminate].
  - now destruct Hp.
Qed.

Ltac quiet_step :=
  match goal with
  | |- forall _, _ => intros
  | |- quiet (ret _) => apply quiet_ret
  | |- quiet (throw _) => apply quiet_throw
  | |- quiet (lift _) => apply quiet_lift
  | |- quiet (bind _ _) => apply quiet_bind
  | |- quiet (if ?b then _ else _) => destruct b
  | |- quiet (match ?x with _ => _ end) => destruct x
  end.

(** An exchange, then a quiet computation, all in a [try] whose handler
    returns a value: the call returns, and the exchange is all it did. *)
Lemma guarded_exchange_returns {A} c (k : value -> M A) (d : A) w :
  (forall v, quiet (k v)) ->
  exists a,
    try_catch (bind (exchange backend c) k) (fun _ => ret d) w =
    (Returns a, log (Exchange c (backend (trace w) c)) w).
Proof.
  intros Hk. unfold try_catch, bind, exchange.
  destruct (backend (trace w) c) as [v|e]; [|eauto].
  destruct (Hk v (log (Exchange c (Normal v)) w)) as [Hw Hp].
  destruct (k v _) as [[a|e|] w']; cbn in *; subst; [eauto | eauto | now destruct Hp].
Qed.

(** The local adapter returns: with its result, or with [null] for whatever
    went wrong; and its one exchange is with Ollama. *)
Lemma callOllama_returns arg w :
  exists v,
    callOllama rt backend arg w =
    (Returns v,
     log (Exchange (OllamaChat (ollama_request arg))
            (backend (trace w) (OllamaChat (ollama_request arg)))) w).
Proof. unfold callOllama. apply guarded_exchange_returns. repeat quiet_step. Qed.

(** A local call asks Ollama and nobody else, once at most, and returns:
    the stored response when it is truthy, else what [callOllama] gave,
    written to the cache under the request's fingerprint. *)
Lemma local_call_returns
  fuel configOrRole task inputs outputs outputFormat localOnly w :
  truthy (or_default localOnly (VBool false)) = true ->
  let modelInput :=
    fst (normalize configOrRole task inputs outputs
           (or_default outputFormat (VStr "json_object"))) in
  let hash := hashQuery rt (VObj modelInput) in
  let request := OllamaChat (ollama_request modelInput) in
  exists v,
    aiTask rt backend (S fuel) configOrRole task inputs outputs outputFormat localOnly w
    = (Returns v,
       if truthy (default VUndefined (cache w !! hash)) then w
       else store hash v (log (Exchange request (backend (trace w) request)) w)).
Proof.
  intros Hlocal. cbv zeta. cbn [aiTask].
  destruct (normalize _ _ _ _ _) as [modelInput remaining]. cbn [fst].
  unfold bind at 1, cache_get at 1.
  destruct (truthy (default VUndefined _)); [eexists; reflexivity|].
  unfold route. rewrite Hlocal.
  destruct (callOllama_returns modelInput w) as [v Hv].
  exists v. unfold try_catch, bind. rewrite Hv. reflexivity.
Qed.

(** X2.  [aiTaskJSONLocal] returns after one exchange at most, and that
    one is with Ollama: whatever the first argument is (a role, or a
    configuration with a provider, a model or a queue of models), no other
    adapter is asked.  On a cache miss the result, also a [null], is stored
    under the request's fingerprint. *)
Theorem aiTaskJSONLocal_asks_ollama_once fuel role task inputs outputs w :
  let modelInput := fst (normalize role task inputs outputs (VStr "json_object")) in
  let hash := hashQuery rt (VObj modelInput) in
  let request := OllamaChat (ollama_request modelInput) in
  exists v,
    aiTaskJSONLocal rt backend (S fuel) role task inputs outputs w
    = (Returns v,
       if truthy (default VUndefined (cache w !! hash)) then w
       else store hash v (log (Exchange request (backend (trace w) request)) w)).
Proof.
  exact (local_call_returns fuel role task inputs outputs (VStr "json_object")
           (VBool true) w eq_refl).
Qed.

(** *** The OpenAI adapters *)

Lemma callOpenAI_returns baseURL arg w :
  exists v,
    _callOpenAI rt backend baseURL arg w =
    (Returns v,
     log (Exchange (Chat baseURL (chat_request arg))
            (backend (trace w) (Chat baseURL (chat_request arg)))) w).
Proof. unfold _callOpenAI. apply guarded_exchange_returns. repeat quiet_step. Qed.


Lemma callOpenAI_content baseURL arg w response content :
  backend (trace w) (Chat baseURL (chat_request arg)) = Normal response ->
  content_of response = Normal content ->
  _callOpenAI rt backend baseURL arg w =
  (Returns
     match JSON_parse rt (to_string rt content) with
     | Some v => v
     | None =>
         match content with
         | VStr s => default VUndefined (JSON_parse rt (strip_fences s))
         | _ => VUndefined
         end
     end,
   log (Exchange (Chat baseURL (chat_request arg)) (Normal response)) w).
Proof.
  intros Hreply Hcontent. unfold _callOpenAI, try_catch, bind at 1, exchange.
  rewrite Hreply. unfold content_of in Hcontent. unfold bind, lift.
  destruct (get_prop response "choices") as [choices|]; [|discriminate].
  unfold ret at 1. cbv beta iota.
  destruct (get_index choices 0) as [choice|]; [|discriminate].
  unfold ret at 1. cbv beta iota.
  destruct (get_prop choice "message") as [message|]; [|discriminate].
  unfold ret at 1. cbv beta iota.
  rewrite Hcontent. unfold ret at 1. cbv beta iota.
  destruct (JSON_parse rt (to_string rt content)); [reflexivity|].
  destruct content; try reflexivity.
  destruct (JSON_parse rt (strip_fences s)); reflexivity.
Qed.

(** X4.  A completion whose content is no JSON text, with its code fences or
    without, makes [_callOpenAI] return [undefined]: not [null], and no
    exception.  The content is parsed whatever the output format is, so a
    plain text asked for with the format ["text"] ends so. *)
Theorem unparsable_completion_gives_undefined baseURL arg w response s :
  backend (trace w) (Chat baseURL (chat_request arg)) = Normal response ->
  content_of response = Normal (VStr s) ->
  JSON_parse rt s = None ->
  JSON_parse rt (strip_fences s) = None ->
  _callOpenAI rt backend baseURL arg w =
  (Returns VUndefined, log (Exchange (Chat baseURL (chat_request arg)) (Normal response)) w).
Proof.
  intros Hreply Hcontent Hparse Hstripped.
  rewrite (callOpenAI_content baseURL arg w response _ Hreply Hcontent).
  cbn [to_string]. rewrite Hparse, Hstripped. reflexivity.
Qed.

(** The fences around a JSON text. *)
Lemma startsWith_append p r : startsWith p (p ++ r) = true.
Proof.
  induction p as [|a p IH]; [reflexivity|].
  cbv beta iota delta [String.append]. fold String.append.
  cbn [startsWith]. now rewrite Ascii.eqb_refl.
Qed.

Lemma substring_all s : String.substring 0 (String.length s) s = s.
Proof. induction s as [|a s IH]; cbn; [reflexivity | now rewrite IH]. Qed.

Lemma substring_after p r :
  String.substring (String.length p) (String.length (p ++ r) - String.length p) (p ++ r) = r.
Proof.
  induction p as [|a p IH].
  - cbv beta iota delta [String.append]. cbn [String.length].
    rewrite Nat.sub_0_r. apply substring_all.
  - cbv beta iota delta [String.append]. fold String.append. cbn [String.length String.substring].
    exact IH.
Qed.

Lemma length_append b p : String.length (b ++ p) = (String.length b + String.length p)%nat.
Proof.
  induction b as [|a b IH]; [reflexivity|].
  cbv beta iota delta [String.append]. fold String.append. cbn [String.length]. now rewrite IH.
Qed.

Lemma substring_before b p :
  String.substring 0 (String.length (b ++ p) - String.length p) (b ++ p) = b.
Proof.
  rewrite length_append, Nat.add_sub.
  induction b as [|a b IH].
  - cbv beta iota delta [String.append]. cbn [String.length]. now destruct p.
  - cbv beta iota delta [String.append]. fold String.append. cbn [String.length String.substring].
    now rewrite IH.
Qed.

Lemma endsWith_append b p : endsWith p (b ++ p) = true.
Proof.
  induction b as [|a b IH].
  - cbv beta iota delta [String.append]. destruct p; cbn [endsWith]; now rewrite String.eqb_refl.
  - cbv beta iota delta [String.append]. fold String.append. cbn [endsWith].
    now rewrite IH, orb_true_r.
Qed.

Lemma strip_fences_fenced body : strip_fences ("```json" ++ body ++ "```") = body.
Proof.
  unfold strip_fences. rewrite startsWith_append.
  change 7%nat with (String.length "```json"). rewrite substring_after.
  rewrite endsWith_append.
  change 3%nat with (String.length "```"). apply substring_before.
Qed.

(** X5.  A completion whose content is a JSON text between the fences
    [```json] and [```] is read as that text: when the content as it is does
    not parse, the fences are taken off and what is between them is parsed. *)
Theorem fenced_completion_is_read baseURL arg w response body v :
  backend (trace w) (Chat baseURL (chat_request arg)) = Normal response ->
  content_of response = Normal (VStr ("```json" ++ body ++ "```")) ->
  JSON_parse rt ("```json" ++ body ++ "```") = None ->
  JSON_parse rt body = Some v ->
  _callOpenAI rt backend baseURL arg w =
  (Returns v, log (Exchange (Chat baseURL (chat_request arg)) (Normal response)) w).
Proof.
  intros Hreply Hcontent Hparse Hbody.
  rewrite (callOpenAI_content baseURL arg w response _ Hreply Hcontent).
  cbn [to_string]. rewrite Hparse, strip_fences_fenced, Hbody. reflexivity.
Qed.

(** *** The Gemini adapter: answers, errors, the priority list *)

Lemma callGeminiModel_answer fuel arg w task request reply output :
  prepare rt arg = Normal (task, request) ->
  backend (trace w) request = Normal reply ->
  read_reply rt arg reply = Normal output ->
  callGeminiModel rt backend (S fuel) arg w =
  (Returns output, log (Exchange request (Normal reply)) w).
Proof.
  intros Hprep Hreply Hread. cbn [callGeminiModel]. rewrite Hprep.
  unfold try_catch at 1, bind at 1, exchange. rewrite Hreply.
  unfold read_reply in Hread. unfold bind, lift.
  destruct (get_prop reply "text") as [responseContent|]; [|discriminate].
  unfold ret at 1. cbv beta iota.
  destruct (get_prop reply "usageMetadata") as [usageMetadata|]; [|discriminate].
  unfold ret at 1. cbv beta iota. cbv zeta in Hread.
  destruct (is_str _ "json_object").
  - destruct (JSON_parse rt _) as [v|]; [|discriminate].
    unfold ret at 1. cbv beta iota.
    destruct (truthy _ && true).
    + rewrite Hread. reflexivity.
    + injection Hread as ->. reflexivity.
  - unfold ret at 1. cbv beta iota.
    destruct (truthy _ && false).
    + rewrite Hread. reflexivity.
    + injection Hread as ->. reflexivity.
Qed.

Lemma callGeminiModel_rate_limited fuel arg w task request error :
  prepare rt arg = Normal (task, request) ->
  backend (trace w) request = Throw error ->
  get_prop error "status" = Normal (VNum 429) ->
  callGeminiModel rt backend (S fuel) arg w =
  (Throws error, log (Exchange request (Throw error)) w).
Proof.
  intros Hprep Hreply Hstatus. cbn [callGeminiModel]. rewrite Hprep.
  unfold try_catch, bind, exchange. rewrite Hreply, Hstatus. reflexivity.
Qed.

(** The walk over the priority list, from its first model. *)
Lemma callGemini_walks fuel arg w :
  pinned arg = false ->
  lastRateLimitedGeminiModelIndex w = 0%nat ->
  callGemini rt backend (S fuel) arg w =
  walk (fun model => callGeminiModel rt backend fuel (model_arguments arg model))
       geminiModels w.
Proof.
  intros Hpin Hcursor. cbn [callGemini]. fold (pinned arg). rewrite Hpin.
  unfold priority_list. now rewrite Hcursor.
Qed.

(** X6.  The priority list is left only for a rate limit.  An error of the
    first model that is neither a rate limit (429) nor an overload (499,
    503) ends [callGemini] with [null]: the other models are not asked. *)
Theorem unknown_error_ends_the_priority_list fuel arg w task request error status :
  pinned arg = false ->
  lastRateLimitedGeminiModelIndex w = 0%nat ->
  prepare rt (model_arguments arg (VStr "gemini-3-flash")) = Normal (task, request) ->
  backend (trace w) request = Throw error ->
  get_prop error "status" = Normal status ->
  is_num status 429 || is_num status 499 || is_num status 503 = false ->
  callGemini rt backend (S (S fuel)) arg w =
  (Returns VNull, log (Exchange request (Throw error)) w).
Proof.
  intros Hpin Hcursor Hprep Hreply Hstatus Hunknown.
  apply orb_false_elim in Hunknown as [Hunknown H503].
  apply orb_false_elim in Hunknown as [H429 H499].
  rewrite (callGemini_walks _ _ _ Hpin Hcursor).
  cbn [walk geminiModels]. cbn [field assoc String.eqb Ascii.eqb Bool.eqb default from_option id].
  unfold try_catch at 1.
  now rewrite (callGeminiModel_unknown_error rt backend fuel _ w task request error status).
Qed.

(** X7.  A rate-limited model is passed over: when the first model of the
    list answers with a rate limit and the second with a reply, the result
    is what the second reply reads as, after one request to each. *)
Theorem rate_limited_model_is_passed_over
  fuel arg w task1 request1 error task2 request2 reply output :
  pinned arg = false ->
  lastRateLimitedGeminiModelIndex w = 0%nat ->
  prepare rt (model_arguments arg (VStr "gemini-3-flash")) = Normal (task1, request1) ->
  backend (trace w) request1 = Throw error ->
  get_prop error "status" = Normal (VNum 429) ->
  prepare rt (model_arguments arg (VStr "gemini-2.5-flash")) = Normal (task2, request2) ->
  backend (trace w ++ [Exchange request1 (Throw error)]) request2 = Normal reply ->
  read_reply rt (model_arguments arg (VStr "gemini-2.5-flash")) reply = Normal output ->
  callGemini rt backend (S (S fuel)) arg w =
  (Returns output,
   log (Exchange request2 (Normal reply)) (log (Exchange request1 (Throw error)) w)).
Proof.
  intros Hpin Hcursor Hprep1 Hreply1 Hstatus Hprep2 Hreply2 Hread.
  rewrite (callGemini_walks _ _ _ Hpin Hcursor).
  cbn [walk geminiModels]. cbn [field assoc String.eqb Ascii.eqb Bool.eqb default from_option id].
  unfold try_catch at 1.
  rewrite (callGeminiModel_rate_limited fuel _ w task1 request1 error Hprep1 Hreply1 Hstatus).
  unfold bind at 1, isRateLimitError. rewrite Hstatus. cbn [lift is_num Z.eqb Pos.eqb].
  unfold ret at 1. unfold try_catch at 1.
  now rewrite (callGeminiModel_answer fuel _ (log (Exchange request1 (Throw error)) w)
                 task2 request2 reply output Hprep2 Hreply2 Hread).
Qed.

(** *** The Gemini adapter: an overloaded model *)

Lemma callGeminiModel_overloaded fuel arg w task request error :
  prepare rt arg = Normal (task, request) ->
  backend (trace w) request = Throw error ->
  overloaded error ->
  callGeminiModel rt backend (S fuel) arg w =
  callGeminiModel rt backend fuel (retry_arguments arg task (next_overload arg))
    (log (Sleep (scale (next_overload arg) 10000 0)) (log (Exchange request (Throw error)) w)).
Proof.
  intros Hprep Hreply Hstatus. cbn [callGeminiModel]. rewrite Hprep.
  unfold try_catch, bind at 1, exchange. rewrite Hreply.
  unfold bind at 1, lift.
  destruct Hstatus as [-> | ->]; reflexivity.
Qed.

Lemma retry_arguments_prepare arg task request c :
  prepare rt arg = Normal (task, request) ->
  exists task' request', prepare rt (retry_arguments arg task c) = Normal (task', request').
Proof.
  unfold prepare.
  change (field (VObj (retry_arguments arg task c)) "outputs") with (field (VObj arg) "outputs").
  destruct (get_prop _ "type") as [type|]; [|discriminate].
  rewrite (model_of_again arg (retry_arguments arg task c) eq_refl).
  destruct (starts_with_gemma _) as [gemma|]; [|discriminate]. eauto.
Qed.

Lemma retry_arguments_counter arg task c :
  c <> VUndefined ->
  param (VObj (retry_arguments arg task c)) "OverloadErrorRetry" (VBool false) = c.
Proof. intros H. now apply param_of_defined. Qed.

(** The sleeps of a history. *)
Lemma sleeps_app h1 h2 : sleeps (h1 ++ h2) = sleeps h1 ++ sleeps h2.
Proof. apply omap_app. Qed.

Lemma overloaded_from fuel : forall arg w task request error n,
  (forall h c, backend h c = Throw error) ->
  overloaded error ->
  prepare rt arg = Normal (task, request) ->
  next_overload arg = VNum (Z.of_nat (S n)) ->
  let run := callGeminiModel rt backend fuel arg w in
  fst run = Pending /\
  sleeps (trace (snd run)) =
    sleeps (trace w) ++ map (fun i => VNum (Z.of_nat i * 10000)) (seq (S n) fuel).
Proof.
  induction fuel as [|fuel IH]; intros arg w task request error n Hbackend Hstatus Hprep Hnext.
  { split; [reflexivity|]. cbn. now rewrite app_nil_r. }
  cbv zeta.
  rewrite (callGeminiModel_overloaded fuel arg w task request error Hprep (Hbackend _ _) Hstatus).
  destruct (retry_arguments_prepare arg task request (next_overload arg) Hprep)
    as (task' & request' & Hprep').
  rewrite Hnext in *.
  destruct (IH (retry_arguments arg task (VNum (Z.of_nat (S n))))
               (log (Sleep (scale (VNum (Z.of_nat (S n))) 10000 0))
                  (log (Exchange request (Throw error)) w))
               task' request' error (S n) Hbackend Hstatus Hprep') as [Hp Hs].
  { unfold next_overload. rewrite retry_arguments_counter by discriminate.
    cbn [truthy increment]. destruct (Z.eqb_spec (Z.of_nat (S n)) 0) as [E|_]; [lia|].
    cbn [negb]. f_equal. lia. }
  split; [exact Hp|]. rewrite Hs. cbn [log trace].
  rewrite !sleeps_app, <- !app_assoc. cbn [seq map scale]. now f_equal.
Qed.

(** X8.  An overloaded model is asked again without end.  When every
    request is answered with status 499 or 503, a call of [callGeminiModel]
    is still running at every depth, and it has slept 10 s after the first
    request, 20 s after the second, and 10 s more after each one. *)
Theorem overloaded_model_is_retried_without_end fuel arg w task request error :
  (forall h c, backend h c = Throw error) ->
  overloaded error ->
  prepare rt arg = Normal (task, request) ->
  truthy (param (VObj arg) "OverloadErrorRetry" (VBool false)) = false ->
  let run := callGeminiModel rt backend fuel arg w in
  fst run = Pending /\
  sleeps (trace (snd run)) =
    sleeps (trace w) ++ map (fun i => VNum (Z.of_nat i * 10000)) (seq 1 fuel).
Proof.
  intros Hbackend Hstatus Hprep Hfresh.
  apply (overloaded_from fuel arg w task request error 0 Hbackend Hstatus Hprep).
  unfold next_overload. now rewrite Hfresh.
Qed.

Lemma append_assoc (a b c : string) : ((a ++ b) ++ c = a ++ (b ++ c))%string.
Proof.
  induction a as [|x a IH]; [reflexivity|].
  cbv beta iota delta [String.append]. fold String.append. now rewrite IH.
Qed.

(** X9.  For a gemma model the role is written into the task, and written
    again at each retry: [callGeminiModel] passes the rewritten task on to
    itself, so after one overload error the task of the second request
    carries the prefix [ROLE:..] twice. *)
Theorem gemma_retry_repeats_the_role fuel arg w task request error s :
  model_of arg = VStr s ->
  startsWith "gemma" s = true ->
  prepare rt arg = Normal (task, request) ->
  backend (trace w) request = Throw error ->
  overloaded error ->
  let prefix :=
    ("ROLE:" ++ to_string rt (field (VObj arg) "role") ++ newline ++ newline)%string in
  let again := retry_arguments arg task (next_overload arg) in
  task = VStr (prefix ++ to_string rt (field (VObj arg) "task"))%string /\
  callGeminiModel rt backend (S fuel) arg w =
    callGeminiModel rt backend fuel again
      (log (Sleep (scale (next_overload arg) 10000 0))
         (log (Exchange request (Throw error)) w)) /\
  exists request',
    prepare rt again =
    Normal (VStr (prefix ++ prefix ++ to_string rt (field (VObj arg) "task"))%string,
            request').
Proof.
  intros Hmodel Hgemma Hprep Hreply Hstatus prefix again.
  assert (Htask : task = VStr (prefix ++ to_string rt (field (VObj arg) "task"))%string).
  { revert Hprep. unfold prepare. destruct (get_prop _ "type"); [|discriminate].
    rewrite Hmodel. cbn [starts_with_gemma]. rewrite Hgemma.
    intros [= <- _]. unfold prefix. now rewrite !append_assoc. }
  split; [exact Htask|]. split.
  - now apply callGeminiModel_overloaded.
  - revert Hprep. unfold prepare.
    change (field (VObj again) "outputs") with (field (VObj arg) "outputs").
    destruct (get_prop _ "type"); [|discriminate]. intros _.
    unfold again. rewrite (model_of_again arg (retry_arguments arg task _) eq_refl).
    rewrite Hmodel. cbn [starts_with_gemma]. rewrite Hgemma.
    eexists. do 2 f_equal. rewrite Htask.
    change (field (VObj (retry_arguments arg ?t ?c)) "role") with (field (VObj arg) "role").
    change (field (VObj (retry_arguments arg ?t ?c)) "task") with t.
    cbn [to_string]. unfold prefix. now rewrite !append_assoc.
Qed.

(** *** Whom the adapters ask *)

Section Events.
Context (P : event -> Prop) (Hsleep : forall ms, P (Sleep ms)).

Lemma callGeminiModel_asks fuel : forall arg,
  (forall s p g r, P (Exchange (Generate (model_of arg) s p g) r)) ->
  sat (grows P) any (callGeminiModel rt backend fuel arg).
Proof.
  pose proof (logs_grows P) as HR.
  induction fuel as [|fuel IH]; intros arg Hmodel; cbn [callGeminiModel]; [sat_all|].
  assert (Hagain : forall t j o,
    sat (grows P) any
      (callGeminiModel rt backend fuel
         [("role", field (VObj arg) "role"); ("task", t);
          ("inputs", field (VObj arg) "inputs"); ("outputs", field (VObj arg) "outputs");
          ("outputFormat", param (VObj arg) "outputFormat" (VStr "json_object"));
          ("temperature", param (VObj arg) "temperature" (VFrac 7 10));
          ("model", model_of arg); ("JSONErrorRetry", j); ("OverloadErrorRetry", o);
          ("includeMetadata", param (VObj arg) "includeMetadata" (VBool false))])).
  { intros t j o. apply IH. intros s p g r.
    match goal with
    | |- context [model_of ?l] => rewrite (model_of_again arg l eq_refl)
    end.
    apply Hmodel. }
  destruct (prepare rt arg) as [[task request]|e] eqn:Hprep.
  - destruct (prepare_model _ _ _ _ Hprep) as (s & p & g & ->).
    sat_all; first [apply Hmodel | apply Hsleep | apply Hagain].
  - sat_all; first [apply Hsleep | apply Hagain].
Qed.

Lemma walk_asks attempt models :
  Forall (fun modelConfig => sat (grows P) any (attempt (field modelConfig "model"))) models ->
  sat (grows P) any (walk attempt models).
Proof.
  pose proof (logs_grows P) as HR.
  induction 1 as [|modelConfig rest Hm _ IH]; cbn [walk]; sat_all.
Qed.

Lemma callGemini_asks fuel : forall arg,
  (forall m s p g r,
     In m (candidate arg :: map (fun modelConfig => field modelConfig "model") geminiModels) ->
     P (Exchange (Generate m s p g) r)) ->
  sat (grows P) any (callGemini rt backend fuel arg).
Proof.
  pose proof (logs_grows P) as HR.
  induction fuel as [|fuel IH]; intros arg Hmodels; cbn [callGemini]; [sat_all|].
  assert (Hlist : sat (grows P) any
                    (priority_list
                       (fun model =>
                          callGeminiModel rt backend fuel (model_arguments arg model)))).
  { apply sat_read with (m := fun n => walk _ (drop n geminiModels)).
    intros n. apply walk_asks, Forall_drop.
    repeat constructor; apply callGeminiModel_asks; intros s p g r; apply Hmodels;
      cbn; auto. }
  assert (Hpinned : sat (grows P) any
                      (callGeminiModel rt backend fuel
                         (model_arguments arg (param (VObj arg) "model" VNull)))).
  { apply callGeminiModel_asks. intros s p g r. apply Hmodels. now left. }
  assert (Hagain : sat (grows P) any (callGemini rt backend fuel (gemini_arguments arg))).
  { apply IH. intros m s p g r. rewrite candidate_again. apply Hmodels. }
  sat_all; apply Hsleep.
Qed.

End Events.

(** X10.  Every request of [callGemini] is for the model of its argument
    ([gemini-2.5-flash] when the argument names none) or for one of the
    three models of the priority list; the default [gemini-2.0-flash] of
    [callGeminiModel] is not asked through [callGemini]. *)
Theorem callGemini_asks_known_models fuel arg w :
  exists new,
    trace (snd (callGemini rt backend fuel arg w)) = trace w ++ new /\
    Forall (asks_one_of
              [candidate arg; VStr "gemini-3-flash"; VStr "gemini-2.5-flash";
               VStr "gemini-2.5-flash-lite"]) new.
Proof.
  apply (callGemini_asks (asks_one_of _)); [exact (fun _ => I)|].
  intros m s p g r Hm. exact Hm.
Qed.

(** *** The routing reads the parameter [localOnly] *)

Lemma callGemini_not_ollama fuel arg :
  sat (grows not_ollama) any (callGemini rt backend fuel arg).
Proof. apply callGemini_asks; intros; exact I. Qed.

Lemma remote_route_not_ollama fuel localOnly modelInput :
  truthy localOnly = false ->
  sat (grows not_ollama) any (route rt backend fuel localOnly modelInput).
Proof.
  pose proof (logs_grows not_ollama) as HR.
  intros Hlocal. unfold route, callOpenRouter, callOpenAI, _callOpenAI, model_includes.
  rewrite Hlocal. sat_all; apply callGemini_not_ollama.
Qed.

Lemma remote_call_not_ollama fuel :
  forall configOrRole task inputs outputs outputFormat localOnly,
  truthy (or_default localOnly (VBool false)) = false ->
  sat (grows not_ollama) any
      (aiTask rt backend fuel configOrRole task inputs outputs outputFormat localOnly).
Proof.
  pose proof (logs_grows not_ollama) as HR.
  induction fuel as [|fuel IH]; intros * Hlocal; cbn [aiTask]; [sat_all|].
  destruct (normalize _ _ _ _ _) as [modelInput remainingModels].
  eapply sat_bind with (Q1 := any);
    [exact _ | apply cache_get_frame; exact _ | | sat_all..].
  intros cachedResponse _. destruct (truthy cachedResponse); [sat_all|].
  eapply sat_try_catch with (Q1 := any); [exact _ | | | sat_all..].
  - eapply sat_bind with (Q1 := any);
      [exact _ | now apply remote_route_not_ollama | | sat_all..].
    intros r _. eapply sat_bind with (Q1 := any);
      [exact _ | apply cache_set_frame, stores_grows | | sat_all..].
    sat_all.
  - intros e _. destruct remainingModels; [now apply IH | sat_all].
Qed.

(** X14.  Only the parameter [localOnly] sends a request to Ollama.  A call
    whose parameter is not set makes no request to Ollama, whatever its
    configuration object holds: a member [localOnly] of the configuration
    is copied into the request and its fingerprint, and not read by the
    routing. *)
Theorem unset_parameter_never_asks_ollama
  fuel configOrRole task inputs outputs outputFormat w :
  exists new,
    trace (snd (aiTask rt backend fuel configOrRole task inputs outputs outputFormat
                  VUndefined w)) = trace w ++ new /\
    Forall not_ollama new.
Proof.
  exact (proj1 (remote_call_not_ollama fuel configOrRole task inputs outputs outputFormat
                  VUndefined eq_refl w)).
Qed.

(** *** What a call writes to the cache *)

Lemma remote_route_result fuel localOnly modelInput w v w' :
  truthy localOnly = false ->
  route rt backend fuel localOnly modelInput w = (Returns v, w') -> is_null v = false.
Proof.
  intros Hlocal. unfold route. rewrite Hlocal. cbv zeta. unfold bind at 1.
  destruct (_ w) as [[r|e|] w1]; [|discriminate..].
  destruct (is_null r) eqn:E; [discriminate|]. now intros [= <- _].
Qed.

Lemma remote_null_is_not_cached fuel :
  forall configOrRole task inputs outputs outputFormat localOnly w w',
  truthy (or_default localOnly (VBool false)) = false ->
  aiTask rt backend fuel configOrRole task inputs outputs outputFormat localOnly w
    = (Returns VNull, w') ->
  cache w' = cache w.
Proof.
  induction fuel as [|fuel IH]; intros * Hlocal; cbn [aiTask]; [discriminate|].
  destruct (normalize _ _ _ _ _) as [modelInput remaining].
  unfold bind at 1, cache_get at 1.
  destruct (truthy (default VUndefined _)) eqn:Hhit.
  { intros [= E _]. rewrite E in Hhit. discriminate. }
  unfold try_catch, bind at 1.
  pose proof (proj1 (route_frame rt backend same_cache logs_cache fuel
                       (or_default localOnly (VBool false)) modelInput w)) as Hcache.
  destruct (route _ _ _ _ _ w) as [[v|e|] w1] eqn:Hroute; cbn in Hcache.
  - apply remote_route_result in Hroute; [|exact Hlocal].
    cbn. intros [= -> _]. discriminate.
  - destruct remaining as [models|].
    + intros H. rewrite <- Hcache. now apply IH in H.
    + intros [= <-]. exact Hcache.
  - discriminate.
Qed.

(** X15.  On the routes other than the local one a failed call leaves no
    entry: when a call whose parameter [localOnly] is not set returns
    [null], the cache is as it was before the call. *)
Theorem null_of_a_remote_call_is_not_cached
  fuel configOrRole task inputs outputs outputFormat localOnly w :
  truthy (or_default localOnly (VBool false)) = false ->
  fst (aiTask rt backend fuel configOrRole task inputs outputs outputFormat localOnly w)
    = Returns VNull ->
  cache (snd (aiTask rt backend fuel configOrRole task inputs outputs outputFormat
                localOnly w)) = cache w.
Proof.
  intros Hlocal.
  destruct (aiTask _ _ _ _ _ _ _ _ _ w) as [r w'] eqn:E. cbn. intros ->.
  eapply remote_null_is_not_cached; eassumption.
Qed.

(** What a call without a queue does, by the outcome of its one attempt. *)
Lemma single_call_outcome
  fuel configOrRole task inputs outputs outputFormat localOnly w modelInput :
  normalize configOrRole task inputs outputs (or_default outputFormat (VStr "json_object"))
    = (modelInput, None) ->
  let hash := hashQuery rt (VObj modelInput) in
  let cached := default VUndefined (cache w !! hash) in
  aiTask rt backend (S fuel) configOrRole task inputs outputs outputFormat localOnly w =
  if truthy cached then (Returns cached, w)
  else
    match route rt backend fuel (or_default localOnly (VBool false)) modelInput w with
    | (Returns v, w1) => (Returns v, store hash v w1)
    | (Throws _, w1) => (Returns VNull, w1)
    | (Pending, w1) => (Pending, w1)
    end.
Proof.
  intros Hnorm. cbv zeta. cbn [aiTask]. rewrite Hnorm.
  unfold bind at 1, cache_get at 1. destruct (truthy _); [reflexivity|].
  unfold try_catch, bind.
  now destruct (route _ _ _ _ _ w) as [[v|e|] w1].
Qed.


(** X12.  A call without a queue writes to the cache at most once, and then
    the value it returns, under the fingerprint of its request. *)
Theorem call_writes_its_own_entry
  fuel configOrRole task inputs outputs outputFormat localOnly w modelInput :
  normalize configOrRole task inputs outputs (or_default outputFormat (VStr "json_object"))
    = (modelInput, None) ->
  let run := aiTask rt backend fuel configOrRole task inputs outputs outputFormat
               localOnly w in
  cache (snd run) = cache w \/
  exists v, fst run = Returns v /\
            cache (snd run) = <[hashQuery rt (VObj modelInput) := v]> (cache w).
Proof.
  intros Hnorm. cbv zeta. destruct fuel as [|fuel]; [now left|].
  rewrite (single_call_outcome fuel _ _ _ _ _ _ w _ Hnorm). cbv zeta.
  destruct (truthy _); [now left|].
  pose proof (proj1 (route_frame rt backend same_cache logs_cache fuel
                       (or_default localOnly (VBool false)) modelInput w)) as Hcache.
  destruct (route _ _ _ _ _ w) as [[v|e|] w1]; cbn in Hcache; cbn [fst snd].
  - right. exists v. split; [reflexivity|]. cbn [cache store]. now rewrite Hcache.
  - now left.
  - now left.
Qed.

(** *** The request object *)

Lemma assoc_set_field_other k k' v fs :
  k <> k' -> assoc k (set_field k' v fs) = assoc k fs.
Proof.
  intros Hne. induction fs as [|[k0 x] r IH]; cbn.
  - destruct (String.eqb_spec k' k); [congruence | reflexivity].
  - destruct (String.eqb_spec k0 k') as [->|Hne0]; cbn.
    + destruct (String.eqb_spec k' k); [congruence | reflexivity].
    + destruct (String.eqb_spec k0 k); [reflexivity | exact IH].
Qed.

Lemma assoc_assign_other k src : forall t,
  ~ In k (map fst src) ->
  assoc k (fold_left (fun t (kv : string * value) => set_field (fst kv) (snd kv) t) src t)
  = assoc k t.
Proof.
  induction src as [|[k' v'] src IH]; intros t Hk; [reflexivity|].
  cbn [fold_left fst snd]. rewrite IH.
  - apply assoc_set_field_other. intros ->. apply Hk. now left.
  - intros H. apply Hk. now right.
Qed.

Lemma assoc_assign k v src : forall t,
  List.NoDup (map fst src) -> assoc k src = Some v ->
  assoc k (fold_left (fun t (kv : string * value) => set_field (fst kv) (snd kv) t) src t)
  = Some v.
Proof.
  induction src as [|[k' v'] src IH]; intros t Hnd Hk; [discriminate|].
  cbn [fold_left fst snd]. cbn in Hk. inversion Hnd as [|? ? Hnotin Hnd']; subst.
  destruct (String.eqb_spec k' k) as [->|Hne].
  - injection Hk as ->. rewrite assoc_assign_other by assumption. apply assoc_set_field.
  - now apply IH.
Qed.


(** *** What Gemini is told of the outputs *)

Lemma field_set_field_other k k' v fs :
  k <> k' -> field (VObj (set_field k' v fs)) k = field (VObj fs) k.
Proof. intros H. cbn [field]. now rewrite assoc_set_field_other. Qed.

Lemma param_set_field_other k k' v d fs :
  k <> k' -> param (VObj (set_field k' v fs)) k d = param (VObj fs) k d.
Proof. intros H. unfold param. now rewrite field_set_field_other. Qed.

(** X16.  Gemini is told of an object [outputs] by its conversion to a
    string only, unless the object is a schema (its [type] is ["array"] or
    ["object"]): the prompt holds [`${outputs}`], and [responseSchema] is
    [null].  Two requests that differ in the members of such an object, and
    in nothing else, make the same request of Gemini when the runtime
    converts both objects to the same string. *)
Theorem plain_descriptor_does_not_reach_gemini arg o1 o2 :
  ToString rt (VObj o1) = ToString rt (VObj o2) ->
  is_str (field (VObj o1) "type") "array" || is_str (field (VObj o1) "type") "object" = false ->
  is_str (field (VObj o2) "type") "array" || is_str (field (VObj o2) "type") "object" = false ->
  prepare rt (set_field "outputs" (VObj o1) arg) =
  prepare rt (set_field "outputs" (VObj o2) arg).
Proof.
  intros Hstring H1 H2. unfold prepare, model_of.
  rewrite !param_set_field_other by discriminate.
  rewrite !(field_set_field_other "role"), !(field_set_field_other "task"),
    !(field_set_field_other "inputs") by discriminate.
  assert (Ho : forall o, field (VObj (set_field "outputs" o arg)) "outputs" = o).
  { intros o. cbn [field]. now rewrite assoc_set_field. }
  rewrite !Ho. cbn [get_prop]. rewrite H1, H2, !andb_false_r.
  destruct (starts_with_gemma _) as [gemma|]; [|reflexivity].
  unfold buildPrompt. cbn [truthy to_string]. now rewrite Hstring.
Qed.

End Dispatcher.
End AdapterFacts.

(** ** The adapters at concrete requests *)
Module AdapterExamples.
Import Schema Dispatch Notions Sample DispatchFacts AdapterFacts.
Local Open Scope list_scope.

Lemma unparsable_completion_witness :
  exists response,
    _callOpenAI runtime (always_completed "plain words") None bare empty_world =
    (Returns VUndefined,
     log (Exchange (Chat None (chat_request bare)) (Normal response)) empty_world).
Proof.
  eexists.
  apply (unparsable_completion_gives_undefined runtime (always_completed "plain words")
           None bare empty_world _ "plain words").
  - reflexivity.
  - reflexivity.
  - reflexivity.
  - reflexivity.
Defined.

Lemma fenced_completion_witness :
  exists response,
    _callOpenAI runtime (always_completed "```json{}```") None bare empty_world =
    (Returns (VObj []),
     log (Exchange (Chat None (chat_request bare)) (Normal response)) empty_world).
Proof.
  eexists.
  apply (fenced_completion_is_read runtime (always_completed "```json{}```")
           None bare empty_world _ "{}" (VObj [])).
  - reflexivity.
  - reflexivity.
  - reflexivity.
  - reflexivity.
Defined.

Lemma unknown_error_witness :
  exists request,
    callGemini runtime always_failing 2 bare empty_world =
    (Returns VNull,
     log (Exchange request (Throw (VObj [("status", VNum 500)]))) empty_world)
    /\ asked request = VStr "gemini-3-flash".
Proof.
  eexists. split.
  - eapply (unknown_error_ends_the_priority_list runtime always_failing 0 bare empty_world).
    + reflexivity.
    + reflexivity.
    + reflexivity.
    + reflexivity.
    + reflexivity.
    + reflexivity.
  - reflexivity.
Defined.

Lemma rate_limited_model_witness :
  exists request1 request2,
    callGemini runtime limited_on_first 2 bare empty_world =
    (Returns (VObj []),
     log (Exchange request2 (Normal (generated "{}")))
       (log (Exchange request1 (Throw (rate_limit_error "5s"))) empty_world))
    /\ asked request1 = VStr "gemini-3-flash" /\ asked request2 = VStr "gemini-2.5-flash".
Proof.
  eexists _, _. split; [|split].
  - eapply (rate_limited_model_is_passed_over runtime limited_on_first 0 bare empty_world).
    + reflexivity.
    + reflexivity.
    + reflexivity.
    + reflexivity.
    + reflexivity.
    + reflexivity.
    + reflexivity.
    + reflexivity.
  - reflexivity.
  - reflexivity.
Defined.

Lemma overloaded_model_witness :
  let run := callGeminiModel runtime always_overloaded 3 bare empty_world in
  fst run = Pending /\
  sleeps (trace (snd run)) =
    sleeps (trace empty_world) ++ map (fun i => VNum (Z.of_nat i * 10000)) (seq 1 3).
Proof.
  eapply (overloaded_model_is_retried_without_end runtime always_overloaded 3 bare
            empty_world).
  - reflexivity.
  - right. reflexivity.
  - reflexivity.
  - reflexivity.
Defined.

(** The sleeps of that run. *)
Example overloaded_model_sleeps :
  sleeps (trace (snd (callGeminiModel runtime always_overloaded 3 bare empty_world)))
  = [VNum 10000; VNum 20000; VNum 30000].
Proof. vm_compute. reflexivity. Qed.

Lemma gemma_retry_witness :
  exists task request request',
    let again := retry_arguments for_gemma task (next_overload for_gemma) in
    task = VStr ("ROLE:chef" ++ newline ++ newline ++ "sum")%string /\
    callGeminiModel runtime always_overloaded 1 for_gemma empty_world =
      callGeminiModel runtime always_overloaded 0 again
        (log (Sleep (scale (next_overload for_gemma) 10000 0))
           (log (Exchange request (Throw (VObj [("status", VNum 503)]))) empty_world)) /\
    prepare runtime again =
      Normal (VStr ("ROLE:chef" ++ newline ++ newline ++
                    "ROLE:chef" ++ newline ++ newline ++ "sum")%string, request').
Proof.
  destruct (gemma_retry_repeats_the_role runtime always_overloaded 0 for_gemma empty_world
              (VStr ("ROLE:chef" ++ newline ++ newline ++ "sum")%string)
              (Generate (VStr "gemma-3-27b") None
                 (buildPrompt runtime
                    (VStr ("ROLE:chef" ++ newline ++ newline ++ "sum")%string)
                    (field (VObj for_gemma) "inputs") (field (VObj for_gemma) "outputs") true)
                 (VObj [("temperature", VFrac 7 10);
                        ("responseMimeType", VStr "application/json");
                        ("responseSchema", VNull)]))
              (VObj [("status", VNum 503)]) "gemma-3-27b"
              eq_refl eq_refl eq_refl eq_refl (or_intror eq_refl))
    as (Htask & Hstep & request' & Hagain).
  eexists _, _, request'. split; [|split].
  - exact Htask.
  - exact Hstep.
  - exact Hagain.
Defined.


Lemma own_entry_witness :
  let run := call_with (always_text "{}") 3 (VObj bare) VUndefined empty_world in
  cache (snd run) = cache empty_world \/
  exists v, fst run = Returns v /\ cache (snd run) = <[sum_key := v]> (cache empty_world).
Proof.
  unfold call_with.
  eapply (call_writes_its_own_entry runtime (always_text "{}") 3 (VObj bare)).
  reflexivity.
Defined.


Lemma remote_null_witness :
  cache (snd (call_with always_failing 3 (VObj bare) VUndefined empty_world))
  = cache empty_world.
Proof.
  apply (null_of_a_remote_call_is_not_cached runtime always_failing 3 (VObj bare)).
  - reflexivity.
  - vm_compute. reflexivity.
Defined.

Lemma plain_descriptor_witness :
  prepare runtime (set_field "outputs" (VObj [("name", VStr "String | a name")]) bare) =
  prepare runtime (set_field "outputs" (VObj [("price", VStr "Number | a price")]) bare).
Proof.
  apply (plain_descriptor_does_not_reach_gemini runtime).
  - reflexivity.
  - reflexivity.
  - reflexivity.
Defined.

End AdapterExamples.

(** ** The schema compiler, further *)
Module SchemaMore.
Import Schema SchemaNotions SchemaFacts.
Local Open Scope list_scope.

Section Compiled.
Context (rt : Runtime).

Lemma vsize_item x l : In x l -> (vsize x < vsize (VArr l))%nat.
Proof.
  induction l as [|y r IH]; intros H; [destruct H|].
  cbn [vsize map] in *. unfold list_sum in *. cbn [fold_right] in *.
  destruct H as [->|H]; [lia|]. specialize (IH H). lia.
Qed.

Lemma vsize_member k x fs : In (k, x) fs -> (vsize x < vsize (VObj fs))%nat.
Proof.
  induction fs as [|[k' y] r IH]; intros H; [destruct H|].
  cbn [vsize map snd] in *. unfold list_sum in *. cbn [fold_right] in *.
  destruct H as [[= -> ->]|H]; [lia|].
  specialize (IH H). lia.
Qed.

Lemma type_schema_throws type description e :
  type_schema rt type description = Throw e -> e = MalformedEnum.
Proof.
  unfold type_schema.
  repeat match goal with
         | |- context [if ?b then _ else _] => destruct b
         | |- context [match ?o with Some _ => _ | None => _ end] => destruct o
         | |- context [match ?v with VArr _ => _ | _ => _ end] => destruct v
         end; congruence.
Qed.

Lemma parseStringDescription_throws s e :
  parseStringDescription rt s = Throw e -> e = MalformedEnum.
Proof.
  unfold parseStringDescription. destruct (includes "|" s); [|discriminate].
  cbv zeta. destruct (type_schema _ _ _) as [[z d]|e'] eqn:E; [discriminate|].
  intros [= <-]. eapply type_schema_throws, E.
Qed.

Lemma convert_each_throws l e :
  (forall x, In x l -> convertToZod rt x = Throw e -> e = MalformedEnum) ->
  convert_each rt l = Throw e -> e = MalformedEnum.
Proof.
  induction l as [|x r IH]; intros H; cbn [convert_each]; [discriminate|].
  destruct (convertToZod rt x) eqn:Ex.
  - destruct (convert_each rt r) eqn:Er; [discriminate|].
    intros [= <-]. apply IH; [|reflexivity]. intros y Hy. apply H. now right.
  - intros [= <-]. apply (H x); [now left | assumption].
Qed.

Lemma convertToZod_record fs :
  truthy (field (VObj fs) "__is_record") = true ->
  convertToZod rt (VObj fs) = record_sample rt fs.
Proof. intros Hrec. cbn [convertToZod]. rewrite Hrec. reflexivity. Qed.

Lemma convertToZod_array l :
  convertToZod rt (VArr l) =
  match l with
  | [] => Normal (ZArray ZAny)
  | x :: _ =>
      match x with
      | VArr alts =>
          if is_str (default VUndefined (l !! 1%nat)) "anyOf" then
            match convert_each rt alts with
            | Throw e => Throw e
            | Normal zs => Normal (ZArray (ZUnion zs))
            end
          else
            match convertToZod rt x with
            | Throw e => Throw e
            | Normal z => Normal (ZArray z)
            end
      | _ =>
          match convertToZod rt x with
          | Throw e => Throw e
          | Normal z => Normal (ZArray z)
          end
      end
  end.
Proof. destruct l as [|x r]; [reflexivity|]. destruct x; reflexivity. Qed.

Lemma record_sample_throws fs e :
  (forall k x, In (k, x) fs -> convertToZod rt x = Throw e -> e = MalformedEnum) ->
  record_sample rt fs = Throw e -> e = MalformedEnum.
Proof.
  induction fs as [|[key v] r IH]; intros H; cbn [record_sample]; [discriminate|].
  destruct (String.eqb key "__is_record").
  - apply IH. intros k x Hin. apply (H k x). now right.
  - destruct (parseStringDescription rt key) eqn:Ek.
    + destruct (convertToZod rt v) eqn:Ev; [discriminate|].
      intros [= <-]. apply (H key v); [now left | assumption].
    + intros [= <-]. eapply parseStringDescription_throws, Ek.
Qed.

Lemma member_schema_throws v e :
  (forall x, (vsize x < vsize v)%nat -> convertToZod rt x = Throw e -> e = MalformedEnum) ->
  (convertToZod rt v = Throw e -> e = MalformedEnum) ->
  member_schema rt v = Throw e -> e = MalformedEnum.
Proof.
  intros Hsub Hself. destruct v; cbn [member_schema]; try discriminate.
  - apply parseStringDescription_throws.
  - destruct items as [|x r].
    + cbn. discriminate.
    + assert (Hx : (vsize x < vsize (VArr (x :: r)))%nat) by (apply vsize_item; now left).
      destruct (convertToZod rt x) as [z0|e0] eqn:Ex.
      2:{ intros [= <-]. now apply (Hsub x). }
      cbv zeta. destruct (truthy _ && _); [discriminate|].
      destruct x; try discriminate.
      destruct (is_str _ "anyOf"); [|discriminate].
      destruct (convert_each rt items) eqn:Ea; [discriminate|].
      intros [= <-]. eapply convert_each_throws; [|exact Ea].
      intros y Hy. apply Hsub. pose proof (vsize_item y items Hy). lia.
  - exact Hself.
Qed.

Lemma convertToZod_throws_sized n : forall v e,
  (vsize v < n)%nat -> convertToZod rt v = Throw e -> e = MalformedEnum.
Proof.
  induction n as [|n IH]; intros v e Hn; [lia|].
  destruct v; try discriminate.
  - cbn [convertToZod]. apply parseStringDescription_throws.
  - rewrite convertToZod_array. destruct items as [|x r]; [discriminate|].
    assert (Hx : (vsize x < vsize (VArr (x :: r)))%nat) by (apply vsize_item; now left).
    assert (Hfirst : match convertToZod rt x with
                     | Throw e0 => Throw e0
                     | Normal z => Normal (ZArray z)
                     end = Throw e -> e = MalformedEnum).
    { destruct (convertToZod rt x) eqn:Ex; [discriminate|].
      intros [= <-]. apply (IH x); [lia | assumption]. }
    destruct x; try exact Hfirst.
    destruct (is_str _ "anyOf"); [|exact Hfirst].
    destruct (convert_each rt items) eqn:Ea; [discriminate|].
    intros [= <-]. eapply convert_each_throws; [|exact Ea].
    intros y Hy. apply IH. pose proof (vsize_item y items Hy). lia.
  - destruct (truthy (field (VObj fields) "__is_record")) eqn:Hrec.
    + rewrite (convertToZod_record _ Hrec). apply record_sample_throws.
      intros k x Hin. apply IH. pose proof (vsize_member k x fields Hin). lia.
    + rewrite (convertToZod_object rt _ Hrec).
      destruct (object_shape rt fields) eqn:Es; [discriminate|].
      intros [= <-]. destruct (object_shape_throws rt _ _ Es) as (k & x & Hin & Hx).
      pose proof (vsize_member k x fields Hin) as Hsize.
      eapply member_schema_throws; [| |exact Hx].
      * intros y Hy. apply IH. lia.
      * apply IH. lia.
Qed.


(** *** The members of an object schema *)

Lemma delete_schema_key fs :
  delete_field "$schema" (("$schema", VStr "https://json-schema.org/draft/2020-12/schema")
                            :: ("type", VStr "object") :: ("properties", VObj fs) :: [])
  = [("type", VStr "object"); ("properties", VObj fs)].
Proof. reflexivity. Qed.


(** *** The descriptor of a member *)

Ltac parse_keyword d Hbar Htrim :=
  cbv beta iota delta [String.append];
  unfold parseStringDescription;
  match goal with |- (if ?b then _ else _) = _ => replace b with true by reflexivity end;
  match goal with
  | |- context [split ?c ?s] =>
      let p := fresh "p" in
      let e := fresh "e" in
      evar (p : string);
      assert (e : split c s = [p; String " " d])
        by (subst p; simpl; rewrite (split_without "|" d);
            [reflexivity | now apply includes_char_false]);
      subst p; rewrite e; clear e
  end;
  cbn [map hd]; rewrite trim_space_cons, Htrim.

(** X19.  A member ["T | d"], for a type keyword [T] and a description [d]
    that has no [|], no blank at its ends and is not empty, compiles to the
    schema of [T] described by [d]. *)
Theorem typed_member kw z d :
  In (kw, z) keyword_schemas ->
  includes "|" d = false -> trim d = d -> d <> "" ->
  parseStringDescription rt (kw ++ " | " ++ d) = Normal (ZDescribe z d).
Proof.
  intros Hkw Hbar Htrim Hne.
  assert (Hd : String.eqb d "" = false) by now apply String.eqb_neq.
  repeat (destruct Hkw as [[= <- <-]|Hkw]); [..|destruct Hkw];
    parse_keyword d Hbar Htrim; simpl; rewrite Hd; simpl; unfold describe; now rewrite Hd.
Qed.

(** X20.  A member ["Enum | d"] compiles to the enum of the values of [d]
    when [d] is the JSON text of an array, without a description; any other
    [d] is a malformed enum. *)
Theorem enum_member d :
  includes "|" d = false -> trim d = d -> d <> "" ->
  parseStringDescription rt ("Enum | " ++ d) =
  match JSON_parse rt d with
  | Some (VArr enumValues) => Normal (ZNativeEnum enumValues)
  | _ => Throw MalformedEnum
  end.
Proof.
  intros Hbar Htrim Hne.
  assert (Hd : String.eqb d "" = false) by now apply String.eqb_neq.
  parse_keyword d Hbar Htrim. simpl. rewrite Hd.
  match goal with |- context [type_schema rt ?t d] => change t with "enum" end.
  unfold type_schema. cbn [String.eqb Ascii.eqb Bool.eqb].
  destruct (JSON_parse rt d) as [[]|]; reflexivity.
Qed.

End Compiled.
End SchemaMore.

(** ** The schema compiler at concrete descriptors *)
Module SchemaExamples.
Import Schema SchemaNotions Sample SchemaFacts SchemaMore.
Local Open Scope list_scope.



Lemma typed_member_witness :
  parseStringDescription runtime ("Naming | A short title") =
  Normal (ZDescribe (ZString (Some 80)) "A short title").
Proof.
  apply (typed_member runtime "Naming" (ZString (Some 80)) "A short title").
  - cbn. tauto.
  - reflexivity.
  - reflexivity.
  - discriminate.
Defined.

Lemma enum_member_witness :
  parseStringDescription runtime ("Enum | [1]") = Normal (ZNativeEnum [VNum 1]).
Proof.
  apply (enum_member runtime "[1]").
  - reflexivity.
  - reflexivity.
  - discriminate.
Defined.

(** The text of an enum is cut at a [|]: what follows is dropped. *)
Example enum_with_separator :
  parseStringDescription runtime "Enum | [1]|[2]" = Normal (ZNativeEnum [VNum 1]).
Proof. reflexivity. Qed.

End SchemaExamples.

(** ** The message builder, further *)
Module BuilderMore.
Import Schema Dispatch Builder BuilderNotions BuilderFacts.
Local Open Scope B_scope.
Local Open Scope list_scope.

Section Built.
Context (rt : Runtime) (sharp : value -> bool -> completion string).

(** X21.  The schema compiler's error is the builder's: [createOllamaMessages]
    compiles [outputs] and throws what [createJSONSchema] throws, although it
    makes no use of the schema.  So a malformed enum in [outputs] fails every
    adapter that builds its messages here. *)
Theorem builder_throws_the_schema_error
  role task inputs fields outputFormat USE_JSON_SCHEMA imageMessageBuilder h e :
  image_count rt inputs h = (Normal 0%nat, h) ->
  createJSONSchema rt (Descriptor (VObj fields)) = Throw e ->
  createOllamaMessages rt sharp role task inputs (Prim (VObj fields)) outputFormat
    USE_JSON_SCHEMA imageMessageBuilder h = (Throw e, h).
Proof.
  intros Hcount Hschema. unfold createOllamaMessages.
  unfold bbind at 1. rewrite Hcount. cbn [Nat.eqb negb].
  unfold bbind at 1, bret at 1.
  assert (Htype : forall k : bool -> B result,
    bbind (if USE_JSON_SCHEMA
           then type <- read_prop (Prim (VObj fields)) "type" ;;
                bret (truthy_h type &&
                      match type with
                      | Prim t => is_str t "array" || is_str t "object"
                      | Ref _ => false
                      end)
           else bret false) k h =
    k (USE_JSON_SCHEMA &&
       (truthy (field (VObj fields) "type") &&
        (is_str (field (VObj fields) "type") "array"
         || is_str (field (VObj fields) "type") "object"))) h).
  { intros k. destruct USE_JSON_SCHEMA; reflexivity. }
  rewrite Htype. cbv zeta.
  unfold bbind at 1, bbind at 1, read_value at 1. cbn [snapshot].
  unfold bbind at 1, blift at 1. rewrite Hschema. reflexivity.
Qed.

Lemma each_read_values (f : value -> built) vs h :
  each (fun image : hval => b <- read_value image ;; bret (f b)) (map Prim vs) h
  = (Normal (map f vs), h).
Proof.
  induction vs as [|v vs IH]; [reflexivity|].
  cbn [map each]. unfold bbind at 1, bbind at 1, read_value at 1. cbn [snapshot].
  unfold bret at 1. unfold bbind at 1. rewrite IH. reflexivity.
Qed.

(** X22.  The message [openAIImageMessageBuilder] builds for a text and the
    images of an array: a user message whose content is the text part, then
    one part for each image, in the order of the array, each a data URL of
    the image.  The store is as it was. *)
Theorem openAI_message_parts text l images named h :
  h !! l = Some (Arr (map Prim images) named) ->
  openAIImageMessageBuilder rt text (Listed (Ref l)) h =
  (Normal
     (NewObj
        [("role", str "user");
         ("content",
          NewArr (NewObj [("type", str "text"); ("text", str text)]
                    :: map (image_part rt) images))]),
   h).
Proof.
  intros Hl. unfold openAIImageMessageBuilder.
  unfold bbind at 1, items_of at 1. rewrite Hl.
  unfold bbind at 1.
  match goal with
  | |- context [each ?f (map Prim images) h] =>
      change (each f (map Prim images) h)
        with (each (fun image : hval => b <- read_value image ;; bret (image_part rt b))
                   (map Prim images) h)
  end.
  rewrite (each_read_values (image_part rt) images h). reflexivity.
Qed.

(** *** The images of a request *)

Section Images.
Context (li la : nat) (Hdistinct : li <> la).
Context (fs : list (string * hval)) (Himages : lookup_field "images" fs = Some (Ref la)).
Context (named : list (string * hval)).

Lemma encode_loop todo : forall encoded (h : store) before,
  Forall2 (fun image s => sharp image true = Normal s) todo encoded ->
  h !! li = Some (Obj fs) ->
  h !! la = Some (Arr (before ++ map Prim todo) named) ->
  exists units,
    each (encode_image sharp (Ref li)) (seq (length before) (length todo)) h
    = (Normal units, <[la := Arr (before ++ map stored encoded) named]> h).
Proof.
  induction todo as [|image todo IH]; intros encoded h before Hall Hli Hla.
  - inversion Hall; subst. exists []. cbn [each length seq map]. unfold bret.
    f_equal. symmetry. now apply insert_id.
  - inversion Hall as [|? s ? encoded' Hs Hall']; subst.
    cbn [length seq each map]. cbn [map] in Hla.
    set (h1 := <[la := Arr (before ++ stored s :: map Prim todo) named]> h).
    assert (Hstep : encode_image sharp (Ref li) (length before) h = (Normal tt, h1)).
    { unfold encode_image.
      unfold bbind at 1, read_prop at 1. rewrite Hli, Himages. cbn [default from_option id].
      unfold bbind at 1, read_prop at 1. rewrite Hli, Himages. cbn [default from_option id].
      unfold bbind at 1, read_index at 1. rewrite Hla.
      rewrite (list_lookup_middle before (map Prim todo) (Prim image) _ eq_refl).
      cbn [default from_option id].
      unfold bbind at 1, read_value at 1. cbn [snapshot].
      unfold bbind at 1, blift at 1, base64Image. rewrite Hs.
      unfold write_index. rewrite Hla.
      rewrite decide_True by (rewrite length_app; cbn; lia).
      unfold h1. do 3 f_equal.
      rewrite insert_app_r_alt by lia. now rewrite Nat.sub_diag. }
    destruct (IH encoded' h1 (before ++ [stored s])) as [units Hunits].
    + exact Hall'.
    + unfold h1. now rewrite lookup_insert_ne.
    + unfold h1. rewrite lookup_insert_eq. now rewrite <- app_assoc.
    + exists (tt :: units). unfold bbind at 1. rewrite Hstep.
      rewrite length_app in Hunits. cbn [length] in Hunits. rewrite Nat.add_1_r in Hunits.
      unfold bbind at 1. rewrite Hunits. unfold bret. f_equal.
      unfold h1. rewrite insert_insert_eq. now rewrite <- app_assoc.
Qed.

Lemma lookup_remove_other k k' (gs : list (string * hval)) :
  k <> k' -> lookup_field k (remove_field k' gs) = lookup_field k gs.
Proof.
  intros Hne. induction gs as [|[k0 x] r IH]; [reflexivity|].
  cbn [remove_field lookup_field].
  destruct (String.eqb_spec k0 k') as [->|Hne0].
  - destruct (String.eqb_spec k' k); [congruence | exact IH].
  - cbn [lookup_field]. destruct (String.eqb_spec k0 k); [reflexivity | exact IH].
Qed.

Lemma bbind_run {A C} (m : B A) (k : A -> B C) h a h' :
  m h = (Normal a, h') -> bbind m k h = k a h'.
Proof. intros H. unfold bbind. now rewrite H. Qed.

(** X23.  What the builder writes for the images of a request.  When
    [inputs.images] is an array of [n > 0] images that all encode, the call
    leaves the array holding the [n] encodings in the order of the images,
    and [inputs] without its member [images]; nothing else of the store is
    changed (for a request without raw messages). *)
Theorem builder_encodes_and_removes_images
  role task outputs outputFormat USE_JSON_SCHEMA imageMessageBuilder
  (h : store) image images encoded :
  h !! li = Some (Obj fs) ->
  h !! la = Some (Arr (map Prim (image :: images)) named) ->
  Forall2 (fun image s => sharp image true = Normal s) (image :: images) encoded ->
  lists_messages (Ref li) h = false ->
  (forall text images, reads (imageMessageBuilder text images)) ->
  snd (createOllamaMessages rt sharp role task (Ref li) outputs outputFormat
         USE_JSON_SCHEMA imageMessageBuilder h)
  = <[li := Obj (remove_field "images" fs)]> (<[la := Arr (map stored encoded) named]> h).
Proof.
  intros Hli Hla Hall Hmessages Hbuilder.
  set (h1 := <[la := Arr (map stored encoded) named]> h).
  set (h2 := <[li := Obj (remove_field "images" fs)]> h1).
  assert (Hli1 : h1 !! li = Some (Obj fs)) by (unfold h1; now rewrite lookup_insert_ne).
  unfold createOllamaMessages.
  (* the count *)
  erewrite bbind_run.
  2:{ unfold image_count.
      unfold bbind at 1, read_prop at 1. rewrite Hli, Himages. cbn [default from_option id].
      cbn [truthy_h].
      unfold bbind at 1, read_prop at 1. rewrite Hla. cbn [String.eqb Ascii.eqb Bool.eqb].
      unfold bbind at 1, number_of, bret. cbn [to_number count_below].
      rewrite Nat2Z.id. reflexivity. }
  rewrite length_map. cbn [length Nat.eqb negb].
  (* the loop, and the removal of [images] *)
  destruct (encode_loop (image :: images) encoded h [] Hall Hli Hla) as [units Hloop].
  cbn [app length] in Hloop.
  fold h1 in Hloop.
  erewrite bbind_run.
  2:{ unfold bbind at 1. rewrite Hloop.
      unfold bbind at 1, read_prop at 1. rewrite Hli1, Himages. cbn [default from_option id].
      unfold bbind at 1, delete_prop at 1. rewrite Hli1. fold h2. reflexivity. }
  (* the rest reads *)
  assert (Hmessages2 : lists_messages (Ref li) h2 = false).
  { revert Hmessages. unfold lists_messages, read_prop. rewrite Hli.
    unfold h2 at 1. rewrite lookup_insert_eq. cbn [fst].
    rewrite lookup_remove_other by discriminate.
    destruct (default (Prim VUndefined) (lookup_field "messages" fs)) as [v|l];
      [trivial|].
    unfold is_array, h2, h1.
    destruct (decide (l = li)) as [->|Hl]; [now rewrite lookup_insert_eq, Hli|].
    rewrite lookup_insert_ne by congruence.
    destruct (decide (l = la)) as [->|Hl']; [now rewrite lookup_insert_eq, Hla|].
    now rewrite lookup_insert_ne by congruence. }
  clearbody h2. clear Hloop.
  apply bbind_frame.
  { destruct USE_JSON_SCHEMA; [|apply reads_bret].
    apply reads_bbind; [apply reads_read_prop | intros; apply reads_bret]. }
  intros schematic _.
  apply bbind_frame.
  { assert (Hgen : reads
      (o <- read_value outputs ;;
       blift (createJSONSchema rt (Descriptor o)) ;;
       match o with
       | VUndefined => bthrow TypeError
       | _ => bret (stringify_2 rt o,
                    VStr ("JSON " ++
                          String.concat newline
                            (map (fun kv : string * value =>
                                    fst kv ++ ": " ++ to_string rt (stringify_2 rt (snd kv)))
                                 (entries o)))%string)
       end)).
    { apply reads_bbind; [apply reads_read_value|]. intros o.
      apply reads_bbind; [apply reads_blift|]. intros _.
      destruct o; first [apply reads_bthrow | apply reads_bret]. }
    destruct outputs as [[]|]; first [apply reads_bret | exact Hgen]. }
  intros [jsonOutputs jsonOutputsAsList] _.
  apply bbind_frame; [apply reads_read_value|]. intros t _.
  apply bbind_frame; [apply reads_read_value|]. intros i _.
  apply bbind_frame; [apply reads_read_prop|]. intros raw Hraw.
  unfold lists_messages in Hmessages2. rewrite Hraw in Hmessages2.
  apply bbind_frame; [now intros h0|]. intros h0 [= <-]. rewrite Hmessages2.
  apply bbind_frame.
  { apply reads_bbind; [apply Hbuilder | intros; apply reads_bret]. }
  intros [messages returnWholeMessage] _. reflexivity.
Qed.

End Images.

(** X24.  Raw messages take the place of the prompt.  When [inputs.messages]
    is an array of texts (and [inputs] has no images), the messages are the
    system message of the role, if there is one, and a user message for each
    text in order, the last one with an empty list of images; the whole
    message of the reply is asked for.  The prompt built from the task, the
    outputs and the inputs is not among them. *)
Theorem raw_messages_replace_the_prompt
  role task outputs outputFormat USE_JSON_SCHEMA imageMessageBuilder
  (h : store) li lm fs texts text named o t i :
  h !! li = Some (Obj fs) ->
  lookup_field "images" fs = None ->
  lookup_field "messages" fs = Some (Ref lm) ->
  h !! lm = Some (Arr (map (fun s => Prim (VStr s)) (texts ++ [text])) named) ->
  outputs = Prim (VObj o) ->
  (exists schema, createJSONSchema rt (Descriptor (VObj o)) = Normal schema) ->
  read_value task h = (Normal t, h) ->
  read_value (Ref li) h = (Normal i, h) ->
  exists isSchemaType schema,
    createOllamaMessages rt sharp role task (Ref li) outputs outputFormat
      USE_JSON_SCHEMA imageMessageBuilder h
    = (Normal
         (Result (system_message role ++ map user_message texts ++ [last_user_message text])
                 true isSchemaType schema),
       h).
Proof.
  intros Hli Himages Hmessages Hlm -> [compiled Hschema] Htask Hinputs.
  unfold createOllamaMessages.
  erewrite bbind_run.
  2:{ unfold image_count. unfold bbind at 1, read_prop at 1. rewrite Hli, Himages.
      reflexivity. }
  cbn [Nat.eqb negb]. unfold bbind at 1, bret at 1.
  assert (Htype : exists schematic,
    (if USE_JSON_SCHEMA
     then type <- read_prop (Prim (VObj o)) "type" ;;
          bret (truthy_h type &&
                match type with
                | Prim t => is_str t "array" || is_str t "object"
                | Ref _ => false
                end)
     else bret false) h = (Normal schematic, h)).
  { destruct USE_JSON_SCHEMA; eexists; reflexivity. }
  destruct Htype as [schematic Htype].
  erewrite bbind_run by exact Htype. cbv zeta.
  erewrite bbind_run.
  2:{ unfold bbind at 1, read_value at 1. cbn [snapshot].
      unfold bbind at 1, blift at 1. rewrite Hschema. reflexivity. }
  cbv beta iota.
  erewrite bbind_run by exact Htask.
  erewrite bbind_run by exact Hinputs.
  erewrite bbind_run.
  2:{ unfold read_prop. rewrite Hli, Hmessages. reflexivity. }
  cbn [default from_option id].
  unfold bbind at 1. cbv beta iota. unfold is_array. rewrite Hlm.
  assert (Hmap : forall l : list string,
            map (fun message =>
                   match message with
                   | Prim (VStr _) => NewObj [("role", str "user"); ("content", Old message)]
                   | _ => Old message
                   end) (map (fun s => Prim (VStr s)) l)
            = map user_message l).
  { intros l. rewrite map_map. reflexivity. }
  assert (Hall : forall l : list built,
            Forall (fun m => truthy_built m = true) l ->
            filter (fun m => truthy_built m = true) l = l).
  { induction 1 as [|m l Hm _ IH]; [reflexivity|].
    rewrite filter_cons_True by exact Hm. now rewrite IH. }
  erewrite bbind_run.
  2:{ unfold bbind at 1, items_of at 1. rewrite Hlm.
      erewrite bbind_run.
      2:{ unfold attach_images. rewrite Hmap.
          rewrite !map_app, !app_assoc, rev_app_distr. cbn [map rev app].
          rewrite rev_involutive. reflexivity. }
      reflexivity. }
  cbv beta iota. unfold bret.
  exists schematic, (if schematic then Prim (VObj o) else Prim VNull).
  do 3 f_equal.
  fold (system_message role).
  rewrite filter_app, filter_app.
  rewrite !Hall.
  - rewrite <- app_assoc. reflexivity.
  - repeat constructor.
  - apply Forall_map, Forall_forall. reflexivity.
  - unfold system_message. destruct (truthy_h role); repeat constructor.
Qed.

End Built.
End BuilderMore.

(** ** The message builder at concrete stores, further *)
Module BuilderMoreExamples.
Import Schema Dispatch Builder BuilderNotions Sample BuilderFacts BuilderMore.
Local Open Scope list_scope.

Lemma schema_error_witness :
  createOllamaMessages runtime encoder (Prim (VStr "calculator")) (Prim (VStr "sum"))
    (Ref 0) (Prim (VObj sizes)) (Prim (VStr "json_object")) false
    ollamaImageMessageBuilder plain
  = (Throw MalformedEnum, plain).
Proof.
  apply (builder_throws_the_schema_error runtime encoder).
  - vm_compute. reflexivity.
  - reflexivity.
Defined.

Lemma openAI_message_witness :
  openAIImageMessageBuilder runtime "look" (Listed (Ref 1)) encodings =
  (Normal
     (NewObj
        [("role", str "user");
         ("content",
          NewArr [NewObj [("type", str "text"); ("text", str "look")];
                  image_part runtime (VStr "QUJD"); image_part runtime (VStr "REVG")])]),
   encodings).
Proof.
  apply (openAI_message_parts runtime "look" 1%nat [VStr "QUJD"; VStr "REVG"] []).
  vm_compute. reflexivity.
Defined.

Lemma encoded_images_witness :
  snd (build (Ref 0) pictured)
  = <[0%nat := Obj [("a", Prim (VNum 1))]]>
      (<[1%nat := Arr [stored "base64:a.jpg"] []]> pictured).
Proof.
  unfold build.
  apply (builder_encodes_and_removes_images runtime encoder 0%nat 1%nat
           ltac:(discriminate) [("images", Ref 1); ("a", Prim (VNum 1))] eq_refl []
           (Prim (VStr "calculator")) (Prim (VStr "sum")) sum_outputs
           (Prim (VStr "json_object")) false ollamaImageMessageBuilder pictured
           (VStr "a.jpg") [] ["base64:a.jpg"]).
  - vm_compute. reflexivity.
  - vm_compute. reflexivity.
  - repeat constructor.
  - vm_compute. reflexivity.
  - exact reads_ollamaImageMessageBuilder.
Defined.

Lemma raw_messages_witness :
  exists isSchemaType schema,
    createOllamaMessages runtime encoder (Prim (VStr "calculator")) (Prim (VStr "sum"))
      (Ref 0) (Prim (VObj [("result", VStr "Number | sum")])) (Prim (VStr "json_object"))
      false ollamaImageMessageBuilder texted
    = (Normal
         (Result (system_message (Prim (VStr "calculator")) ++
                  map user_message ["hi"] ++ [last_user_message "and then?"])
                 true isSchemaType schema),
       texted).
Proof.
  apply (raw_messages_replace_the_prompt runtime encoder
           (Prim (VStr "calculator")) (Prim (VStr "sum")) _ (Prim (VStr "json_object"))
           false ollamaImageMessageBuilder texted 0%nat 1%nat [("messages", Ref 1)]
           ["hi"] "and then?" [] [("result", VStr "Number | sum")]
           (VStr "sum") (VObj [("messages", VArr [VStr "hi"; VStr "and then?"])])).
  - reflexivity.
  - reflexivity.
  - reflexivity.
  - reflexivity.
  - reflexivity.
  - eexists. vm_compute. reflexivity.
  - reflexivity.
  - vm_compute. reflexivity.
Defined.

End BuilderMoreExamples.

(** ** The data compressor *)
Module CompressorFacts.
Import JS Compressor CompressorNotions.
Local Open Scope answer_scope.
Local Open Scope list_scope.

(** *** Own properties *)
Section Own.
Context {A : Type}.
Implicit Types (fs : list (string * A)) (k : string).

Lemma lookup_own_app k fs gs :
  lookup_own k (fs ++ gs) =
  match lookup_own k fs with Some v => Some v | None => lookup_own k gs end.
Proof.
  induction fs as [|[k' v'] r IH]; [reflexivity|].
  cbn [app lookup_own]. now destruct (String.eqb k' k).
Qed.

Lemma lookup_own_none k fs : lookup_own k fs = None <-> ~ In k (map fst fs).
Proof.
  induction fs as [|[k' v'] r IH]; cbn [lookup_own map fst In]; [tauto|].
  destruct (String.eqb_spec k' k) as [->|Hne].
  - split; [discriminate | intros H; exfalso; apply H; now left].
  - rewrite IH. tauto.
Qed.

Lemma insert_new_last k (v : A) fs :
  Forall (fun e => comes_before k e = false) (map fst fs) ->
  insert_new k v fs = fs ++ [(k, v)].
Proof.
  induction fs as [|[k' v'] r IH]; intros H; [reflexivity|].
  cbn [map fst] in H. apply Forall_cons_iff in H as [H1 H2].
  cbn [insert_new app]. rewrite H1, IH by exact H2. reflexivity.
Qed.

Lemma comes_before_name k k' : index_of k = None -> comes_before k k' = false.
Proof. unfold comes_before. now intros ->. Qed.

Lemma keys_replace_own k (v : A) fs : map fst (replace_own k v fs) = map fst fs.
Proof.
  induction fs as [|[k' v'] r IH]; [reflexivity|].
  cbn [replace_own]. destruct (String.eqb_spec k' k) as [->|Hne]; cbn [map fst]; [reflexivity|].
  now rewrite IH.
Qed.

Lemma replace_own_again k (v x : A) fs :
  replace_own k v (replace_own k x fs) = replace_own k v fs.
Proof.
  induction fs as [|[k' v'] r IH]; [reflexivity|].
  cbn [replace_own]. destruct (String.eqb k' k) eqn:E; cbn [replace_own].
  - now rewrite String.eqb_refl.
  - now rewrite E, IH.
Qed.

Lemma lookup_own_replace_other k k' (x : A) fs :
  k <> k' -> lookup_own k (replace_own k' x fs) = lookup_own k fs.
Proof.
  intros Hne. induction fs as [|[k0 v0] r IH]; [reflexivity|].
  cbn [replace_own lookup_own]. destruct (String.eqb_spec k0 k') as [->|Hne'];
    cbn [lookup_own].
  - destruct (String.eqb_spec k' k); [congruence | reflexivity].
  - now rewrite IH.
Qed.

Lemma lookup_own_replace k (x y : A) fs :
  lookup_own k fs = Some y -> lookup_own k (replace_own k x fs) = Some x.
Proof.
  induction fs as [|[k0 v0] r IH]; [discriminate|].
  cbn [replace_own lookup_own]. destruct (String.eqb k0 k) eqn:E; cbn [lookup_own].
  - now rewrite String.eqb_refl.
  - now rewrite E.
Qed.

Lemma replace_own_comm k k' (v x : A) fs :
  k <> k' ->
  replace_own k v (replace_own k' x fs) = replace_own k' x (replace_own k v fs).
Proof.
  intros Hne. induction fs as [|[k0 v0] r IH]; [reflexivity|].
  cbn [replace_own].
  destruct (String.eqb k0 k') eqn:E1, (String.eqb k0 k) eqn:E2; cbn [replace_own].
  - apply String.eqb_eq in E1, E2. congruence.
  - apply String.eqb_eq in E1. subst k0. now rewrite E2, String.eqb_refl.
  - apply String.eqb_eq in E2. subst k0. now rewrite E1, String.eqb_refl.
  - now rewrite E1, E2, IH.
Qed.

Lemma insert_new_replace k k' (v x : A) fs :
  k <> k' ->
  insert_new k v (replace_own k' x fs) = replace_own k' x (insert_new k v fs).
Proof.
  intros Hne. apply String.eqb_neq in Hne.
  induction fs as [|[k0 v0] r IH].
  - cbn [replace_own insert_new]. now rewrite Hne.
  - cbn [replace_own insert_new].
    destruct (String.eqb k0 k') eqn:E1; cbn [insert_new].
    + apply String.eqb_eq in E1. subst k0.
      destruct (comes_before k k'); cbn [replace_own].
      * now rewrite Hne, String.eqb_refl.
      * now rewrite String.eqb_refl.
    + destruct (comes_before k k0); cbn [replace_own].
      * now rewrite Hne, E1.
      * now rewrite E1, IH.
Qed.

Lemma replace_insert_new k (v x : A) fs :
  lookup_own k fs = None ->
  replace_own k x (insert_new k v fs) = insert_new k x fs.
Proof.
  induction fs as [|[k0 v0] r IH]; intros H.
  - cbn [insert_new replace_own]. now rewrite String.eqb_refl.
  - cbn [lookup_own] in H. destruct (String.eqb k0 k) eqn:E; [discriminate|].
    cbn [insert_new]. destruct (comes_before k k0); cbn [replace_own].
    + now rewrite String.eqb_refl.
    + now rewrite E, IH.
Qed.

Lemma lookup_own_insert_new k k' (v : A) fs :
  lookup_own k fs = None ->
  lookup_own k' (insert_new k v fs) = if String.eqb k k' then Some v else lookup_own k' fs.
Proof.
  induction fs as [|[k0 v0] r IH]; intros H; [reflexivity|].
  cbn [lookup_own] in H. destruct (String.eqb_spec k0 k) as [|Hne]; [discriminate|].
  cbn [insert_new]. destruct (comes_before k k0); cbn [lookup_own]; [reflexivity|].
  rewrite IH by exact H.
  destruct (String.eqb_spec k0 k') as [<-|]; [|reflexivity].
  destruct (String.eqb_spec k k0); [congruence | reflexivity].
Qed.

End Own.

Section Collapse.
Context (rt : Runtime) (inherited : string -> bool).

Lemma value_eq_null (v : value) : v = VNull \/ v <> VNull.
Proof. destruct v; (now left) || (right; discriminate). Qed.

Lemma collapse_defaulted fuel data options :
  collapseArrayToObject rt inherited fuel data (defaulted options)
  = collapseArrayToObject rt inherited fuel data options.
Proof. destruct fuel; [reflexivity|]. destruct options; reflexivity. Qed.

Lemma each_ext {A C} (f g : A -> answer C) l :
  (forall x, f x = g x) -> each f l = each g l.
Proof.
  intros H. induction l as [|x r IH]; [reflexivity|].
  cbn [each]. now rewrite H, IH.
Qed.

Lemma abind_ext {A C} (m : answer A) (k k' : A -> answer C) :
  (forall a, k a = k' a) -> abind m k = abind m k'.
Proof. intros H. destruct m; cbn; [apply H | reflexivity..]. Qed.

Lemma each_members fuel options (fs : list (string * value)) :
  each (fun kv : string * value =>
          v <- collapseArrayToObject rt inherited fuel (snd kv) (defaulted options) ;;
          Value (fst kv, v)) fs
  = each (fun kv : string * value =>
            v <- collapseArrayToObject rt inherited fuel (snd kv) options ;;
            Value (fst kv, v)) fs.
Proof. apply each_ext. intros kv. now rewrite collapse_defaulted. Qed.

(** The function on an array and on another value, one call unfolded. *)
Lemma collapse_array fuel items options :
  options <> VNull ->
  collapseArrayToObject rt inherited (S fuel) (VArr items) options =
  (keyed <- every (fun item =>
                     if is_object item then has inherited item (key_attribute rt options)
                     else Value false) items ;;
   if negb keyed then Value (VArr items)
   else collapsed <- walk (gather_item rt inherited (key_attribute rt options)) items [] ;;
        finish rt inherited fuel options collapsed).
Proof.
  intros H.
  transitivity
    (keyed <- every (fun item =>
                       if is_object item then has inherited item (key_attribute rt options)
                       else Value false) items ;;
     if negb keyed then Value (VArr items)
     else collapsed <- walk (gather_item rt inherited (key_attribute rt options)) items [] ;;
          finish rt inherited fuel (defaulted options) collapsed).
  - destruct options; try congruence; reflexivity.
  - apply abind_ext. intros keyed. destruct keyed; [|reflexivity].
    apply abind_ext. intros collapsed. unfold finish.
    replace (collapses_single (defaulted options)) with (collapses_single options)
      by now destruct options.
    replace (is_deep (defaulted options)) with (is_deep options) by now destruct options.
    now rewrite each_members.
Qed.

Lemma collapse_other fuel data options :
  options <> VNull -> isArray data = false ->
  collapseArrayToObject rt inherited (S fuel) data options =
  if is_deep options && is_object data then
    members <- each (fun kv : string * value =>
                       v <- collapseArrayToObject rt inherited fuel (snd kv) options ;;
                       Value (fst kv, v))
                    (entries data) ;;
    Value (VObj (fromEntries members))
  else Value data.
Proof.
  intros H Harr. rewrite <- each_members.
  destruct options; try congruence; cbn [collapseArrayToObject];
    rewrite Harr; reflexivity.
Qed.

(** *** A keyed array *)

Lemma every_keyed k items :
  Forall (keyed k) items ->
  every (fun item => if is_object item then has inherited item k else Value false) items
  = Value true.
Proof.
  induction 1 as [|item items [Hobj [key Hkey]] _ IH]; [reflexivity|].
  cbn [every]. rewrite Hobj. unfold has. rewrite Hkey. cbn [abind]. exact IH.
Qed.

Lemma gather_item_named k collapsed item name :
  named rt k item name ->
  gather_item rt inherited k collapsed item
  = assign inherited name (VObj (rest_of k item)) collapsed.
Proof.
  intros [_ [key [Hkey <-]]]. unfold gather_item, get. now rewrite Hkey.
Qed.

Lemma assign_new name v collapsed :
  ~ In name (map fst collapsed) -> index_of name = None -> inherited name = false ->
  assign inherited name v collapsed = Value (collapsed ++ [(name, v)]).
Proof.
  intros Hnew Hindex Hin. unfold assign.
  apply lookup_own_none in Hnew. rewrite Hnew, Hin.
  rewrite insert_new_last; [reflexivity|].
  apply Forall_forall. intros e _. now apply comes_before_name.
Qed.

Lemma gather_names k items names : forall collapsed,
  Forall2 (named rt k) items names ->
  NoDup (map fst collapsed ++ names) ->
  Forall (fun name => index_of name = None /\ inherited name = false) names ->
  walk (gather_item rt inherited k) items collapsed
  = Value (collapsed ++ combine names (map (fun item => VObj (rest_of k item)) items)).
Proof.
  intros collapsed H. revert collapsed.
  induction H as [|item name items names Hitem _ IH]; intros collapsed Hnodup Hnames.
  - cbn. now rewrite app_nil_r.
  - apply Forall_cons_iff in Hnames as [[Hindex Hin] Hnames].
    cbn [walk]. rewrite (gather_item_named _ _ _ name Hitem).
    rewrite assign_new; [|
      apply NoDup_app in Hnodup as (_ & Hdisjoint & _);
      intros Hc; apply (Hdisjoint name); [now apply list_elem_of_In | now left]
      | exact Hindex | exact Hin].
    cbn [abind]. rewrite IH.
    + cbn [map combine]. now rewrite <- app_assoc.
    + rewrite map_app. cbn [map fst]. now rewrite <- app_assoc.
    + exact Hnames.
Qed.

Lemma all_single_rests names rests :
  length names = length rests ->
  all_single (combine names (map VObj rests))
  = forallb (fun rest : list (string * value) => (length rest =? 1)%nat) rests.
Proof.
  revert rests. unfold all_single.
  induction names as [|name names IH]; intros [|rest rests] [=]; [reflexivity|].
  cbn [map combine snd forallb]. rewrite IH by assumption.
  cbn [is_object typeof String.eqb Ascii.eqb Bool.eqb is_null negb andb keys].
  now rewrite length_map.
Qed.

Lemma only_members_rests names rests :
  only_members (combine names (map VObj rests))
  = combine names (map (member_of true) rests).
Proof.
  revert rests. induction names as [|name names IH]; intros [|rest rests]; try reflexivity.
  cbn [map combine only_members]. fold (only_members (combine names (map VObj rests))).
  rewrite IH. f_equal. cbn [fst snd keys member_of]. f_equal.
  destruct rest as [|[k v] rest]; [reflexivity|].
  cbn [map fst field assoc]. now rewrite String.eqb_refl.
Qed.

Lemma each_combine {C} (g : value -> answer C) names vs :
  length names = length vs ->
  each (fun kv : string * value => v <- g (snd kv) ;; Value (fst kv, v)) (combine names vs)
  = (members <- each g vs ;; Value (combine names members)).
Proof.
  revert vs. induction names as [|name names IH]; intros [|v vs] [=]; [reflexivity|].
  cbn [combine each fst snd]. destruct (g v) as [y| | |]; cbn [abind]; try reflexivity.
  rewrite IH by assumption. now destruct (each g vs).
Qed.

Lemma each_map {A' B' C} (g : B' -> answer C) (h : A' -> B') (vs : list A') :
  each g (map h vs) = each (fun v => g (h v)) vs.
Proof. induction vs as [|v vs IH]; [reflexivity|]. cbn [map each]. now rewrite IH. Qed.

Lemma each_value {B'} (h : B' -> value) (l : list B') :
  each (fun x => Value (h x)) l = Value (map h l).
Proof. induction l as [|x l IH]; [reflexivity|]. cbn [each map abind]. now rewrite IH. Qed.

(** X25.  A keyed array becomes an object.  When every item of an array is an
    object with the key attribute, and the names under it are distinct, are
    no array indices and no inherited names, the array collapses to the
    object with the names as keys, in the order of the items.  The member of
    a name is the rest of its item, or the only member of that rest when all
    rests have one member and single attributes are collapsed; with [deep]
    the function is applied to it again.  An empty array becomes the empty
    object. *)
Theorem keyed_array_becomes_an_object fuel options items names :
  options <> VNull ->
  Forall2 (named rt (key_attribute rt options)) items names ->
  NoDup names ->
  Forall (fun name => index_of name = None /\ inherited name = false) names ->
  let rests := map (rest_of (key_attribute rt options)) items in
  let single :=
    collapses_single options
    && forallb (fun rest : list (string * value) => (length rest =? 1)%nat) rests in
  collapseArrayToObject rt inherited (S fuel) (VArr items) options =
  (members <- each (fun rest =>
                      if is_deep options
                      then collapseArrayToObject rt inherited fuel (member_of single rest) options
                      else Value (member_of single rest))
                   rests ;;
   Value (VObj (combine names members))).
Proof.
  intros Hoptions Hnamed Hnodup Hnames rests single.
  assert (Hlen : length names = length rests).
  { unfold rests. rewrite length_map. symmetry. exact (Forall2_length _ _ _ Hnamed). }
  rewrite collapse_array by exact Hoptions.
  rewrite every_keyed.
  2:{ clear -Hnamed. induction Hnamed as [|item name items names [Hobj [key [Hkey _]]] _ IH];
        constructor; [split; [exact Hobj | now exists key] | exact IH]. }
  cbn [abind negb].
  rewrite (gather_names _ _ names) by (cbn [map app]; assumption).
  cbn [abind app]. unfold finish.
  rewrite <- (map_map (rest_of (key_attribute rt options)) VObj). fold rests.
  rewrite all_single_rests by exact Hlen. fold single.
  assert (Hmembers :
    (if single then only_members (combine names (map VObj rests))
     else combine names (map VObj rests))
    = combine names (map (member_of single) rests)).
  { destruct single; [apply only_members_rests | reflexivity]. }
  rewrite Hmembers.
  destruct (is_deep options).
  - rewrite (each_combine (fun v => collapseArrayToObject rt inherited fuel v options))
      by now rewrite length_map.
    rewrite each_map.
    now destruct (each (fun rest =>
                          collapseArrayToObject rt inherited fuel (member_of single rest) options)
                       rests).
  - rewrite each_value. reflexivity.
Qed.

(** *** Items of one name *)

Lemma walk_app {A' S'} (g : S' -> A' -> answer S') l l' s :
  walk g (l ++ l') s = (s' <- walk g l s ;; walk g l' s').
Proof.
  revert s. induction l as [|x l IH]; intros s; [reflexivity|].
  cbn [app walk]. destruct (g s x); cbn [abind]; [apply IH | reflexivity..].
Qed.

Lemma assign_replaced_same name v x y collapsed :
  lookup_own name collapsed = Some y ->
  assign inherited name v (replace_own name x collapsed) = assign inherited name v collapsed.
Proof.
  intros H. unfold assign. rewrite (lookup_own_replace _ x y _ H), H.
  now rewrite replace_own_again.
Qed.

Lemma assign_replaced_other k name v x collapsed :
  k <> name ->
  assign inherited k v (replace_own name x collapsed)
  = (collapsed' <- assign inherited k v collapsed ;; Value (replace_own name x collapsed')).
Proof.
  intros Hne. unfold assign. rewrite lookup_own_replace_other by exact Hne.
  destruct (lookup_own k collapsed); cbn [abind].
  - now rewrite replace_own_comm.
  - destruct (inherited k); cbn [abind]; [reflexivity|]. now rewrite insert_new_replace.
Qed.

Lemma lookup_own_assign k name v y collapsed collapsed' :
  k <> name -> lookup_own name collapsed = Some y ->
  assign inherited k v collapsed = Value collapsed' ->
  lookup_own name collapsed' = Some y.
Proof.
  intros Hne Hy. unfold assign. destruct (lookup_own k collapsed) eqn:Hk.
  - intros [= <-]. rewrite lookup_own_replace_other by congruence. exact Hy.
  - destruct (inherited k); [discriminate|]. intros [= <-].
    rewrite lookup_own_insert_new by exact Hk.
    destruct (String.eqb_spec k name); [congruence | exact Hy].
Qed.

Lemma gather_replaced k name x after : forall collapsed y,
  Exists (fun later => named rt k later name) after ->
  lookup_own name collapsed = Some y ->
  walk (gather_item rt inherited k) after (replace_own name x collapsed)
  = walk (gather_item rt inherited k) after collapsed.
Proof.
  induction after as [|item after IH]; intros collapsed y Hlater Hy.
  - now apply Exists_nil in Hlater.
  - cbn [walk]. unfold gather_item at 1 3.
    destruct (get inherited item k) as [key| | |] eqn:Hget; cbn [abind]; try reflexivity.
    destruct (String.eqb_spec (to_string rt key) name) as [->|Hne].
    + now rewrite (assign_replaced_same _ _ _ y).
    + rewrite assign_replaced_other by exact Hne.
      destruct (assign inherited (to_string rt key) (VObj (rest_of k item)) collapsed)
        as [collapsed'| | |] eqn:Hassign; cbn [abind]; try reflexivity.
      apply (IH _ y).
      * apply Exists_cons in Hlater as [[_ [key' [Hown Hname]]]|Hlater]; [|exact Hlater].
        unfold get in Hget. rewrite Hown in Hget. congruence.
      * exact (lookup_own_assign _ _ _ _ _ _ Hne Hy Hassign).
Qed.

(** X26.  Items of one name: the last one wins.  In a keyed array, an item
    whose name a later item has again leaves nothing of its other members in
    the result: the array gives the same result with any other item of that
    name in its place. *)
Theorem earlier_item_of_a_name_is_lost fuel options before item item' after name :
  Forall (keyed (key_attribute rt options)) before ->
  Forall (keyed (key_attribute rt options)) after ->
  named rt (key_attribute rt options) item name ->
  named rt (key_attribute rt options) item' name ->
  Exists (fun later => named rt (key_attribute rt options) later name) after ->
  collapseArrayToObject rt inherited fuel (VArr (before ++ item :: after)) options
  = collapseArrayToObject rt inherited fuel (VArr (before ++ item' :: after)) options.
Proof.
  intros Hbefore Hafter Hitem Hitem' Hlater.
  destruct fuel as [|fuel]; [reflexivity|].
  destruct (value_eq_null options) as [->|Hoptions]; [reflexivity|].
  assert (Hkeyed : forall it n, named rt (key_attribute rt options) it n ->
                     keyed (key_attribute rt options) it).
  { intros it n [Hobj [key [Hkey _]]]. split; [exact Hobj | now exists key]. }
  rewrite !collapse_array by exact Hoptions.
  rewrite !every_keyed
    by (apply Forall_app; split; [exact Hbefore | constructor; eauto]).
  cbn [abind negb]. rewrite !walk_app.
  destruct (walk (gather_item rt inherited (key_attribute rt options)) before [])
    as [collapsed| | |]; cbn [abind walk]; try reflexivity.
  rewrite (gather_item_named _ _ _ name Hitem), (gather_item_named _ _ _ name Hitem').
  set (k := key_attribute rt options) in *.
  unfold assign. destruct (lookup_own name collapsed) as [y|] eqn:Hy; cbn [abind].
  - rewrite <- (replace_own_again name (VObj (rest_of k item')) (VObj (rest_of k item))
                  collapsed).
    rewrite (gather_replaced k name (VObj (rest_of k item')) after
               (replace_own name (VObj (rest_of k item)) collapsed)
               (VObj (rest_of k item)));
      [reflexivity | exact Hlater | now apply (lookup_own_replace _ _ y)].
  - destruct (inherited name); cbn [abind]; [reflexivity|].
    rewrite <- (replace_insert_new name (VObj (rest_of k item)) (VObj (rest_of k item'))
                  collapsed Hy).
    rewrite (gather_replaced k name (VObj (rest_of k item')) after
               (insert_new name (VObj (rest_of k item)) collapsed)
               (VObj (rest_of k item)));
      [reflexivity | exact Hlater |].
    rewrite lookup_own_insert_new by exact Hy. now rewrite String.eqb_refl.
Qed.

End Collapse.

(** *** The order of the keys *)

Lemma comes_before_asym a b : comes_before a b = true -> comes_before b a = false.
Proof.
  unfold comes_before. destruct (index_of a), (index_of b); try discriminate; try reflexivity.
  rewrite Z.ltb_lt, Z.ltb_ge. lia.
Qed.

Lemma comes_before_trans a b c :
  comes_before a b = true -> comes_before b c = true -> comes_before a c = true.
Proof.
  unfold comes_before.
  destruct (index_of a), (index_of b), (index_of c); try discriminate; try reflexivity.
  rewrite !Z.ltb_lt. lia.
Qed.

Lemma keys_insert_key {A} k (v : A) fs :
  map fst (insert_new k v fs) = insert_key k (map fst fs).
Proof.
  induction fs as [|[k' v'] r IH]; [reflexivity|].
  cbn [insert_new insert_key map fst]. destruct (comes_before k k'); [reflexivity|].
  cbn [map fst]. now rewrite IH.
Qed.

Lemma insert_key_after k l l' :
  Forall (fun e => comes_before k e = false) l -> insert_key k (l ++ l') = l ++ insert_key k l'.
Proof.
  induction 1 as [|e l He _ IH]; [reflexivity|].
  cbn [app insert_key]. now rewrite He, IH.
Qed.

Lemma insert_key_within k l l' :
  Exists (fun e => comes_before k e = true) l -> insert_key k (l ++ l') = insert_key k l ++ l'.
Proof.
  induction l as [|e l IH]; intros H; [now apply Exists_nil in H|].
  cbn [app insert_key]. destruct (comes_before k e) eqn:E; [reflexivity|].
  apply Exists_cons in H as [H|H]; [congruence|]. cbn [app]. now rewrite IH.
Qed.

Lemma in_insert_key k l x : In x (insert_key k l) <-> x = k \/ In x l.
Proof.
  induction l as [|e l IH]; cbn [insert_key In]; [intuition|].
  destruct (comes_before k e); cbn [In]; [intuition|]. rewrite IH. intuition.
Qed.

Lemma ordered_inv l k :
  ordered (l ++ [k]) ->
  ordered l /\ ~ In k l /\ Forall (fun e => comes_before k e = false) l.
Proof.
  intros H. inversion H as [E|l0 k0 H1 H2 H3 E].
  - now destruct l.
  - apply app_inj_tail in E as [-> ->]. auto.
Qed.

Lemma before_or_within k l :
  Forall (fun e => comes_before k e = false) l \/ Exists (fun e => comes_before k e = true) l.
Proof.
  induction l as [|e l [IH|IH]].
  - left. constructor.
  - destruct (comes_before k e) eqn:E; [right; now constructor | left; now constructor].
  - right. now apply Exists_cons_tl.
Qed.

Lemma ordered_insert k l : ordered l -> ~ In k l -> ordered (insert_key k l).
Proof.
  induction 1 as [|l e Hl IH He Hbefore]; intros Hk.
  - apply (ordered_snoc [] k); [constructor | intros [] | constructor].
  - assert (Hkl : ~ In k l) by (intros Hc; apply Hk, in_or_app; now left).
    assert (Hke : k <> e) by (intros ->; apply Hk, in_or_app; right; now left).
    destruct (before_or_within k l) as [Hall|Hex'].
    + rewrite insert_key_after by exact Hall. cbn [insert_key].
      destruct (comes_before k e) eqn:E.
      * change (l ++ [k; e]) with (l ++ [k] ++ [e]). rewrite app_assoc.
        apply ordered_snoc.
        -- now apply ordered_snoc.
        -- intros Hc. apply in_app_or in Hc as [Hc|[Hc|[]]]; [now apply He | congruence].
        -- apply Forall_app. split; [exact Hbefore|]. constructor; [|constructor].
           now apply comes_before_asym.
      * change (l ++ [e; k]) with (l ++ [e] ++ [k]). rewrite app_assoc.
        apply ordered_snoc.
        -- now apply ordered_snoc.
        -- exact Hk.
        -- apply Forall_app. split; [exact Hall|]. now constructor.
    + rewrite insert_key_within by exact Hex'.
      apply ordered_snoc.
      * now apply IH.
      * rewrite in_insert_key. intros [Hc|Hc]; [congruence | now apply He].
      * apply Forall_forall. intros x Hx. apply list_elem_of_In, in_insert_key in Hx as [->|Hx].
        -- destruct (comes_before e k) eqn:E; [|reflexivity].
           apply Exists_exists in Hex' as [x [Hx Hcb]].
           rewrite Forall_forall in Hbefore.
           assert (Hc : comes_before e x = true) by now apply (comes_before_trans e k x).
           rewrite Hbefore in Hc by exact Hx. discriminate.
        -- rewrite Forall_forall in Hbefore. apply Hbefore. now apply list_elem_of_In.
Qed.

Section Order.
Context {A : Type}.
Implicit Types (fs : list (string * A)).

Lemma ordered_define k (v : A) fs :
  ordered (map fst fs) -> ordered (map fst (define k v fs)).
Proof.
  intros H. unfold define. destruct (lookup_own k fs) eqn:E.
  - now rewrite keys_replace_own.
  - rewrite keys_insert_key. apply ordered_insert; [exact H|]. now apply lookup_own_none.
Qed.

Lemma ordered_fold (es : list (string * A)) : forall fs,
  ordered (map fst fs) ->
  ordered (map fst (fold_left (fun fs e => define (fst e) (snd e) fs) es fs)).
Proof.
  induction es as [|e es IH]; intros fs H; [exact H|].
  cbn [fold_left]. apply IH. now apply ordered_define.
Qed.

Lemma ordered_fromEntries (es : list (string * A)) : ordered (map fst (fromEntries es)).
Proof. apply ordered_fold. constructor. Qed.

(** An object is what [Object.fromEntries] makes of its entries. *)
Lemma fromEntries_ordered fs : ordered (map fst fs) -> fromEntries fs = fs.
Proof.
  induction fs as [|[k v] fs IH] using rev_ind; intros H; [reflexivity|].
  rewrite map_app in H. cbn [map fst] in H. apply ordered_inv in H as (Hfs & Hk & Hbefore).
  unfold fromEntries in *. rewrite fold_left_app. cbn [fold_left fst snd].
  rewrite IH by exact Hfs. unfold define.
  apply lookup_own_none in Hk. rewrite Hk. now apply insert_new_last.
Qed.

Lemma values_define (P : A -> Prop) k v fs :
  P v -> Forall (fun kv => P (snd kv)) fs -> Forall (fun kv => P (snd kv)) (define k v fs).
Proof.
  intros Hv H. unfold define. destruct (lookup_own k fs).
  - induction H as [|[k' v'] r Hkv Hr IH]; cbn [replace_own]; [constructor|].
    destruct (String.eqb k' k); constructor; assumption.
  - induction H as [|[k' v'] r Hkv Hr IH]; cbn [insert_new]; [now repeat constructor|].
    destruct (comes_before k k'); repeat (constructor; try assumption).
Qed.

Lemma values_fromEntries (P : A -> Prop) (es : list (string * A)) :
  Forall (fun kv => P (snd kv)) es -> Forall (fun kv => P (snd kv)) (fromEntries es).
Proof.
  unfold fromEntries. assert (H0 : Forall (fun kv : string * A => P (snd kv)) []) by constructor.
  revert H0. generalize (@nil (string * A)) as fs.
  induction es as [|e es IH]; intros fs Hfs H; [exact Hfs|].
  apply Forall_cons_iff in H as [He H]. cbn [fold_left]. apply IH; [|exact H].
  now apply values_define.
Qed.

End Order.

(** *** Collapsing twice *)
Section Twice.
Context (rt : Runtime) (inherited : string -> bool).

Lemma ordered_assign k v collapsed collapsed' :
  assign inherited k v collapsed = Value collapsed' ->
  ordered (map fst collapsed) -> ordered (map fst collapsed').
Proof.
  unfold assign. intros H Hordered.
  generalize (ordered_define k v collapsed Hordered). unfold define.
  destruct (lookup_own k collapsed).
  - now injection H as <-.
  - destruct (inherited k); [discriminate|]. now injection H as <-.
Qed.

Lemma ordered_gather k items : forall collapsed collapsed',
  walk (gather_item rt inherited k) items collapsed = Value collapsed' ->
  ordered (map fst collapsed) -> ordered (map fst collapsed').
Proof.
  induction items as [|item items IH]; intros collapsed collapsed' H Hordered.
  - now injection H as <-.
  - cbn [walk] in H.
    destruct (gather_item rt inherited k collapsed item) as [c| | |] eqn:Hitem;
      try discriminate.
    cbn [abind] in H. apply (IH _ _ H).
    unfold gather_item in Hitem. destruct (get inherited item k); try discriminate.
    exact (ordered_assign _ _ _ _ Hitem Hordered).
Qed.

Lemma each_members_inv (g : value -> answer value) fs : forall fs',
  each (fun kv : string * value => v <- g (snd kv) ;; Value (fst kv, v)) fs = Value fs' ->
  map fst fs' = map fst fs /\
  Forall (fun kv' => exists v, g v = Value (snd kv')) fs'.
Proof.
  induction fs as [|[k v] fs IH]; intros fs' H.
  - injection H as <-. split; [reflexivity | constructor].
  - cbn [each fst snd] in H. destruct (g v) as [v'| | |] eqn:Hv; try discriminate.
    cbn [abind] in H.
    destruct (each (fun kv : string * value => v <- g (snd kv) ;; Value (fst kv, v)) fs)
      as [fs0| | |]; try discriminate.
    cbn [abind] in H. injection H as <-. destruct (IH fs0 eq_refl) as [Hkeys Hvalues].
    split; [cbn [map fst]; now rewrite Hkeys|].
    constructor; [now exists v | exact Hvalues].
Qed.

Lemma each_members_fixed (g : value -> answer value) (fs : list (string * value)) :
  Forall (fun kv => g (snd kv) = Value (snd kv)) fs ->
  each (fun kv : string * value => v <- g (snd kv) ;; Value (fst kv, v)) fs = Value fs.
Proof.
  induction 1 as [|[k v] fs Hv _ IH]; [reflexivity|].
  cbn [each fst snd] in *. rewrite Hv. cbn [abind]. now rewrite IH.
Qed.

Lemma keys_only_members collapsed : map fst (only_members collapsed) = map fst collapsed.
Proof. unfold only_members. rewrite map_map. reflexivity. Qed.

(** X27.  Collapsing is idempotent: applied to its own result, with the same
    options, [collapseArrayToObject] returns that result. *)
Theorem collapse_of_the_result_is_the_result fuel : forall data options result,
  collapseArrayToObject rt inherited fuel data options = Value result ->
  collapseArrayToObject rt inherited fuel result options = Value result.
Proof.
  induction fuel as [|fuel IH]; intros data options result H; [discriminate|].
  destruct (value_eq_null options) as [->|Hoptions]; [discriminate|].
  assert (Hagain : forall members : list (string * value),
            Forall (fun kv' => exists v,
                      collapseArrayToObject rt inherited fuel v options = Value (snd kv'))
                   members ->
            ordered (map fst members) ->
            collapseArrayToObject rt inherited (S fuel) (VObj members) options
            = Value (VObj members)).
  { intros members Hvalues Hordered.
    rewrite collapse_other by (exact Hoptions || reflexivity).
    destruct (is_deep options); [|reflexivity].
    cbn [andb is_object typeof String.eqb Ascii.eqb Bool.eqb is_null negb entries].
    rewrite (each_members_fixed
               (fun v => collapseArrayToObject rt inherited fuel v options)).
    - cbn [abind]. now rewrite fromEntries_ordered.
    - eapply Forall_impl; [exact Hvalues|]. intros kv [v Hv]. exact (IH _ _ _ Hv). }
  destruct (isArray data) eqn:Harray.
  - destruct data as [| | | | | | |items| |]; try discriminate.
    rewrite collapse_array in H by exact Hoptions.
    destruct (every _ items) as [keyed| | |] eqn:Hevery; try discriminate.
    cbn [abind] in H. destruct keyed; cbn [negb] in H.
    + destruct (walk _ items []) as [collapsed| | |] eqn:Hgather; try discriminate.
      cbn [abind] in H.
      assert (Hordered : ordered (map fst collapsed))
        by exact (ordered_gather _ _ _ _ Hgather ordered_nil).
      unfold finish in H.
      set (chosen := if collapses_single options && all_single collapsed
                     then only_members collapsed else collapsed) in H.
      assert (Hchosen : ordered (map fst chosen)).
      { unfold chosen. destruct (_ && _); [now rewrite keys_only_members | exact Hordered]. }
      destruct (is_deep options) eqn:Hdeep.
      * destruct (each _ chosen) as [members| | |] eqn:Heach; try discriminate.
        injection H as <-.
        apply (each_members_inv
                 (fun v => collapseArrayToObject rt inherited fuel v options)) in Heach as [Hkeys Hvalues].
        apply Hagain; [exact Hvalues | now rewrite Hkeys].
      * injection H as <-.
        rewrite collapse_other by (exact Hoptions || reflexivity).
        now rewrite Hdeep.
    + injection H as <-.
      rewrite collapse_array by exact Hoptions. now rewrite Hevery.
  - rewrite collapse_other in H by assumption.
    destruct (is_deep options && is_object data) eqn:Hdeep.
    + destruct (each _ (entries data)) as [members| | |] eqn:Heach; try discriminate.
      injection H as <-.
      apply (each_members_inv
                 (fun v => collapseArrayToObject rt inherited fuel v options)) in Heach as [_ Hvalues].
      apply Hagain.
      * now apply (values_fromEntries
                     (fun x => exists v,
                        collapseArrayToObject rt inherited fuel v options = Value x)).
      * apply ordered_fromEntries.
    + injection H as <-.
      rewrite collapse_other by assumption. now rewrite Hdeep.
Qed.

End Twice.

(** *** The recursion ends *)
Section Finishes.
Context (rt : Runtime) (inherited : string -> bool).

Lemma settled_value {A} (a : A) : settled (Value a).
Proof. right. now exists a. Qed.

Lemma settled_bind {A C} (m : answer A) (k : A -> answer C) :
  settled m -> (forall a, m = Value a -> settled (k a)) -> settled (abind m k).
Proof. intros [->|[a ->]] H; [now left | now apply H]. Qed.

Lemma settled_each {A C} (g : A -> answer C) l :
  Forall (fun x => settled (g x)) l -> settled (each g l).
Proof.
  induction 1 as [|x l Hx _ IH]; [apply settled_value|].
  cbn [each]. apply settled_bind; [exact Hx|]. intros y _.
  apply settled_bind; [exact IH|]. intros ys _. apply settled_value.
Qed.

Lemma settled_every {A} (p : A -> answer bool) l :
  Forall (fun x => settled (p x)) l -> settled (every p l).
Proof.
  induction 1 as [|x l Hx _ IH]; [apply settled_value|].
  cbn [every]. apply settled_bind; [exact Hx|]. intros [] _; [exact IH | apply settled_value].
Qed.

Lemma every_true {A} (p : A -> answer bool) l :
  every p l = Value true -> Forall (fun x => p x = Value true) l.
Proof.
  induction l as [|x l IH]; intros H; [constructor|].
  cbn [every] in H. destruct (p x) as [[]| | |] eqn:Hx; try discriminate.
  constructor; [exact Hx | now apply IH].
Qed.

Lemma height_members fs n :
  (height (VObj fs) <= S n)%nat <-> Forall (fun kv => (height (snd kv) <= n)%nat) fs.
Proof.
  cbn [height]. split.
  - intros H. apply le_S_n in H.
    induction fs as [|kv fs IH]; constructor; cbn [fold_right] in H; [lia|].
    apply IH. lia.
  - intros H. apply le_n_S.
    induction H as [|kv fs Hkv _ IH]; cbn [fold_right]; lia.
Qed.

Lemma height_array items n :
  (height (VArr items) <= S n)%nat <-> Forall (fun item => (height item <= n)%nat) items.
Proof.
  cbn [height]. split.
  - intros H. apply le_S_n in H.
    induction items as [|item items IH]; constructor; cbn [fold_right] in H; [lia|].
    apply IH. lia.
  - intros H. apply le_n_S.
    induction H as [|item items Hitem _ IH]; cbn [fold_right]; lia.
Qed.

Lemma height_entries item n :
  is_object item = true -> (height item <= S n)%nat ->
  Forall (fun kv => (height (snd kv) <= n)%nat) (entries item).
Proof.
  intros Hobject H. destruct item as [| | | | | | |items|fs|]; try discriminate.
  - apply height_array in H. cbn [entries]. apply Forall_forall. intros kv Hkv.
    apply elem_of_lookup_imap_1 in Hkv as (i & x & -> & Hx). cbn [snd].
    rewrite Forall_forall in H. apply H. now apply list_elem_of_lookup_2 in Hx.
  - now apply height_members in H.
Qed.

Lemma height_positive item : is_object item = true -> (1 <= height item)%nat.
Proof. destruct item; try discriminate; cbn [height]; lia. Qed.

Lemma height_rest k item n :
  is_object item = true -> (height item <= n)%nat ->
  (height (VObj (rest_of k item)) <= n)%nat.
Proof.
  intros Hobject H. pose proof (height_positive item Hobject).
  destruct n as [|n]; [lia|].
  apply height_members. unfold rest_of.
  pose proof (height_entries item n Hobject H) as Hentries.
  rewrite Forall_forall in Hentries. apply Forall_forall. intros kv Hkv.
  apply Hentries. now apply list_elem_of_filter in Hkv as [_ Hkv].
Qed.

Lemma height_field v k : (height (field v k) <= height v)%nat.
Proof.
  destruct v as [| | | | | |s|items|fs|f]; cbn [field height]; try lia.
  - destruct (String.eqb k "length"); cbn [height]; lia.
  - destruct (String.eqb k "length"); cbn [height]; lia.
  - induction fs as [|[k' v'] fs IH]; cbn [assoc fold_right snd]; [cbn; lia|].
    destruct (String.eqb k' k); [cbn; lia | lia].
Qed.

Lemma heights_assign k v collapsed collapsed' n :
  assign inherited k v collapsed = Value collapsed' ->
  (height v <= n)%nat ->
  Forall (fun kv => (height (snd kv) <= n)%nat) collapsed ->
  Forall (fun kv => (height (snd kv) <= n)%nat) collapsed'.
Proof.
  unfold assign. intros H Hv Hcollapsed.
  generalize (values_define (fun v => (height v <= n)%nat) k v collapsed Hv Hcollapsed).
  unfold define. destruct (lookup_own k collapsed).
  - now injection H as <-.
  - destruct (inherited k); [discriminate|]. now injection H as <-.
Qed.

Lemma settled_assign k v collapsed : settled (assign inherited k v collapsed).
Proof.
  unfold assign. destruct (lookup_own k collapsed); [apply settled_value|].
  destruct (inherited k); [now left | apply settled_value].
Qed.

Lemma settled_get item k : settled (get inherited item k).
Proof.
  unfold get. destruct (own item k); [apply settled_value|].
  destruct (inherited k); [now left | apply settled_value].
Qed.

Lemma settled_has item k : settled (has inherited item k).
Proof.
  unfold has. destruct (own item k); [apply settled_value|].
  destruct (inherited k); [now left | apply settled_value].
Qed.

Lemma gather_settled k n items : forall collapsed,
  Forall (fun item => is_object item = true /\ (height item <= n)%nat) items ->
  Forall (fun kv => (height (snd kv) <= n)%nat) collapsed ->
  settled (walk (gather_item rt inherited k) items collapsed) /\
  forall collapsed',
    walk (gather_item rt inherited k) items collapsed = Value collapsed' ->
    Forall (fun kv => (height (snd kv) <= n)%nat) collapsed'.
Proof.
  induction items as [|item items IH]; intros collapsed Hitems Hcollapsed.
  - split; [apply settled_value|]. now intros c [= <-].
  - apply Forall_cons_iff in Hitems as [[Hobject Hheight] Hitems].
    cbn [walk]. unfold gather_item at 1 3.
    destruct (settled_get item k) as [->|[key ->]]; cbn [abind];
      [split; [now left | discriminate]|].
    destruct (settled_assign (to_string rt key) (VObj (rest_of k item)) collapsed)
      as [Hassign|[c Hassign]]; rewrite Hassign; cbn [abind];
      [split; [now left | discriminate]|].
    apply IH; [exact Hitems|].
    apply (heights_assign _ _ _ _ _ Hassign); [|exact Hcollapsed].
    now apply height_rest.
Qed.

(** X28.  [collapseArrayToObject] comes to an end and throws for no options
    but [null]: with fuel beyond the depth of the data, the run returns (or
    leaves what the values cover). *)
Theorem collapse_finishes n : forall data options,
  options <> VNull -> (height data <= n)%nat ->
  settled (collapseArrayToObject rt inherited (S n) data options).
Proof.
  induction n as [|n IH]; intros data options Hoptions Hheight.
  - destruct data as [| | | | | | |items|fs|]; cbn [height] in Hheight; try lia;
      (rewrite collapse_other by (exact Hoptions || reflexivity);
       cbn [is_object typeof String.eqb Ascii.eqb Bool.eqb is_null negb andb];
       rewrite ?andb_false_r; apply settled_value).
  - destruct (isArray data) eqn:Harray.
    + destruct data as [| | | | | | |items| |]; try discriminate.
      apply height_array in Hheight.
      rewrite collapse_array by exact Hoptions.
      apply settled_bind.
      { apply settled_every, Forall_forall. intros item _.
        destruct (is_object item); [apply settled_has | apply settled_value]. }
      intros keyed Hevery. destruct keyed; cbn [negb]; [|apply settled_value].
      apply every_true in Hevery.
      assert (Hitems : Forall (fun item => is_object item = true /\ (height item <= n)%nat)
                              items).
      { rewrite Forall_forall in Hevery, Hheight. apply Forall_forall. intros item Hitem.
        split; [|now apply Hheight].
        specialize (Hevery item Hitem). now destruct (is_object item). }
      destruct (gather_settled (key_attribute rt options) n items [] Hitems)
        as [Hgather Hheights]; [constructor|].
      apply settled_bind; [exact Hgather|]. intros collapsed Hcollapsed.
      specialize (Hheights collapsed Hcollapsed).
      unfold finish.
      set (chosen := if collapses_single options && all_single collapsed
                     then only_members collapsed else collapsed).
      assert (Hchosen : Forall (fun kv => (height (snd kv) <= n)%nat) chosen).
      { unfold chosen. destruct (_ && _); [|exact Hheights].
        unfold only_members. apply Forall_map.
        eapply Forall_impl; [exact Hheights|]. intros kv Hkv. cbn [snd].
        destruct (keys (snd kv)) as [|onlyKey others]; [cbn [height]; lia|].
        pose proof (height_field (snd kv) onlyKey) as Hfield.
        exact (Nat.le_trans _ _ _ Hfield Hkv). }
      destruct (is_deep options); [|apply settled_value].
      apply settled_bind; [|intros; apply settled_value].
      apply settled_each. eapply Forall_impl; [exact Hchosen|].
      intros kv Hkv. apply settled_bind; [now apply IH|]. intros; apply settled_value.
    + rewrite collapse_other by assumption.
      destruct (is_deep options && is_object data) eqn:Hdeep; [|apply settled_value].
      apply andb_true_iff in Hdeep as [_ Hobject].
      apply settled_bind; [|intros; apply settled_value].
      apply settled_each.
      eapply Forall_impl; [exact (height_entries data n Hobject Hheight)|].
      intros kv Hkv. apply settled_bind; [now apply IH|]. intros; apply settled_value.
Qed.

End Finishes.


(** *** omitAttributes *)
Section Omit.
Context (rt : Runtime) (inherited : string -> bool) (call : nat -> value -> completion value).

Lemma split_nonempty c s : split c s <> [].
Proof.
  destruct s as [|a r]; [discriminate|]. cbn [split].
  destruct (Ascii.eqb a c); [discriminate|]. now destruct (split c r).
Qed.

Lemma join_split s : String.concat "." (split "." s) = s.
Proof.
  induction s as [|a r IH]; [reflexivity|].
  cbn [split]. destruct (Ascii.eqb_spec a ".") as [->|Hne].
  - pose proof (split_nonempty "." r) as Hr.
    destruct (split "." r) as [|x xs]; [congruence|].
    cbn [String.concat] in *. now rewrite IH.
  - destruct (split "." r) as [|x xs] eqn:E; [now apply split_nonempty in E|].
    destruct xs as [|y ys]; cbn [String.concat] in *; now rewrite <- IH.
Qed.

Lemma each_all {A' C} (g : A' -> answer C) (h : A' -> C) l :
  Forall (fun x => g x = Value (h x)) l -> each g l = Value (map h l).
Proof.
  induction 1 as [|x l Hx _ IH]; [reflexivity|].
  cbn [each map]. now rewrite Hx, IH.
Qed.

Lemma omit_pattern_plain omit p fs :
  plain_key p = true ->
  omit_pattern rt inherited call omit fs (VStr p) = Value (delete_field p fs).
Proof.
  unfold plain_key. intros H.
  apply andb_true_iff in H as [H Hdot]. apply andb_true_iff in H as [Hempty Hstar].
  apply negb_true_iff in Hdot, Hempty, Hstar.
  unfold omit_pattern. cbn [truthy typeof isArray String.eqb Ascii.eqb Bool.eqb].
  rewrite Hempty. cbn [negb orb parts_of abind to_string].
  rewrite (SchemaFacts.split_without "." p)
    by (apply SchemaFacts.includes_char_false; exact Hdot).
  rewrite Hstar. reflexivity.
Qed.

Lemma walk_plain omit ps : forall fs,
  forallb plain_key ps = true ->
  walk (omit_pattern rt inherited call omit) (map VStr ps) fs
  = Value (fold_left (fun fs p => delete_field p fs) ps fs).
Proof.
  induction ps as [|p ps IH]; intros fs H; [reflexivity|].
  cbn [forallb] in H. apply andb_true_iff in H as [Hp Hps].
  cbn [map walk fold_left]. rewrite omit_pattern_plain by exact Hp.
  cbn [abind]. now apply IH.
Qed.

(** X29.  Patterns that name keys.  For patterns that are keys (not empty,
    not [*], without a dot), [omitAttributes] returns the data without these
    keys: an object loses its own members of these names and keeps the others
    in their order, an array is treated item by item, and nothing below an
    object and no other value is changed. *)
Theorem plain_keys_are_deleted fuel : forall ps data,
  forallb plain_key ps = true ->
  (height data < fuel)%nat ->
  omitAttributes rt inherited call fuel data (VArr (map VStr ps)) = Value (without ps data).
Proof.
  induction fuel as [|fuel IH]; intros ps data Hps Hfuel; [lia|].
  destruct data as [| | | | | | |items|fs|]; try reflexivity.
  - cbn [omitAttributes is_null typeof String.eqb Ascii.eqb Bool.eqb negb orb].
    rewrite (each_all _ (without ps)).
    + reflexivity.
    + assert (H : (height (VArr items) <= S (pred fuel))%nat) by lia.
      apply height_array in H. eapply Forall_impl; [exact H|].
      intros item Hitem. apply IH; [exact Hps|].
      cbn [height] in Hfuel. destruct fuel; cbn [pred] in Hitem; lia.
  - cbn [omitAttributes is_null typeof String.eqb Ascii.eqb Bool.eqb negb orb entries].
    now rewrite walk_plain.
Qed.

(** **** The wildcard *)

Lemma replace_own_here {A'} k (v v' : A') (done todo : list (string * A')) :
  ~ In k (map fst done) ->
  replace_own k v' (done ++ (k, v) :: todo) = done ++ (k, v') :: todo.
Proof.
  induction done as [|[k0 v0] done IH]; intros H; cbn [app replace_own].
  - now rewrite String.eqb_refl.
  - cbn [map fst In] in H. destruct (String.eqb_spec k0 k); [tauto|].
    rewrite IH by tauto. reflexivity.
Qed.

Lemma delete_field_absent k fs : ~ In k (map fst fs) -> delete_field k fs = fs.
Proof.
  induction fs as [|[k0 v0] fs IH]; intros H; [reflexivity|].
  cbn [map fst In] in H. cbn [delete_field].
  destruct (String.eqb_spec k0 k); [tauto|]. rewrite IH by tauto. reflexivity.
Qed.

Lemma delete_field_here k v (done todo : list (string * value)) :
  ~ In k (map fst done) -> ~ In k (map fst todo) ->
  delete_field k (done ++ (k, v) :: todo) = done ++ todo.
Proof.
  intros Hdone Htodo. induction done as [|[k0 v0] done IH]; cbn [app delete_field].
  - rewrite String.eqb_refl. now apply delete_field_absent.
  - cbn [map fst In] in Hdone. destruct (String.eqb_spec k0 k); [tauto|].
    rewrite IH by tauto. reflexivity.
Qed.

Lemma lookup_own_here {A'} k (v : A') (done todo : list (string * A')) :
  ~ In k (map fst done) -> lookup_own k (done ++ (k, v) :: todo) = Some v.
Proof.
  intros H. rewrite lookup_own_app. apply lookup_own_none in H. rewrite H.
  cbn [lookup_own]. now rewrite String.eqb_refl.
Qed.

Lemma below_loop omit testFunc k todo : forall done,
  List.NoDup (map fst (done ++ todo)) ->
  walk (omit_below call omit testFunc k) (map fst todo) (done ++ todo)
  = (members <- each (fun kv : string * value =>
                        if is_object (snd kv) then
                          v <- omit (snd kv) (VStr k) ;; Value [(fst kv, v)]
                        else if String.eqb (fst kv) k then
                          t <- test call testFunc (Value (snd kv)) ;;
                          Value (if t then [] else [kv])
                        else Value [kv])
                     todo ;;
     Value (done ++ concat members)).
Proof.
  induction todo as [|[key v] todo IH]; intros done Hnodup.
  - cbn. reflexivity.
  - rewrite map_app in Hnodup. cbn [map fst] in Hnodup.
    pose proof (NoDup_remove_2 _ _ _ Hnodup) as Hkey.
    assert (Hdone : ~ In key (map fst done)) by (intros Hc; apply Hkey, in_or_app; now left).
    assert (Htodo : ~ In key (map fst todo)) by (intros Hc; apply Hkey, in_or_app; now right).
    assert (Hnext : forall x, List.NoDup (map fst ((done ++ [(key, x)]) ++ todo))).
    { intros x. rewrite <- app_assoc, map_app. exact Hnodup. }
    cbn [map fst walk each snd]. unfold omit_below at 1.
    rewrite lookup_own_here by exact Hdone.
    destruct (is_object v).
    + destruct (omit v (VStr k)) as [v'| | |]; cbn [abind]; try reflexivity.
      rewrite replace_own_here by exact Hdone.
      change (done ++ (key, v') :: todo) with (done ++ [(key, v')] ++ todo).
      rewrite app_assoc, IH by apply Hnext.
      destruct (each _ todo); cbn [abind]; try reflexivity.
      cbn [concat app]. now rewrite <- app_assoc.
    + destruct (String.eqb key k).
      * destruct (test call testFunc (Value v)) as [t| | |]; cbn [abind]; try reflexivity.
        destruct t; cbn [abind].
        -- rewrite delete_field_here by assumption.
           rewrite IH by (rewrite map_app; exact (NoDup_remove_1 _ _ _ Hnodup)).
           destruct (each _ todo); reflexivity.
        -- change (done ++ (key, v) :: todo) with (done ++ [(key, v)] ++ todo).
           rewrite app_assoc, IH by apply Hnext.
           destruct (each _ todo); cbn [abind]; try reflexivity.
           cbn [concat app]. now rewrite <- app_assoc.
      * cbn [abind].
        change (done ++ (key, v) :: todo) with (done ++ [(key, v)] ++ todo).
        rewrite app_assoc, IH by apply Hnext.
        destruct (each _ todo); cbn [abind]; try reflexivity.
        cbn [concat app]. now rewrite <- app_assoc.
Qed.

(** X30.  The wildcard pattern [*.k] on an object with distinct keys.  A
    member that is an object or an array is replaced by what
    [omitAttributes] makes of it for the pattern [k], without the test
    function; it is kept even when its key is [k].  A member named [k] that is
    no object is deleted when the test function accepts its value (always,
    without one).  The other members are kept, all in their order. *)
Theorem wildcard_pattern fuel k testFunc fs :
  List.NoDup (map fst fs) ->
  omitAttributes rt inherited call (S fuel) (VObj fs) (wildcard k testFunc) =
  (members <- each (fun kv : string * value =>
                      if is_object (snd kv) then
                        v <- omitAttributes rt inherited call fuel (snd kv) (VStr k) ;;
                        Value [(fst kv, v)]
                      else if String.eqb (fst kv) k then
                        t <- test call testFunc (Value (snd kv)) ;;
                        Value (if t then [] else [kv])
                      else Value [kv])
                   fs ;;
   Value (VObj (concat members))).
Proof.
  intros Hnodup.
  cbn [omitAttributes is_null typeof String.eqb Ascii.eqb Bool.eqb negb orb entries].
  assert (Hpattern :
    omit_pattern rt inherited call (omitAttributes rt inherited call fuel) fs
      (match testFunc with
       | None => VStr ("*." ++ k)
       | Some f => VArr [VStr ("*." ++ k); f]
       end)
    = walk (omit_below call (omitAttributes rt inherited call fuel) testFunc k)
           (map fst fs) fs).
  { unfold omit_pattern.
    change ("*." ++ k)%string with (String "*" (String "." k)).
    destruct testFunc as [f|];
      cbn [truthy typeof isArray String.eqb Ascii.eqb Bool.eqb negb orb andb
           lookup list_lookup default from_option id parts_of abind to_string
           String.append split];
      cbn [tl]; now rewrite join_split. }
  pose proof (below_loop (omitAttributes rt inherited call fuel) testFunc k fs [] Hnodup)
    as Hloop.
  cbn [app] in Hloop.
  destruct testFunc as [f|]; cbn [wildcard walk]; rewrite Hpattern, Hloop;
    destruct (each _ fs); reflexivity.
Qed.

End Omit.

End CompressorFacts.

(** ** The data compressor at concrete data *)
Module CompressorExamples.
Import JS Compressor CompressorNotions Sample CompressorFacts.
Local Open Scope answer_scope.
Local Open Scope list_scope.

Lemma keyed_array_witness :
  collapseArrayToObject runtime prototype_names 2 (VArr [record_a; record_b]) VUndefined
  = Value (VObj [("a", VNum 1); ("b", VNum 2)]).
Proof.
  rewrite (keyed_array_becomes_an_object runtime prototype_names 1 VUndefined
             [record_a; record_b] ["a"; "b"]).
  - reflexivity.
  - discriminate.
  - repeat (constructor; [split; [reflexivity | eexists; split; reflexivity]|]).
    constructor.
  - apply NoDup_ListNoDup.
    repeat (apply List.NoDup_cons; [cbn; intuition discriminate|]). apply List.NoDup_nil.
  - repeat (constructor; [split; reflexivity|]). constructor.
Defined.

Lemma earlier_item_witness :
  collapseArrayToObject runtime prototype_names 2
    (VArr ([] ++ record_a :: [record_a_again])) VUndefined
  = collapseArrayToObject runtime prototype_names 2
      (VArr ([] ++ record_b_as_a :: [record_a_again])) VUndefined.
Proof.
  apply (earlier_item_of_a_name_is_lost runtime prototype_names 2 VUndefined []
           record_a record_b_as_a [record_a_again] "a").
  - constructor.
  - constructor; [split; [reflexivity | eexists; reflexivity] | constructor].
  - split; [reflexivity | eexists; split; reflexivity].
  - split; [reflexivity | eexists; split; reflexivity].
  - constructor. split; [reflexivity | eexists; split; reflexivity].
Defined.

(** Both arrays give the object of the later item. *)
Example same_name_twice :
  collapseArrayToObject runtime prototype_names 2
    (VArr [record_a; record_a_again]) VUndefined
  = Value (VObj [("a", VNum 3)]).
Proof. vm_compute. reflexivity. Qed.

Lemma collapse_twice_witness :
  collapseArrayToObject runtime prototype_names 4 levels_collapsed VUndefined
  = Value levels_collapsed.
Proof.
  apply (collapse_of_the_result_is_the_result runtime prototype_names 4 levels VUndefined).
  vm_compute. reflexivity.
Defined.

Lemma collapse_finishes_witness :
  settled (collapseArrayToObject runtime prototype_names 6 levels VUndefined).
Proof.
  apply (collapse_finishes runtime prototype_names 5 levels VUndefined).
  - discriminate.
  - vm_compute. lia.
Defined.

Lemma plain_keys_witness :
  omitAttributes runtime prototype_names accepts_two 3 (VArr [typed_a; typed_b])
    (VArr (map VStr ["type"]))
  = Value (without ["type"] (VArr [typed_a; typed_b])).
Proof.
  apply (plain_keys_are_deleted runtime prototype_names accepts_two 3 ["type"]).
  - reflexivity.
  - vm_compute. lia.
Defined.

Lemma wildcard_witness :
  omitAttributes runtime prototype_names accepts_two 2
    (VObj [("type", VNum 2); ("a", typed_a); ("b", typed_b)])
    (wildcard "type" (Some (VFun 0)))
  = Value (VObj [("a", VObj [("data", VStr "a")]); ("b", VObj [("data", VStr "b")])]).
Proof.
  rewrite (wildcard_pattern runtime prototype_names accepts_two 1 "type" (Some (VFun 0))).
  - reflexivity.
  - repeat (apply List.NoDup_cons; [cbn; intuition discriminate|]). apply List.NoDup_nil.
Defined.

(** The test function is not asked below the first level: the member [type]
    of [a] is deleted although its value is [1]. *)
Example test_function_at_one_level :
  omitAttributes runtime prototype_names accepts_two 2
    (VObj [("type", VNum 1); ("a", typed_a)]) (wildcard "type" (Some (VFun 0)))
  = Value (VObj [("type", VNum 1); ("a", VObj [("data", VStr "a")])]).
Proof. vm_compute. reflexivity. Qed.

(** *** The cases of the repository's test script *)

Example test_basic_collapse :
  compress (VArr [record_a; record_b]) not_single
  = Value (VObj [("a", VObj [("data", VNum 1)]); ("b", VObj [("data", VNum 2)])]).
Proof. vm_compute. reflexivity. Qed.

Example test_single_attribute :
  compress (VArr [record_a; record_b]) VUndefined
  = Value (VObj [("a", VNum 1); ("b", VNum 2)]).
Proof. vm_compute. reflexivity. Qed.

Example test_other_key_attribute :
  compress (VArr [VObj [("id", VStr "x"); ("value", VNum 10)];
                  VObj [("id", VStr "y"); ("value", VNum 20)]])
           (VObj [("collapseOptions",
                   VObj [("keyAttr", VStr "id"); ("collapseSingleAttr", VBool false)])])
  = Value (VObj [("x", VObj [("value", VNum 10)]); ("y", VObj [("value", VNum 20)])]).
Proof. vm_compute. reflexivity. Qed.

Example test_nested_collapse :
  compress (VArr [VObj [("name", VStr "group1");
                        ("items", VArr [VObj [("name", VStr "itemA"); ("val", VNum 1)];
                                        VObj [("name", VStr "itemB"); ("val", VNum 2)]])]])
           not_single
  = Value (VObj [("group1",
                  VObj [("items", VObj [("itemA", VObj [("val", VNum 1)]);
                                        ("itemB", VObj [("val", VNum 2)])])])]).
Proof. vm_compute. reflexivity. Qed.

Example test_array_values :
  compress (VArr [VObj [("name", VStr "a"); ("data", VArr [VNum 1; VNum 4; VNum 8; VNum 2])];
                  VObj [("name", VStr "b"); ("data", VArr [VNum 2; VNum 3; VNum 7; VNum 5])]])
           VUndefined
  = Value (VObj [("a", VArr [VNum 1; VNum 4; VNum 8; VNum 2]);
                 ("b", VArr [VNum 2; VNum 3; VNum 7; VNum 5])]).
Proof. vm_compute. reflexivity. Qed.

Example test_no_array : compress record_a VUndefined = Value record_a.
Proof. vm_compute. reflexivity. Qed.

Example test_no_objects :
  compress (VArr [VNum 1; VNum 2; VNum 3]) VUndefined = Value (VArr [VNum 1; VNum 2; VNum 3]).
Proof. vm_compute. reflexivity. Qed.

Example test_missing_key :
  compress (VArr [VObj [("id", VNum 1); ("data", VStr "a")]; VObj [("data", VStr "b")]])
           VUndefined
  = Value (VArr [VObj [("id", VNum 1); ("data", VStr "a")]; VObj [("data", VStr "b")]]).
Proof. vm_compute. reflexivity. Qed.

Example test_deep_nesting :
  compress levels not_single
  = Value (VObj [("level1A",
                  VObj [("children", VObj [("level2A", VObj [("value", VNum 10)]);
                                           ("level2B", VObj [("value", VNum 20)])])]);
                 ("level1B",
                  VObj [("data",
                         VObj [("type", VStr "info");
                               ("details", VObj [("detailX", VObj [("code", VStr "X")])])])])]).
Proof. vm_compute. reflexivity. Qed.

Example test_deep_nesting_single : compress levels VUndefined = Value levels_collapsed.
Proof. vm_compute. reflexivity. Qed.

Example test_omit_shallow :
  compress (VObj [("name", VNum 1); ("type", VNum 2); ("data", VNum 3)])
           (VObj [("omit", VStr "type")])
  = Value (VObj [("name", VNum 1); ("data", VNum 3)]).
Proof. vm_compute. reflexivity. Qed.

Example test_omit_wildcard :
  compress (VObj [("a", VObj [("type", VNum 1); ("x", VNum 2)]);
                  ("b", VObj [("type", VNum 3); ("y", VNum 4)])])
           (VObj [("omit", VStr "*.type")])
  = Value (VObj [("a", VObj [("x", VNum 2)]); ("b", VObj [("y", VNum 4)])]).
Proof. vm_compute. reflexivity. Qed.

Example test_omit_nested_path :
  compress (VObj [("attributes", VObj [("type", VNum 1); ("value", VNum 2)]);
                  ("meta", VObj [("type", VNum 3)])])
           (VObj [("omit", VStr "attributes.type")])
  = Value (VObj [("attributes", VObj [("value", VNum 2)]); ("meta", VObj [("type", VNum 3)])]).
Proof. vm_compute. reflexivity. Qed.

Example test_omit_multiple :
  compress (VObj [("name", VStr "x"); ("type", VStr "y");
                  ("data", VObj [("type", VNum 1); ("value", VNum 2)])])
           (VObj [("omit", VArr [VStr "type"; VStr "*.type"])])
  = Value (VObj [("name", VStr "x"); ("data", VObj [("value", VNum 2)])]).
Proof. vm_compute. reflexivity. Qed.

Example test_omit_in_arrays :
  compress (VArr [typed_a; typed_b]) (VObj [("omit", VStr "*.type")])
  = Value (VArr [VObj [("data", VStr "a")]; VObj [("data", VStr "b")]]).
Proof. vm_compute. reflexivity. Qed.

Example test_omit_test_function :
  compress (VArr [typed_a; typed_b]) (VObj [("omit", VArr [VArr [VStr "*.type"; VFun 0]])])
  = Value (VArr [typed_a; VObj [("data", VStr "b")]]).
Proof. vm_compute. reflexivity. Qed.

(** Keys that are array indices come first, in ascending order. *)
Example index_keys_come_first :
  compress (VArr [VObj [("name", VStr "b"); ("v", VNum 1)];
                  VObj [("name", VStr "1"); ("v", VNum 2)];
                  VObj [("name", VStr "0"); ("v", VNum 3)];
                  VObj [("name", VStr "01"); ("v", VNum 4)]])
           VUndefined
  = Value (VObj [("0", VNum 3); ("1", VNum 2); ("b", VNum 1); ("01", VNum 4)]).
Proof. vm_compute. reflexivity. Qed.

End CompressorExamples.
